(** * Google Forms bulk responder: a shallow embedding of
      [google_form_bulk_submit.py] and the properties of its structure
      extractor, answer generators and payload builder. *)

From Stdlib Require Import List String Ascii ZArith Arith Bool Lia Permutation.
From Stdlib Require Import DecimalString.
Import ListNotations.

Local Open Scope string_scope.
Local Open Scope list_scope.

(* ------------------------------------------------------------------ *)
(** * Python values, exceptions and the few [str] methods the script uses *)
(* ------------------------------------------------------------------ *)

Module Py.

(** The exceptions that the script and the libraries it calls can raise.
    [RuntimeError] carries its message and, as every exception raised
    inside an [except] block does in Python 3, the exception that was
    being handled ([__context__]). *)
Inductive exn : Type :=
| ValueError
| IndexError
| AttributeError
| TimeoutException
| NoSuchElementException
| RuntimeError (msg : string) (context : exn).

(** The result of running fallible code. *)
Inductive result (A : Type) : Type :=
| Ok (a : A)
| Raise (e : exn).
Arguments Ok {A} a.
Arguments Raise {A} e.

(** [str(e)]: the text of an exception, as interpolated by an f-string. *)
Definition str_exn (e : exn) : string :=
  match e with
  | ValueError => "ValueError"
  | IndexError => "IndexError"
  | AttributeError => "'NoneType' object has no attribute 'startswith'"
  | TimeoutException => "Message: timeout"
  | NoSuchElementException => "Message: no such element"
  | RuntimeError msg _ => msg
  end.

(** Truthiness of an optional string: [None] and [''] are falsy. *)
Definition truthy (v : option string) : bool :=
  match v with
  | None => false
  | Some s => negb (s =? "")
  end.

(** [s.startswith(p)]. *)
Definition startswith (s p : string) : bool := String.prefix p s.

(** [s.split(sep)] for a one-character separator: never empty. *)
Fixpoint split (sep : ascii) (s : string) : list string :=
  match s with
  | EmptyString => [EmptyString]
  | String c s' =>
      if Ascii.eqb c sep then EmptyString :: split sep s'
      else match split sep s' with
           | [] => [String c EmptyString]
           | piece :: pieces => String c piece :: pieces
           end
  end.

(** [sep.join(pieces)]. *)
Definition join (sep : string) (pieces : list string) : string :=
  String.concat sep pieces.

(** [str(n)] for an integer. *)
Definition str_int (z : Z) : string := NilZero.string_of_int (Z.to_int z).

Fixpoint zeros (n : nat) : string :=
  match n with
  | O => EmptyString
  | S n' => String "0" (zeros n')
  end.

(** [format(z, '02d')]: sign first, then zeros up to a total width of 2. *)
Definition format_02d (z : Z) : string :=
  let sign := if (z <? 0)%Z then "-" else "" in
  let digits := str_int (Z.abs z) in
  sign ++ zeros (2 - String.length sign - String.length digits) ++ digits.

End Py.
Import Py.

(* ------------------------------------------------------------------ *)
(** * The [random] module over an explicit entropy tape *)
(* ------------------------------------------------------------------ *)

Module Random.

(** The generator state is the list of raw draws still to be consumed;
    an exhausted tape keeps answering 0. *)
Definition Rng : Type := list nat.

(** What running code that draws random numbers comes to: a result (a
    value or an exception), or a redraw loop that never ends. *)
Inductive run (A : Type) : Type :=
| Done (r : result A)
| Hangs.
Arguments Done {A} r.
Arguments Hangs {A}.

Coercion Done : result >-> run.

(** Computations that draw random numbers, may raise and may hang. *)
Definition M (A : Type) : Type := Rng -> run (A * Rng).

Definition ret {A} (a : A) : M A := fun g => Ok (a, g).

Definition bind {A B} (m : M A) (f : A -> M B) : M B :=
  fun g =>
    match m g with
    | Done (Ok (a, g')) => f a g'
    | Done (Raise e) => Raise e
    | Hangs => Hangs
    end.

Definition raise {A} (e : exn) : M A := fun _ => Raise e.

Declare Scope rand_scope.
Delimit Scope rand_scope with rand.
Notation "x <- m ;; k" := (bind m (fun x => k))
  (at level 61, m at next level, right associativity) : rand_scope.
Local Open Scope rand_scope.

(** [_randbelow(n)] for positive [n]: an integer in [0, n). *)
Definition randbelow (n : nat) : M nat :=
  fun g =>
    match g with
    | [] => Ok (0, [])
    | x :: g' => Ok (x mod n, g')
    end.

(** [random.randint(a, b)]: [a + _randbelow(b - a + 1)], [ValueError]
    on an empty range. *)
Definition randint (a b : Z) : M Z :=
  if (b - a + 1 <=? 0)%Z then raise ValueError
  else j <- randbelow (Z.to_nat (b - a + 1)) ;;
       ret (a + Z.of_nat j)%Z.

(** [random.choice(seq)]: [IndexError] on an empty sequence. *)
Definition choice (seq : list string) : M string :=
  match seq with
  | [] => raise IndexError
  | _ => j <- randbelow (List.length seq) ;;
         ret (nth j seq "")
  end.

(** [pool[j] = v]. *)
Fixpoint set_nth {A} (j : nat) (v : A) (pool : list A) : list A :=
  match pool, j with
  | [], _ => []
  | _ :: t, O => v :: t
  | h :: t, S j' => h :: set_nth j' v t
  end.

(** The pool branch of [random.sample]: at each round an index [j] below
    the number of live entries is drawn, [pool[j]] is selected and the last
    live entry is moved into slot [j].  [pool] is the live prefix of
    CPython's pool. *)
Fixpoint sample_loop {A} (d : A) (k : nat) (pool : list A) : M (list A) :=
  match k with
  | O => ret []
  | S k' =>
      j <- randbelow (List.length pool) ;;
      rest <- sample_loop d k' (removelast (set_nth j (last pool d) pool)) ;;
      ret (nth j pool d :: rest)
  end.

(** The least power of 4, from [p] upward, that is at least [m]:
    [4 ** ceil(log(m, 4))] started at [p = 1], with the logarithm taken as
    exact. *)
Fixpoint pow4_from (fuel : nat) (p m : Z) : Z :=
  match fuel with
  | O => p
  | S fuel' => if (m <=? p)%Z then p else pow4_from fuel' (4 * p) m
  end.

(** [setsize]: 21, plus [4 ** ceil(log(k * 3, 4))] when [k > 5]. *)
Definition setsize (k : Z) : Z :=
  if (5 <? k)%Z then 21 + pow4_from (Z.to_nat (3 * k)) 1 (3 * k) else 21.

(** [while j in selected: j = randbelow(n)].  On a tape that has run dry
    every further draw is 0, so the loop ends there when 0 is unused and
    never ends when 0 is in [selected]. *)
Fixpoint redraw (n : nat) (selected : list nat) (j : nat) (g : Rng)
  {struct g} : run (nat * Rng) :=
  if existsb (Nat.eqb j) selected
  then match g with
       | [] => if existsb (Nat.eqb 0) selected then Hangs else Ok (0, [])
       | x :: g' => redraw n selected (x mod n) g'
       end
  else Ok (j, g).

(** The set branch of [random.sample]: at each round an index below [n] is
    drawn, and drawn again while it is among the indices already selected;
    [selected] is the set of those indices. *)
Fixpoint sample_set (k n : nat) (selected : list nat)
  (population : list string) : M (list string) :=
  match k with
  | O => ret []
  | S k' =>
      j <- randbelow n ;;
      j <- redraw n selected j ;;
      rest <- sample_set k' n (j :: selected) population ;;
      ret (nth j population "" :: rest)
  end.

(** [random.sample(population, k)]: [ValueError] unless
    [0 <= k <= len(population)]; the pool branch when
    [len(population) <= setsize], the set branch otherwise. *)
Definition sample (population : list string) (k : Z) : M (list string) :=
  let n := List.length population in
  if ((k <? 0) || (Z.of_nat n <? k))%Z
  then raise ValueError
  else if (Z.of_nat n <=? setsize k)%Z
       then sample_loop "" (Z.to_nat k) population
       else sample_set (Z.to_nat k) n [] population.

End Random.
Import Random.
Local Open Scope rand_scope.

(* ------------------------------------------------------------------ *)
(** * Section 2 of the script: random answer generators *)
(* ------------------------------------------------------------------ *)

Definition words : list string :=
  ["apple"; "banana"; "car"; "dog"; "energy"; "finance"; "goal"; "happy";
   "investment"; "job"; "knowledge"; "life"; "money"; "nature"; "option";
   "plan"; "quality"; "return"; "stock"; "time"; "value"; "work"; "xray";
   "young"; "zebra"].

Definition random_text : M string :=
  k <- randint 2 5 ;;
  ws <- sample words k ;;
  ret (join " " ws).

Definition random_paragraph : M string :=
  a <- random_text ;;
  b <- random_text ;;
  ret (a ++ ". " ++ b ++ ".")%string.

Definition random_date : M string :=
  y <- randint 2000 2030 ;;
  m <- randint 1 12 ;;
  d <- randint 1 28 ;;
  ret (str_int y ++ "-" ++ format_02d m ++ "-" ++ format_02d d)%string.

Definition random_time : M string :=
  h <- randint 0 23 ;;
  m <- randint 0 59 ;;
  ret (format_02d h ++ ":" ++ format_02d m)%string.

Definition random_choice (options : list string) : M string :=
  match options with
  | [] => ret ""
  | _ => choice options
  end.

Definition random_multiple (options : list string) : M (list string) :=
  match options with
  | [] => ret []
  | _ =>
      k <- randint 1 (Z.max 1 (Z.of_nat (List.length options) / 2)) ;;
      sample options k
  end.

(* ------------------------------------------------------------------ *)
(** * The form structure (the dict returned by the extractor) *)
(* ------------------------------------------------------------------ *)

(** One entry of [form_struct['questions']]. *)
Record question : Type := {
  entry_id : string;
  type : string;
  options : list string
}.

(** The dict returned by [extract_form_structure] and stored in the cache
    file.  [get_attribute] may answer [None], so both tokens are optional
    strings. *)
Record form_struct : Type := {
  action_url : string;
  fbzx : option string;
  page_history : option string;
  questions : list question
}.

(** A list of [(key, value)] tuples, as passed to [requests.post]. *)
Definition payload : Type := list (string * option string).

(* ------------------------------------------------------------------ *)
(** * Section 3 of the script: POST data for one submission *)
(* ------------------------------------------------------------------ *)

(** The body of [for q in form_struct['questions']]: [data] is the list
    built so far, the result is [data] after the appends of this round. *)
Definition answer_question (q : question) (data : payload) : M payload :=
  let entry := entry_id q in
  let qtype := type q in
  let opts := options q in
  if (qtype =? "radio") || (qtype =? "dropdown") then
    match opts with
    | [] => ret data
    | _ => v <- random_choice opts ;; ret (data ++ [(entry, Some v)])
    end
  else if qtype =? "checkbox" then
    selected <- random_multiple opts ;;
    ret (fold_left (fun acc val => acc ++ [(entry, Some val)]) selected data)
  else if qtype =? "text" then
    v <- random_text ;; ret (data ++ [(entry, Some v)])
  else if qtype =? "paragraph" then
    v <- random_paragraph ;; ret (data ++ [(entry, Some v)])
  else if qtype =? "date" then
    v <- random_date ;; ret (data ++ [(entry, Some v)])
  else if qtype =? "time" then
    v <- random_time ;; ret (data ++ [(entry, Some v)])
  else if qtype =? "scale" then
    match opts with
    | [] => ret data
    | _ => v <- random_choice opts ;; ret (data ++ [(entry, Some v)])
    end
  else ret data.

Fixpoint answer_questions (qs : list question) (data : payload) : M payload :=
  match qs with
  | [] => ret data
  | q :: qs' => data' <- answer_question q data ;; answer_questions qs' data'
  end.

Definition build_post_data (fs : form_struct) : M payload :=
  let data := [("fbzx", fbzx fs)] in
  let data :=
    if truthy (page_history fs)
    then data ++ [("pageHistory", page_history fs)]
    else data in
  answer_questions (questions fs) data.

(* ------------------------------------------------------------------ *)
(** * The rendered document, as Selenium lets the script query it *)
(* ------------------------------------------------------------------ *)

Module Dom.

(** A rendered element: tag name (lower case), attributes, children. *)
#[warnings="-register-all"] Inductive element : Type :=
| Element (tag : string) (attrs : list (string * string))
          (children : list element).

Definition tag_name (e : element) : string :=
  match e with Element t _ _ => t end.

Definition attributes (e : element) : list (string * string) :=
  match e with Element _ a _ => a end.

(** Everything strictly below [e], in document order. *)
Fixpoint descendants (e : element) : list element :=
  match e with
  | Element _ _ cs => flat_map (fun c => c :: descendants c) cs
  end.

Fixpoint lookup (name : string) (kvs : list (string * string))
  : option string :=
  match kvs with
  | [] => None
  | (k, v) :: kvs' => if k =? name then Some v else lookup name kvs'
  end.

(** [e.get_attribute(name)]: [None] when the attribute is absent. *)
Definition get_attribute (e : element) (name : string) : option string :=
  lookup name (attributes e).

(** The attribute part of the CSS selectors in the script:
    [[name="v"]] and [[name^="v"]]. *)
Inductive attr_test : Type :=
| AttrIs (name value : string)
| AttrStarts (name value : string).

(** A locator: an optional tag and an optional attribute test. *)
Record locator : Type := {
  loc_tag : option string;
  loc_attr : option attr_test
}.

Definition attr_holds (t : attr_test) (e : element) : bool :=
  match t with
  | AttrIs n v =>
      match get_attribute e n with Some x => x =? v | None => false end
  | AttrStarts n v =>
      match get_attribute e n with
      | Some x => startswith x v
      | None => false
      end
  end.

Definition matches (l : locator) (e : element) : bool :=
  match loc_tag l with Some t => tag_name e =? t | None => true end
  && match loc_attr l with Some t => attr_holds t e | None => true end.

(** [scope.find_elements(by, value)]. *)
Definition find_elements (scope : element) (l : locator) : list element :=
  filter (matches l) (descendants scope).

(** [scope.find_element(by, value)]: first match or
    [NoSuchElementException]. *)
Definition find_element (scope : element) (l : locator) : result element :=
  match find_elements scope l with
  | [] => Raise NoSuchElementException
  | e :: _ => Ok e
  end.

(** [By.TAG_NAME, t]. *)
Definition by_tag (t : string) : locator :=
  {| loc_tag := Some t; loc_attr := None |}.

(** [By.NAME, n], that is [[name="n"]]. *)
Definition by_name (n : string) : locator :=
  {| loc_tag := None; loc_attr := Some (AttrIs "name" n) |}.

(** [By.CSS_SELECTOR, 't[a="v"]']. *)
Definition css_tag_attr (t a v : string) : locator :=
  {| loc_tag := Some t; loc_attr := Some (AttrIs a v) |}.

(** [By.CSS_SELECTOR, '[name^="entry."]']. *)
Definition css_entry : locator :=
  {| loc_tag := None; loc_attr := Some (AttrStarts "name" "entry.") |}.

(** [By.CSS_SELECTOR, 'select[name^="entry."]']. *)
Definition css_select_entry : locator :=
  {| loc_tag := Some "select";
     loc_attr := Some (AttrStarts "name" "entry.") |}.

(** [Select(e).options]. *)
Definition select_options (e : element) : list element :=
  find_elements e (by_tag "option").

(** [WebDriverWait(driver, 15).until(presence_of_element_located(l))]
    on a document that no longer changes. *)
Definition wait_presence (document : element) (l : locator) : result unit :=
  match find_elements document l with
  | [] => Raise TimeoutException
  | _ => Ok tt
  end.

End Dom.
Import Dom.

(** Sequencing of fallible steps that draw no random numbers. *)
Definition and_then {A B} (r : result A) (f : A -> result B) : result B :=
  match r with
  | Ok a => f a
  | Raise e => Raise e
  end.

Notation "x <-- r ;; k" := (and_then r (fun x => k))
  (at level 61, r at next level, right associativity).

(* ------------------------------------------------------------------ *)
(** * Section 1 of the script: the form structure extractor *)
(* ------------------------------------------------------------------ *)

(** The values of attribute [attr] over [es], keeping the truthy ones:
    the loops [val = e.get_attribute(attr); if val: append(val)]. *)
Definition collect_values (attr : string) (es : list element) : list string :=
  flat_map (fun e => if truthy (get_attribute e attr)
                     then match get_attribute e attr with
                          | Some v => [v]
                          | None => []
                          end
                     else []) es.

(** [data-value] of each element, or the [aria-label]s when none has one. *)
Definition choice_options (es : list element) : list string :=
  match collect_values "data-value" es with
  | [] => collect_values "aria-label" es
  | options_list => options_list
  end.

(** The entry id of a container: [named[0].get_attribute('name')] cut at
    the first underscore, [None] when nothing is named [entry.*]. *)
Definition find_entry_id (qc : element) : result (option string) :=
  let named := find_elements qc css_entry ++ find_elements qc css_select_entry in
  match named with
  | [] => Ok None
  | e :: _ =>
      match get_attribute e "name" with
      | None => Raise AttributeError
      | Some full_name => Ok (Some (hd "" (split "_" full_name)))
      end
  end.

(** Steps 1 to 8 of the loop body: the detected type and its options. *)
Definition detect_type (qc : element) : option string * list string :=
  let radios := find_elements qc (css_tag_attr "div" "role" "radio") in
  match radios with
  | _ :: _ => (Some "radio", choice_options radios)
  | [] =>
  let checkboxes := find_elements qc (css_tag_attr "div" "role" "checkbox") in
  match checkboxes with
  | _ :: _ => (Some "checkbox", choice_options checkboxes)
  | [] =>
  match find_elements qc (by_tag "select") with
  | select :: _ => (Some "dropdown", collect_values "value" (select_options select))
  | [] =>
  match find_elements qc (css_tag_attr "input" "type" "text") with
  | _ :: _ => (Some "text", [])
  | [] =>
  match find_elements qc (by_tag "textarea") with
  | _ :: _ => (Some "paragraph", [])
  | [] =>
  let radiogroups := find_elements qc (css_tag_attr "div" "role" "radiogroup") in
  match radiogroups with
  | _ :: _ =>
      (Some "scale",
       flat_map (fun rg => collect_values "data-value"
                   (find_elements rg (css_tag_attr "div" "role" "radio")))
                radiogroups)
  | [] =>
  match find_elements qc (css_tag_attr "input" "type" "date") with
  | _ :: _ => (Some "date", [])
  | [] =>
  match find_elements qc (css_tag_attr "input" "type" "time") with
  | _ :: _ => (Some "time", [])
  | [] => (None, [])
  end end end end end end end end.

(** One round of [for idx, qc in enumerate(containers)]: [questions]
    after the round. *)
Definition extract_container (qc : element) (questions : list question)
  : result (list question) :=
  entry_id <-- find_entry_id qc ;;
  let '(q_type, options_list) := detect_type qc in
  if truthy entry_id && truthy q_type
  then match entry_id, q_type with
       | Some id, Some t =>
           Ok (questions ++
                 [{| entry_id := id; type := t; options := options_list |}])
       | _, _ => Ok questions
       end
  else Ok questions.

Fixpoint extract_containers (containers : list element)
  (questions : list question) : result (list question) :=
  match containers with
  | [] => Ok questions
  | qc :: rest =>
      questions' <-- extract_container qc questions ;;
      extract_containers rest questions'
  end.

(** The [try] block of [extract_form_structure], on the document the
    browser rendered for the form URL. *)
Definition extract_try (document : element) : result form_struct :=
  _ <-- wait_presence document (by_tag "form") ;;
  form <-- find_element document (by_tag "form") ;;
  action <-- match get_attribute form "action" with
             | Some a => Ok a
             | None => Raise AttributeError
             end ;;
  let action := if startswith action "http" then action
                else ("https://docs.google.com" ++ action)%string in
  fbzx_elem <-- find_element document (by_name "fbzx") ;;
  let fbzx := get_attribute fbzx_elem "value" in
  page_history <--
    match find_element document (by_name "pageHistory") with
    | Ok page_history_elem => Ok (get_attribute page_history_elem "value")
    | Raise NoSuchElementException => Ok None
    | Raise e => Raise e
    end ;;
  let containers :=
    find_elements document (css_tag_attr "div" "role" "listitem") in
  questions <-- extract_containers containers [] ;;
  Ok {| action_url := action; fbzx := fbzx;
        page_history := page_history; questions := questions |}.

(** [except Exception as e: raise RuntimeError(f"Failed to parse form: {e}")]. *)
Definition extract_form_structure (document : element) : result form_struct :=
  match extract_try document with
  | Ok form_struct => Ok form_struct
  | Raise e => Raise (RuntimeError ("Failed to parse form: " ++ str_exn e) e)
  end.

(* ------------------------------------------------------------------ *)
(** * Section 4 of the script: cache management and bulk POST *)
(* ------------------------------------------------------------------ *)

(** What [main] reads and changes: the pages the browser can render, the
    cache files in the working directory, the random generator, the
    answer of the form endpoint to the n-th POST (a status code or a
    network exception) and the POSTs sent so far. *)
Record world : Type := {
  web : string -> element;
  files : list (string * form_struct);
  entropy : Rng;
  server : nat -> result Z;
  posts : list (string * payload)
}.

Definition with_files (w : world) (fs : list (string * form_struct)) : world :=
  {| web := web w; files := fs; entropy := entropy w;
     server := server w; posts := posts w |}.

Definition with_entropy (w : world) (g : Rng) : world :=
  {| web := web w; files := files w; entropy := g;
     server := server w; posts := posts w |}.

Definition with_posts (w : world) (ps : list (string * payload)) : world :=
  {| web := web w; files := files w; entropy := entropy w;
     server := server w; posts := ps |}.

(** [os.path.exists(name)] followed by [json.load]. *)
Fixpoint read_file (name : string) (fs : list (string * form_struct))
  : option form_struct :=
  match fs with
  | [] => None
  | (n, content) :: fs' => if n =? name then Some content else read_file name fs'
  end.

(** The longest run of characters other than [/] at the head of [s]:
    the group [([^/]+)]. *)
Fixpoint run_without_slash (s : string) : string :=
  match s with
  | EmptyString => EmptyString
  | String c s' =>
      if Ascii.eqb c "/" then EmptyString else String c (run_without_slash s')
  end.

(** [re.search(r'/d/e/([^/]+)', s)]: the group of the leftmost match. *)
Fixpoint search_form_id (s : string) : option string :=
  match s with
  | EmptyString => None
  | String _ s' =>
      if String.prefix "/d/e/" s
      then match run_without_slash (substring 5 (String.length s - 5) s) with
           | EmptyString => search_form_id s'
           | form_id => Some form_id
           end
      else search_form_id s'
  end.

Section Driver.

(** [hashlib.md5(s.encode()).hexdigest()], left abstract. *)
Variable md5_hexdigest : string -> string.

Definition get_cache_filename (form_url : string) : string :=
  let form_id :=
    match search_form_id form_url with
    | Some form_id => form_id
    | None => substring 0 10 (md5_hexdigest form_url)
    end in
  "google_form_" ++ form_id ++ ".json".

(** The block "Load or extract form structure" of [main]. *)
Definition load_or_extract (form_url : string) (w : world)
  : result form_struct * world :=
  let cache_file := get_cache_filename form_url in
  match read_file cache_file (files w) with
  | Some form_struct => (Ok form_struct, w)
  | None =>
      match extract_form_structure (web w form_url) with
      | Ok form_struct =>
          (Ok form_struct, with_files w ((cache_file, form_struct) :: files w))
      | Raise e => (Raise e, w)
      end
  end.

(** [for i in range(M)], with [n] rounds left: one payload, one POST whose
    exceptions are caught, one draw for the pacing delay.  The run hangs
    where building a payload hangs. *)
Fixpoint submit_loop (n : nat) (form_struct : form_struct) (success : nat)
  (w : world) : run nat * world :=
  match n with
  | O => (Done (Ok success), w)
  | S n' =>
      match build_post_data form_struct (entropy w) with
      | Hangs => (Hangs, w)
      | Done (Raise e) => (Done (Raise e), w)
      | Done (Ok (post_data, g)) =>
          let resp := server w (List.length (posts w)) in
          let w := with_posts (with_entropy w g)
                     (posts w ++ [(action_url form_struct, post_data)]) in
          let success :=
            match resp with
            | Ok status => if (status =? 200)%Z then S success else success
            | Raise _ => success
            end in
          submit_loop n' form_struct success (with_entropy w (tl (entropy w)))
      end
  end.

(** [main] once [sys.argv] has been parsed into [form_url] and [M]. *)
Definition main (form_url : string) (M : Z) (w : world)
  : run nat * world :=
  match load_or_extract form_url w with
  | (Raise e, w') => (Done (Raise e), w')
  | (Ok form_struct, w') => submit_loop (Z.to_nat M) form_struct 0 w'
  end.

End Driver.

(* ------------------------------------------------------------------ *)
(** * Reading back generated dates and times *)
(* ------------------------------------------------------------------ *)

Definition is_digit (c : ascii) : bool :=
  (48 <=? nat_of_ascii c)%nat && (nat_of_ascii c <=? 57)%nat.

Definition digit_value (c : ascii) : nat := nat_of_ascii c - 48.

(** The number written by a run of decimal digits. *)
Definition number_of (cs : list ascii) : option nat :=
  if forallb is_digit cs
  then Some (fold_left (fun acc c => 10 * acc + digit_value c) cs 0)
  else None.

(** Reads [YYYY-MM-DD]: exactly four digits, a dash, two digits, a dash,
    two digits. *)
Definition parse_date (s : string) : option (nat * nat * nat) :=
  match list_ascii_of_string s with
  | [y1; y2; y3; y4; s1; m1; m2; s2; d1; d2] =>
      if Ascii.eqb s1 "-" && Ascii.eqb s2 "-"
      then match number_of [y1; y2; y3; y4], number_of [m1; m2],
                 number_of [d1; d2] with
           | Some y, Some m, Some d => Some (y, m, d)
           | _, _, _ => None
           end
      else None
  | _ => None
  end.

(** Reads [HH:MM]: exactly two digits, a colon, two digits. *)
Definition parse_time (s : string) : option (nat * nat) :=
  match list_ascii_of_string s with
  | [h1; h2; s1; m1; m2] =>
      if Ascii.eqb s1 ":"
      then match number_of [h1; h2], number_of [m1; m2] with
           | Some h, Some m => Some (h, m)
           | _, _ => None
           end
      else None
  | _ => None
  end.

(** The integers [a], [a+1], ..., [a+n-1]. *)
Definition Zrange (a : Z) (n : nat) : list Z :=
  map (fun i => (a + Z.of_nat i)%Z) (seq 0 n).

Definition date_reads_back (y m d : Z) : bool :=
  match parse_date (str_int y ++ "-" ++ format_02d m ++ "-" ++ format_02d d) with
  | Some (y', m', d') =>
      (Z.of_nat y' =? y)%Z && (Z.of_nat m' =? m)%Z && (Z.of_nat d' =? d)%Z
  | None => false
  end.

Definition time_reads_back (h m : Z) : bool :=
  match parse_time (format_02d h ++ ":" ++ format_02d m) with
  | Some (h', m') => (Z.of_nat h' =? h)%Z && (Z.of_nat m' =? m)%Z
  | None => false
  end.

(** Raw draws that are already in range for a selection from [n] live
    entries: the first below [n], the next below [n - 1], and so on.  On
    such draws [_randbelow] is the identity, so equally likely draws are
    equally likely tapes. *)
Fixpoint in_range_draws (n : nat) (js : list nat) : bool :=
  match js with
  | [] => true
  | j :: js' => (j <? n)%nat && in_range_draws (n - 1) js'
  end.

(** No value occurs twice in [l]. *)
Fixpoint nodupb (l : list nat) : bool :=
  match l with
  | [] => true
  | x :: l' => negb (existsb (Nat.eqb x) l') && nodupb l'
  end.

(** Raw draws on which [random_multiple] over [n] options neither reduces
    a draw nor draws again: the count draw [c] below [max(1, n // 2)], then
    [c + 1] selection draws, in range for the pool branch, or below [n] and
    pairwise different for the set branch. *)
Definition multiple_draws (n : nat) (tape : list nat) : bool :=
  match tape with
  | [] => false
  | c :: js =>
      (c <? Nat.max 1 (n / 2))%nat && (List.length js =? S c)%nat
      && if (Z.of_nat n <=? setsize (Z.of_nat (S c)))%Z
         then in_range_draws n js
         else forallb (fun j => (j <? n)%nat) js && nodupb js
  end.

(** The first [k] values of [tape] that are neither in [seen] nor a
    repeat of an earlier one. *)
Fixpoint first_distinct (k : nat) (seen tape : list nat) : list nat :=
  match tape with
  | [] => []
  | x :: tape' =>
      match k with
      | O => []
      | S k' =>
          if existsb (Nat.eqb x) seen then first_distinct k seen tape'
          else x :: first_distinct k' (x :: seen) tape'
      end
  end.

(** The run [r] did not raise: it hangs, or it returned a value and a
    generator state that satisfy [P]. *)
Definition comes_to {A} (P : A -> Rng -> Prop) (r : run (A * Rng)) : Prop :=
  r = Hangs \/ exists a g', r = Ok (a, g') /\ P a g'.

(** [m] reads exactly the draws [used] and returns [a]. *)
Definition returns_on {A} (m : M A) (used : list nat) (a : A) : Prop :=
  forall rest, m (used ++ rest) = Ok (a, rest).

(** Whatever draws come first, they can be continued so that [m] returns a
    value satisfying [P] without running the tape dry. *)
Definition continues {A} (P : A -> Prop) (m : M A) : Prop :=
  forall g, exists more used left a,
    g ++ more = used ++ left /\ returns_on m used a /\ P a.

(** No run of draws forces [m] to hang: whatever draws come first, they
    can be continued so that [m] returns. *)
Definition returns_eventually {A} (m : M A) : Prop :=
  forall g, exists more a g', m (g ++ more) = Ok (a, g').

(** A question whose answer never takes the set branch of
    [random.sample]: no text, no paragraph, and at most 21 options for a
    checkbox. *)
Definition steady_question (q : question) : bool :=
  negb (type q =? "text") && negb (type q =? "paragraph") &&
  (negb (type q =? "checkbox") || (List.length (options q) <=? 21)%nat).

(** [answers_in_order qs g groups g']: answering the questions [qs] one
    after the other from generator state [g], each on its own, yields the
    groups of pairs [groups], one per question, and leaves state [g']. *)
Inductive answers_in_order
  : list question -> Rng -> list payload -> Rng -> Prop :=
| answers_done (g : Rng) : answers_in_order [] g [] g
| answers_next (q : question) (qs : list question) (g g1 g2 : Rng)
    (group : payload) (groups : list payload) :
    answer_question q [] g = Ok (group, g1) ->
    answers_in_order qs g1 groups g2 ->
    answers_in_order (q :: qs) g (group :: groups) g2.

(** The pairs that precede the answers: the anti-spam token, then the
    page-sequence token when it is present and not the empty string. *)
Definition token_pairs (fs : form_struct) : payload :=
  ("fbzx", fbzx fs)
  :: match page_history fs with
     | Some ph => if ph =? "" then [] else [("pageHistory", Some ph)]
     | None => []
     end.

Definition with_questions (fs : form_struct) (qs : list question) : form_struct :=
  {| action_url := action_url fs; fbzx := fbzx fs;
     page_history := page_history fs; questions := qs |}.

Definition with_page_history (fs : form_struct) (ph : option string)
  : form_struct :=
  {| action_url := action_url fs; fbzx := fbzx fs;
     page_history := ph; questions := questions fs |}.

(** The question types answered with one of the options. *)
Definition single_choice_types : list string :=
  ["radio"; "dropdown"; "scale"].

(** The question types whose answers come from the options. *)
Definition choice_types : list string :=
  ["radio"; "dropdown"; "scale"; "checkbox"].

(** A form structure whose page-sequence token is the empty string. *)
Definition form_with_empty_page_history : form_struct :=
  {| action_url := "https://docs.google.com/forms/d/e/X/formResponse";
     fbzx := Some "t"; page_history := Some "";
     questions := [ {| entry_id := "entry.1"; type := "time"; options := [] |} ] |}.

(** A form structure with a radio, a checkbox and an empty dropdown. *)
Definition form_with_choices : form_struct :=
  {| action_url := "https://docs.google.com/forms/d/e/X/formResponse";
     fbzx := Some "-77"; page_history := Some "0";
     questions :=
       [ {| entry_id := "entry.1"; type := "radio"; options := ["a"; "b"] |};
         {| entry_id := "entry.2"; type := "checkbox";
            options := ["p"; "q"; "r"; "s"] |};
         {| entry_id := "entry.3"; type := "dropdown"; options := [] |};
         {| entry_id := "entry.4"; type := "time"; options := [] |} ] |}.

(* ------------------------------------------------------------------ *)
(** * What a container holds, read off the document itself *)
(* ------------------------------------------------------------------ *)

(** A [div] whose [role] attribute is [role]. *)
Definition is_role (role : string) (e : element) : Prop :=
  tag_name e = "div" /\ get_attribute e "role" = Some role.

(** An element whose [name] attribute begins with [entry.]. *)
Definition is_field (e : element) : Prop :=
  exists n, get_attribute e "name" = Some n /\ startswith n "entry." = true.

Definition has_descendant (P : element -> Prop) (qc : element) : Prop :=
  exists e, In e (descendants qc) /\ P e.

Definition no_descendant (P : element -> Prop) (qc : element) : Prop :=
  forall e, In e (descendants qc) -> ~ P e.

(** The [value] attributes of the [option] elements below a [select]. *)
Definition option_values (select : element) : list string :=
  flat_map (fun o => match get_attribute o "value" with
                     | Some v => [v]
                     | None => []
                     end)
           (filter (fun e => tag_name e =? "option") (descendants select)).

(** A container with a radio set and a checkbox set. *)
Definition radio_and_checkbox_container : element :=
  Element "div" [("role", "listitem")]
    [ Element "input" [("type", "hidden"); ("name", "entry.42_sentinel")] [];
      Element "div" [("role", "radio"); ("data-value", "yes")] [];
      Element "div" [("role", "radio"); ("data-value", "no")] [];
      Element "div" [("role", "checkbox"); ("data-value", "x")] [] ].

(** A container with a native select offering the values "", A and B. *)
Definition select_container : element :=
  Element "div" [("role", "listitem")]
    [ Element "select" [("name", "entry.7")]
        [ Element "option" [("value", "")] [];
          Element "option" [("value", "A")] [];
          Element "option" [("value", "B")] [] ] ].

(** A container with markup of every kind but no [entry.*] name. *)
Definition decorative_container : element :=
  Element "div" [("role", "listitem")]
    [ Element "div" [("role", "radio"); ("data-value", "yes")] [];
      Element "div" [("role", "checkbox"); ("data-value", "x")] [];
      Element "select" [("name", "other")]
        [ Element "option" [("value", "A")] [] ];
      Element "input" [("type", "text")] [];
      Element "textarea" [] [] ].

(** A page that shows a form but carries no [fbzx] input. *)
Definition page_without_token : element :=
  Element "html" []
    [ Element "body" []
        [ Element "form" [("action", "/forms/d/e/X/formResponse")]
            [ select_container ] ] ].

(** A page on which no form ever appears. *)
Definition page_without_form : element :=
  Element "html" [] [ Element "body" [] [ Element "p" [] [] ] ].

(** A complete form page. *)
Definition page_with_form : element :=
  Element "html" []
    [ Element "body" []
        [ Element "form" [("action", "/forms/d/e/X/formResponse")]
            [ Element "input" [("type", "hidden"); ("name", "fbzx");
                               ("value", "-77")] [];
              Element "input" [("type", "hidden"); ("name", "pageHistory");
                               ("value", "0")] [];
              radio_and_checkbox_container;
              decorative_container;
              select_container ] ] ].

(** A page whose [pageHistory] input has an empty value. *)
Definition page_with_empty_page_history : element :=
  Element "html" []
    [ Element "body" []
        [ Element "form" [("action", "/forms/d/e/X/formResponse")]
            [ Element "input" [("type", "hidden"); ("name", "fbzx");
                               ("value", "t")] [];
              Element "input" [("type", "hidden"); ("name", "pageHistory");
                               ("value", "")] [];
              Element "div" [("role", "listitem")]
                [ Element "input" [("type", "time"); ("name", "entry.1")] [] ]
            ] ] ].

(** A container whose checkboxes repeat their data values. *)
Definition repeated_checkbox_container : element :=
  Element "div" [("role", "listitem")]
    [ Element "input" [("type", "hidden"); ("name", "entry.9_sentinel")] [];
      Element "div" [("role", "checkbox"); ("data-value", "A")] [];
      Element "div" [("role", "checkbox"); ("data-value", "A")] [];
      Element "div" [("role", "checkbox"); ("data-value", "B")] [];
      Element "div" [("role", "checkbox"); ("data-value", "B")] [] ].

(** A working directory without cache files, in front of [page]. *)
Definition fresh_world (page : element) : world :=
  {| web := fun _ => page; files := []; entropy := [1; 2; 3];
     server := fun _ => Ok 200%Z; posts := [] |}.

(* ------------------------------------------------------------------ *)
(** * Vocabulary for the properties of the whole script *)
(* ------------------------------------------------------------------ *)

(** The eight types that the extractor can assign. *)
Definition known_types : list string :=
  ["radio"; "checkbox"; "dropdown"; "text"; "paragraph"; "scale"; "date";
   "time"].

(** The types answered with freshly generated text. *)
Definition free_types : list string := ["text"; "paragraph"; "date"; "time"].

(** An [input] whose [type] attribute is [t]. *)
Definition is_input (t : string) (e : element) : Prop :=
  tag_name e = "input" /\ get_attribute e "type" = Some t.

(** An element that one of the eight detection steps looks for. *)
Definition is_feature (e : element) : Prop :=
  is_role "radio" e \/ is_role "checkbox" e \/ tag_name e = "select" \/
  is_input "text" e \/ tag_name e = "textarea" \/ is_role "radiogroup" e \/
  is_input "date" e \/ is_input "time" e.

(** The detection steps in the order of the loop body: the type each one
    assigns and the element it looks for. *)
Definition detection_steps : list (string * (element -> Prop)) :=
  [ ("radio", is_role "radio");
    ("checkbox", is_role "checkbox");
    ("dropdown", fun e => tag_name e = "select");
    ("text", is_input "text");
    ("paragraph", fun e => tag_name e = "textarea");
    ("scale", is_role "radiogroup");
    ("date", is_input "date");
    ("time", is_input "time") ].

(** No character of [s] is [c]. *)
Definition free_of (c : ascii) (s : string) : bool :=
  forallb (fun x => negb (Ascii.eqb x c)) (list_ascii_of_string s).

(** What every question written by the extractor satisfies. *)
Definition extracted_question (q : question) : Prop :=
  startswith (entry_id q) "entry." = true /\
  free_of "_" (entry_id q) = true /\
  In (type q) known_types /\
  Forall (fun o => o <> "") (options q).

(** [/d/e] occurs somewhere inside [s]. *)
Fixpoint has_d_e (s : string) : bool :=
  match s with
  | EmptyString => false
  | String _ s' => String.prefix "/d/e" s || has_d_e s'
  end.

(** A POST counts as a success when the endpoint answers 200. *)
Definition accepted (r : result Z) : bool :=
  match r with
  | Ok status => (status =? 200)%Z
  | Raise _ => false
  end.

(** How many of the POSTs numbered [start], ..., [start + n - 1] succeed. *)
Definition count_accepted (server : nat -> result Z) (start n : nat) : nat :=
  List.length (filter (fun i => accepted (server i)) (seq start n)).

Definition with_web (w : world) (pages : string -> element) : world :=
  {| web := pages; files := files w; entropy := entropy w;
     server := server w; posts := posts w |}.

(** Between two and five different words of the vocabulary. *)
Definition vocabulary_sample (ws : list string) : Prop :=
  (2 <= List.length ws <= 5)%nat /\ NoDup ws /\ incl ws words.

(** A linear scale drawn without radio elements. *)
Definition scale_container : element :=
  Element "div" [("role", "listitem")]
    [ Element "input" [("type", "hidden"); ("name", "entry.5_sentinel")] [];
      Element "div" [("role", "radiogroup")]
        [ Element "span" [("data-value", "1")] [];
          Element "span" [("data-value", "2")] [] ] ].

(** A field inside markup that no detection step looks for. *)
Definition unrecognised_container : element :=
  Element "div" [("role", "listitem")]
    [ Element "input" [("type", "file"); ("name", "entry.6")] [] ].

(* ------------------------------------------------------------------ *)
(** * Sample runs *)
(* ------------------------------------------------------------------ *)

Example random_date_run :
  random_date [17; 40; 5] = Ok ("2017-05-06", []).
Proof. reflexivity. Qed.

Example random_time_run :
  random_time [30; 125; 9] = Ok ("06:05", [9]).
Proof. reflexivity. Qed.

Example random_multiple_run :
  random_multiple ["a"; "b"; "c"; "d"] [1; 0; 0] = Ok (["a"; "d"], []).
Proof. reflexivity. Qed.

Example random_text_run :
  random_text [0; 3; 3] = Ok ("dog apple", []).
Proof. reflexivity. Qed.

Example random_text_redraws :
  random_text [0; 3; 3; 3; 7; 9] = Ok ("dog happy", [9]).
Proof. reflexivity. Qed.

Example random_text_hangs : random_text [0; 0] = Hangs.
Proof. reflexivity. Qed.

Example build_post_data_run :
  build_post_data
    {| action_url := "https://docs.google.com/forms/d/e/X/formResponse";
       fbzx := Some "-77"; page_history := Some "0";
       questions :=
         [ {| entry_id := "entry.1"; type := "radio"; options := ["a"; "b"] |};
           {| entry_id := "entry.2"; type := "checkbox";
              options := ["p"; "q"; "r"; "s"] |};
           {| entry_id := "entry.3"; type := "dropdown"; options := [] |};
           {| entry_id := "entry.4"; type := "time"; options := [] |} ] |}
    [1; 1; 2; 0; 7; 8]
  = Ok ([("fbzx", Some "-77"); ("pageHistory", Some "0");
         ("entry.1", Some "b");
         ("entry.2", Some "r"); ("entry.2", Some "p");
         ("entry.4", Some "07:08")], []).
Proof. reflexivity. Qed.

Example search_form_id_run :
  search_form_id "https://docs.google.com/forms/d/e/1FAIpQL/viewform"
  = Some "1FAIpQL".
Proof. reflexivity. Qed.

Example extract_form_structure_run :
  extract_form_structure page_with_form =
  Ok {| action_url := "https://docs.google.com/forms/d/e/X/formResponse";
        fbzx := Some "-77"; page_history := Some "0";
        questions :=
          [ {| entry_id := "entry.42"; type := "radio";
               options := ["yes"; "no"] |};
            {| entry_id := "entry.7"; type := "dropdown";
               options := ["A"; "B"] |} ] |}.
Proof. reflexivity. Qed.

Example extract_form_structure_timeout :
  extract_form_structure page_without_form =
  Raise (RuntimeError "Failed to parse form: Message: timeout" TimeoutException).
Proof. reflexivity. Qed.

Example main_run :
  let '(r, w) := main (fun s => s) "https://docs.google.com/forms/d/e/X/viewform"
                      2 (fresh_world page_with_form) in
  r = Ok 2%nat /\
  map fst (files w) = ["google_form_X.json"] /\
  map snd (posts w) =
    [ [("fbzx", Some "-77"); ("pageHistory", Some "0");
       ("entry.42", Some "no"); ("entry.7", Some "A")];
      [("fbzx", Some "-77"); ("pageHistory", Some "0");
       ("entry.42", Some "yes"); ("entry.7", Some "A")] ].
Proof. repeat split; reflexivity. Qed.

Example random_multiple_of_two :
  map (fun c => random_multiple ["x"; "y"] [c; 1]) [0; 1; 2; 3]%nat
  = map Done [Ok (["y"], []); Ok (["y"], []); Ok (["y"], []); Ok (["y"], [])].
Proof. reflexivity. Qed.

Example parse_date_rejects_short : parse_date "2017-5-6" = None.
Proof. reflexivity. Qed.

Example parse_date_reads : parse_date "2017-05-06" = Some (2017, 5, 6)%nat.
Proof. reflexivity. Qed.

(* ------------------------------------------------------------------ *)
(** * The random primitives always answer, within their range *)
(* ------------------------------------------------------------------ *)

Lemma randbelow_run (n : nat) (g : Rng) :
  (0 < n)%nat ->
  exists j g', randbelow n g = Ok (j, g') /\ (j < n)%nat.
Proof.
  intros Hn. destruct g as [|x g']; simpl.
  - exists 0%nat, []. split; [reflexivity | exact Hn].
  - exists (x mod n)%nat, g'. split; [reflexivity|].
    apply Nat.mod_upper_bound. lia.
Qed.

Lemma randint_run (a b : Z) (g : Rng) :
  (a <= b)%Z ->
  exists v g', randint a b g = Ok (v, g') /\ (a <= v <= b)%Z.
Proof.
  intros Hab. unfold randint.
  destruct (Z.leb_spec (b - a + 1) 0) as [Hle|Hgt]; [lia|].
  unfold bind.
  destruct (randbelow_run (Z.to_nat (b - a + 1)) g) as (j & g' & -> & Hj); [lia|].
  exists (a + Z.of_nat j)%Z, g'. split; [reflexivity | lia].
Qed.

Lemma Zrange_In (a : Z) (n : nat) (v : Z) :
  (a <= v < a + Z.of_nat n)%Z -> In v (Zrange a n).
Proof.
  intros Hv. unfold Zrange. apply in_map_iff.
  exists (Z.to_nat (v - a)). split; [lia|].
  apply in_seq. lia.
Qed.

(* ------------------------------------------------------------------ *)
(** * Dates and times *)
(* ------------------------------------------------------------------ *)

Lemma date_table :
  forallb (fun y => forallb (fun m => forallb (date_reads_back y m)
                                        (Zrange 1 28)) (Zrange 1 12))
          (Zrange 2000 31) = true.
Proof. vm_compute. reflexivity. Qed.

Lemma time_table :
  forallb (fun h => forallb (time_reads_back h) (Zrange 0 60)) (Zrange 0 24)
  = true.
Proof. vm_compute. reflexivity. Qed.

Lemma date_reads_back_ok (y m d : Z) :
  (2000 <= y <= 2030)%Z -> (1 <= m <= 12)%Z -> (1 <= d <= 28)%Z ->
  date_reads_back y m d = true.
Proof.
  intros Hy Hm Hd.
  pose proof date_table as T.
  rewrite forallb_forall in T.
  specialize (T y (Zrange_In 2000 31 y ltac:(lia))).
  rewrite forallb_forall in T.
  specialize (T m (Zrange_In 1 12 m ltac:(lia))).
  rewrite forallb_forall in T.
  exact (T d (Zrange_In 1 28 d ltac:(lia))).
Qed.

Lemma time_reads_back_ok (h m : Z) :
  (0 <= h <= 23)%Z -> (0 <= m <= 59)%Z -> time_reads_back h m = true.
Proof.
  intros Hh Hm.
  pose proof time_table as T.
  rewrite forallb_forall in T.
  specialize (T h (Zrange_In 0 24 h ltac:(lia))).
  rewrite forallb_forall in T.
  exact (T m (Zrange_In 0 60 m ltac:(lia))).
Qed.

(** C4. Whatever the generator state, [random_date] returns a string that
    reads as four digits, a dash, two digits, a dash, two digits, whose
    year lies in 2000..2030, month in 1..12 and day in 1..28. *)
Theorem random_date_format (g : Rng) :
  exists s g' y m d,
    random_date g = Ok (s, g') /\
    parse_date s = Some (y, m, d) /\
    (2000 <= y <= 2030)%nat /\ (1 <= m <= 12)%nat /\ (1 <= d <= 28)%nat.
Proof.
  unfold random_date, bind.
  destruct (randint_run 2000 2030 g) as (y & g1 & -> & Hy); [lia|].
  destruct (randint_run 1 12 g1) as (m & g2 & -> & Hm); [lia|].
  destruct (randint_run 1 28 g2) as (d & g3 & -> & Hd); [lia|].
  pose proof (date_reads_back_ok y m d Hy Hm Hd) as R.
  unfold date_reads_back in R.
  destruct (parse_date _) as [[[y' m'] d']|] eqn:P; [|discriminate].
  apply andb_prop in R. destruct R as [R Rd].
  apply andb_prop in R. destruct R as [Ry Rm].
  apply Z.eqb_eq in Ry, Rm, Rd.
  exists (str_int y ++ "-" ++ format_02d m ++ "-" ++ format_02d d)%string,
    g3, y', m', d'.
  split; [reflexivity|]. split; [exact P|]. lia.
Qed.

(** C5. Whatever the generator state, [random_time] returns a string that
    reads as two digits, a colon, two digits, whose hour lies in 0..23 and
    minute in 0..59. *)
Theorem random_time_format (g : Rng) :
  exists s g' h m,
    random_time g = Ok (s, g') /\
    parse_time s = Some (h, m) /\
    (0 <= h <= 23)%nat /\ (0 <= m <= 59)%nat.
Proof.
  unfold random_time, bind.
  destruct (randint_run 0 23 g) as (h & g1 & -> & Hh); [lia|].
  destruct (randint_run 0 59 g1) as (m & g2 & -> & Hm); [lia|].
  pose proof (time_reads_back_ok h m Hh Hm) as R.
  unfold time_reads_back in R.
  destruct (parse_time _) as [[h' m']|] eqn:P; [|discriminate].
  apply andb_prop in R. destruct R as [Rh Rm].
  apply Z.eqb_eq in Rh, Rm.
  exists (format_02d h ++ ":" ++ format_02d m)%string, g2, h', m'.
  split; [reflexivity|]. split; [exact P|]. lia.
Qed.

(* ------------------------------------------------------------------ *)
(** * Selection without replacement *)
(* ------------------------------------------------------------------ *)

Section SampleLoop.

Context {A : Type} (d : A).

Lemma set_nth_length (j : nat) (v : A) (pool : list A) :
  List.length (set_nth j v pool) = List.length pool.
Proof.
  revert j. induction pool as [|h t IH]; intros [|j]; simpl; auto.
Qed.

Lemma set_nth_app_l (j : nat) (v : A) (w rest : list A) :
  (j < List.length w)%nat ->
  set_nth j v (w ++ rest) = set_nth j v w ++ rest.
Proof.
  revert j. induction w as [|h t IH]; intros [|j] Hj; simpl in *;
    try lia; try reflexivity.
  f_equal. apply IH. lia.
Qed.

Lemma set_nth_last (l : A) (w : list A) :
  set_nth (List.length w) l (w ++ [l]) = w ++ [l].
Proof.
  induction w as [|h t IH]; simpl; [reflexivity | now rewrite IH].
Qed.

Lemma take_and_fill_perm (l : A) (w : list A) (j : nat) :
  (j < List.length w)%nat ->
  Permutation (nth j w d :: set_nth j l w) (l :: w).
Proof.
  revert j. induction w as [|h t IH]; intros [|j] Hj; simpl in *; try lia.
  - apply perm_swap.
  - transitivity (h :: nth j t d :: set_nth j l t); [apply perm_swap|].
    transitivity (h :: l :: t); [|apply perm_swap].
    apply perm_skip, IH. lia.
Qed.

(** One round of the loop takes one entry out of the pool and keeps all
    the others. *)
Lemma pool_round_perm (pool : list A) (j : nat) :
  (j < List.length pool)%nat ->
  Permutation (nth j pool d :: removelast (set_nth j (last pool d) pool)) pool.
Proof.
  intros Hj.
  destruct (exists_last (l := pool)) as (w & l & ->).
  { intros ->. simpl in Hj. lia. }
  rewrite last_last. rewrite length_app in Hj. simpl in Hj.
  destruct (Nat.eq_dec j (List.length w)) as [->|Hne].
  - rewrite set_nth_last, removelast_last, nth_middle.
    apply Permutation_cons_append.
  - rewrite set_nth_app_l by lia. rewrite removelast_last.
    rewrite app_nth1 by lia.
    transitivity (l :: w); [apply take_and_fill_perm; lia|].
    apply Permutation_cons_append.
Qed.

Lemma pool_round_length (pool : list A) (j : nat) :
  (j < List.length pool)%nat ->
  S (List.length (removelast (set_nth j (last pool d) pool))) = List.length pool.
Proof.
  intros Hj. apply (Permutation_length (pool_round_perm pool j Hj)).
Qed.

(** The loop always answers when asked for at most [length pool] entries:
    it returns [k] entries which, with some others, make up the pool. *)
Lemma sample_loop_run (k : nat) :
  forall (pool : list A) (g : Rng),
    (k <= List.length pool)%nat ->
    exists r g' rest,
      sample_loop d k pool g = Ok (r, g') /\
      List.length r = k /\ Permutation (r ++ rest) pool.
Proof.
  induction k as [|k IH]; intros pool g Hk.
  - exists [], g, pool. repeat split; reflexivity.
  - simpl. unfold bind.
    destruct (randbelow_run (List.length pool) g) as (j & g1 & -> & Hj); [lia|].
    pose proof (pool_round_perm pool j Hj) as P.
    pose proof (pool_round_length pool j Hj) as L.
    destruct (IH (removelast (set_nth j (last pool d) pool)) g1)
      as (r & g2 & rest & -> & Hlen & Hperm); [lia|].
    exists (nth j pool d :: r), g2, rest. simpl.
    repeat split; [now rewrite Hlen|].
    transitivity (nth j pool d :: removelast (set_nth j (last pool d) pool));
      [now apply perm_skip | exact P].
Qed.

End SampleLoop.

Lemma last_map {A B} (f : A -> B) (d : A) (l : list A) :
  last (map f l) (f d) = f (last l d).
Proof.
  induction l as [|h [|h' t] IH]; simpl in *; auto.
Qed.

Lemma removelast_map {A B} (f : A -> B) (l : list A) :
  removelast (map f l) = map f (removelast l).
Proof.
  induction l as [|h [|h' t] IH]; simpl in *; auto. now rewrite IH.
Qed.

Lemma set_nth_map {A B} (f : A -> B) (j : nat) (v : A) (l : list A) :
  set_nth j (f v) (map f l) = map f (set_nth j v l).
Proof.
  revert j. induction l as [|h t IH]; intros [|j]; simpl; auto.
  now rewrite IH.
Qed.

(** The loop selects by position: running it on the images of the pool
    entries gives the images of what it selects from the pool. *)
Lemma sample_loop_map {A B} (f : A -> B) (d : A) (k : nat) :
  forall (pool : list A) (g : Rng),
    sample_loop (f d) k (map f pool) g =
    match sample_loop d k pool g with
    | Done (Ok (r, g')) => Ok (map f r, g')
    | Done (Raise e) => Raise e
    | Hangs => Hangs
    end.
Proof.
  induction k as [|k IH]; intros pool g; [reflexivity|].
  simpl. unfold bind. rewrite length_map.
  destruct (randbelow (List.length pool) g) as [[[j g1]|e]|]; [|reflexivity|reflexivity].
  rewrite last_map, set_nth_map, removelast_map, IH, map_nth.
  destruct (sample_loop d k _ g1) as [[[r g2]|e]|]; reflexivity.
Qed.

Lemma nth_seq_self (n : nat) (d : string) (l : list string) :
  List.length l = n -> map (fun i => nth i l d) (seq 0 n) = l.
Proof.
  intros <-. apply (nth_ext _ _ d d).
  - now rewrite length_map, length_seq.
  - intros i Hi. rewrite length_map, length_seq in Hi.
    rewrite (nth_indep _ d (nth (List.length l) l d))
      by now rewrite length_map, length_seq.
    rewrite (map_nth (fun i => nth i l d)).
    now rewrite seq_nth.
Qed.

Lemma randbelow_small (n j : nat) (g : Rng) :
  (j < n)%nat -> randbelow n (j :: g) = Ok (j, g).
Proof.
  intros Hj. unfold randbelow. now rewrite Nat.mod_small.
Qed.

Section SampleUniform.

Context {A : Type} (d : A).

Lemma sample_loop_round (k : nat) (pool : list A) (j : nat) (g : Rng) :
  (j < List.length pool)%nat ->
  sample_loop d (S k) pool (j :: g) =
  match sample_loop d k (removelast (set_nth j (last pool d) pool)) g with
  | Done (Ok (rest, g')) => Ok (nth j pool d :: rest, g')
  | Done (Raise e) => Raise e
  | Hangs => Hangs
  end.
Proof.
  intros Hj. cbn [sample_loop]. unfold bind.
  rewrite randbelow_small by exact Hj.
  destruct (sample_loop d k _ g) as [[[r g']|e]|]; reflexivity.
Qed.

(** Every duplicate-free arrangement of [k] pool entries is selected by
    some in-range draws. *)
Lemma sample_loop_reaches (k : nat) :
  forall (pool r : list A),
    NoDup pool -> NoDup r -> incl r pool -> List.length r = k ->
    exists js,
      List.length js = k /\ in_range_draws (List.length pool) js = true /\
      forall rest, sample_loop d k pool (js ++ rest) = Ok (r, rest).
Proof.
  induction k as [|k IH]; intros pool r Hpool Hr Hincl Hlen.
  - destruct r; [|discriminate]. exists []. repeat split; reflexivity.
  - destruct r as [|x r]; [discriminate|].
    injection Hlen as Hlen. inversion Hr as [|? ? Hx Hr']; subst.
    destruct (In_nth pool x d (Hincl x (or_introl eq_refl))) as (j & Hj & Hnth).
    pose proof (pool_round_perm d pool j Hj) as P.
    pose proof (pool_round_length d pool j Hj) as L.
    rewrite Hnth in P.
    set (pool' := removelast (set_nth j (last pool d) pool)) in *.
    assert (Hnd : NoDup (x :: pool'))
      by (apply (Permutation_NoDup (Permutation_sym P)); exact Hpool).
    inversion Hnd as [|? ? Hx' Hpool']; subst.
    destruct (IH pool' r Hpool' Hr') as (js & Hjs & Hrange & Hrun);
      [|reflexivity|].
    { intros y Hy.
      destruct (Permutation_in y (Permutation_sym P) (Hincl y (or_intror Hy)))
        as [<-|Hin]; [contradiction | exact Hin]. }
    exists (j :: js). split; [simpl; now rewrite Hjs|]. split.
    + simpl. apply andb_true_intro. split; [now apply Nat.ltb_lt|].
      replace (List.length pool - 1)%nat with (List.length pool') by lia.
      exact Hrange.
    + intros rest. rewrite <- app_comm_cons.
      rewrite sample_loop_round by exact Hj. fold pool'.
      rewrite Hrun. reflexivity.
Qed.

(** Two in-range draw sequences that select the same arrangement from a
    duplicate-free pool are the same sequence. *)
Lemma sample_loop_draws_unique (k : nat) :
  forall (pool r : list A) (js1 js2 rest1 rest2 : list nat) (g1 g2 : Rng),
    NoDup pool ->
    List.length js1 = k -> List.length js2 = k ->
    in_range_draws (List.length pool) js1 = true ->
    in_range_draws (List.length pool) js2 = true ->
    sample_loop d k pool (js1 ++ rest1) = Ok (r, g1) ->
    sample_loop d k pool (js2 ++ rest2) = Ok (r, g2) ->
    js1 = js2.
Proof.
  induction k as [|k IH];
    intros pool r js1 js2 rest1 rest2 g1 g2 Hpool L1 L2 R1 R2 S1 S2.
  - destruct js1, js2; try discriminate. reflexivity.
  - destruct js1 as [|j1 js1]; [discriminate|].
    destruct js2 as [|j2 js2]; [discriminate|].
    injection L1 as L1. injection L2 as L2.
    simpl in R1, R2.
    apply andb_prop in R1. destruct R1 as [J1 R1].
    apply andb_prop in R2. destruct R2 as [J2 R2].
    apply Nat.ltb_lt in J1, J2.
    rewrite <- app_comm_cons in S1, S2.
    rewrite sample_loop_round in S1 by exact J1.
    rewrite sample_loop_round in S2 by exact J2.
    destruct (sample_loop d k _ (js1 ++ rest1)) as [[[r1 h1]|]|] eqn:E1;
      [|discriminate|discriminate].
    destruct (sample_loop d k _ (js2 ++ rest2)) as [[[r2 h2]|]|] eqn:E2;
      [|discriminate|discriminate].
    injection S1 as <- <-. injection S2 as Hhead Htail _.
    assert (j2 = j1) as -> by (apply (NoDup_nth pool d); assumption).
    subst r2. f_equal.
    pose proof (pool_round_perm d pool j1 J1) as P.
    pose proof (pool_round_length d pool j1 J1) as L.
    assert (Hnd : NoDup (nth j1 pool d
                   :: removelast (set_nth j1 (last pool d) pool)))
      by (apply (Permutation_NoDup (Permutation_sym P)); exact Hpool).
    apply NoDup_cons_iff in Hnd. destruct Hnd as [_ Hpool'].
    eapply (IH _ _ js1 js2 rest1 rest2 h1 h2 Hpool' L1 L2).
    + replace (List.length pool - 1)%nat with
        (List.length (removelast (set_nth j1 (last pool d) pool))) in R1 by lia.
      exact R1.
    + replace (List.length pool - 1)%nat with
        (List.length (removelast (set_nth j1 (last pool d) pool))) in R2 by lia.
      exact R2.
    + exact E1.
    + exact E2.
Qed.

End SampleUniform.

(* ------------------------------------------------------------------ *)
(** * Choice answers *)
(* ------------------------------------------------------------------ *)

Lemma count_range (n : nat) :
  Z.to_nat (Z.max 1 (Z.of_nat n / 2) - 1 + 1) = Nat.max 1 (n / 2).
Proof.
  replace (Z.of_nat n / 2)%Z with (Z.of_nat (n / 2))
    by (rewrite Nat2Z.inj_div; reflexivity).
  lia.
Qed.

Lemma random_multiple_unfold (opts : list string) (g : Rng) :
  opts <> [] ->
  random_multiple opts g =
  match randbelow (Nat.max 1 (List.length opts / 2)) g with
  | Done (Ok (c, g')) => sample opts (Z.of_nat (S c)) g'
  | Done (Raise e) => Raise e
  | Hangs => Hangs
  end.
Proof.
  intros Hne. destruct opts as [|o opts]; [contradiction|].
  unfold random_multiple, randint, bind.
  destruct (Z.leb_spec (Z.max 1 (Z.of_nat (List.length (o :: opts)) / 2) - 1 + 1) 0);
    [lia|].
  rewrite count_range.
  destruct (randbelow _ g) as [[[c g']|e]|]; [|reflexivity|reflexivity].
  unfold ret. replace (1 + Z.of_nat c)%Z with (Z.of_nat (S c)) by lia.
  reflexivity.
Qed.

Lemma half_cap_le (n : nat) : (0 < n -> Nat.max 1 (n / 2) <= n)%nat.
Proof.
  intros Hn. pose proof (Nat.Div0.div_le_upper_bound n 2 n) as H.
  apply Nat.max_lub; [lia|]. apply H. lia.
Qed.

Lemma nonempty_length {A} (l : list A) : l <> [] -> (0 < List.length l)%nat.
Proof. destruct l; [contradiction | simpl; lia]. Qed.

(** ** Runs that may hang, and runs that can be continued *)

Lemma comes_to_total {A} (P : A -> Rng -> Prop) (r : run (A * Rng)) :
  (exists a g', r = Ok (a, g') /\ P a g') -> comes_to P r.
Proof. intros H. now right. Qed.

Lemma comes_to_weaken {A} (P Q : A -> Rng -> Prop) (r : run (A * Rng)) :
  comes_to P r -> (forall a g', P a g' -> Q a g') -> comes_to Q r.
Proof.
  intros [->|(a & g' & -> & HP)] HPQ; [now left|].
  right. exists a, g'. split; [reflexivity | now apply HPQ].
Qed.

Lemma comes_to_bind {A B} (P : A -> Rng -> Prop) (Q : B -> Rng -> Prop)
  (m : M A) (f : A -> M B) (g : Rng) :
  comes_to P (m g) ->
  (forall a g', P a g' -> comes_to Q (f a g')) ->
  comes_to Q (bind m f g).
Proof.
  intros Hm Hf. unfold bind.
  destruct Hm as [->|(a & g' & -> & HP)]; [now left|].
  now apply Hf.
Qed.

Lemma returns_on_bind {A B} (m : M A) (f : A -> M B) (u1 u2 : list nat)
  (a : A) (b : B) :
  returns_on m u1 a -> returns_on (f a) u2 b ->
  returns_on (bind m f) (u1 ++ u2) b.
Proof.
  intros H1 H2 rest. unfold bind. rewrite <- app_assoc, H1. apply H2.
Qed.

Lemma continues_ret {A} (P : A -> Prop) (a : A) : P a -> continues P (ret a).
Proof.
  intros Pa g. exists [], [], g, a. split; [now rewrite app_nil_r|].
  split; [intros rest; reflexivity | exact Pa].
Qed.

Lemma continues_bind {A B} (P : A -> Prop) (Q : B -> Prop) (m : M A)
  (f : A -> M B) :
  continues P m -> (forall a, P a -> continues Q (f a)) ->
  continues Q (bind m f).
Proof.
  intros Hm Hf g.
  destruct (Hm g) as (more1 & used1 & left1 & a & E1 & R1 & Pa).
  destruct (Hf a Pa left1) as (more2 & used2 & left2 & b & E2 & R2 & Qb).
  exists (more1 ++ more2), (used1 ++ used2), left2, b.
  split; [now rewrite app_assoc, E1, <- !app_assoc, E2|].
  split; [now apply (returns_on_bind m f used1 used2 a b) | exact Qb].
Qed.

Lemma continues_weaken {A} (P Q : A -> Prop) (m : M A) :
  continues P m -> (forall a, P a -> Q a) -> continues Q m.
Proof.
  intros Hm HPQ g. destruct (Hm g) as (more & used & left & a & E & R & Pa).
  exists more, used, left, a. repeat split; try assumption. now apply HPQ.
Qed.

(** A computation that can be continued returns on some continuation of
    any draws. *)
Lemma continues_run {A} (P : A -> Prop) (m : M A) :
  continues P m ->
  forall g, exists more a g', m (g ++ more) = Ok (a, g') /\ P a.
Proof.
  intros Hm g. destruct (Hm g) as (more & used & left & a & E & R & Pa).
  exists more, a, left. split; [rewrite E; apply R | exact Pa].
Qed.

Lemma continues_randbelow (n : nat) :
  (0 < n)%nat -> continues (fun j => (j < n)%nat) (randbelow n).
Proof.
  intros Hn [|x g].
  - exists [0%nat], [0%nat], [], 0%nat. split; [reflexivity|].
    split; [|exact Hn]. intros rest. simpl. now rewrite Nat.Div0.mod_0_l.
  - exists [], [x], g, (x mod n)%nat. split; [now rewrite app_nil_r|].
    split; [intros rest; reflexivity|]. apply Nat.mod_upper_bound. lia.
Qed.

Lemma continues_randint (a b : Z) :
  (a <= b)%Z -> continues (fun v => (a <= v <= b)%Z) (randint a b).
Proof.
  intros Hab. unfold randint.
  destruct (Z.leb_spec (b - a + 1) 0); [lia|].
  apply (continues_bind (fun j => (j < Z.to_nat (b - a + 1))%nat));
    [apply continues_randbelow; lia|].
  intros j Hj. apply continues_ret. lia.
Qed.

Lemma randbelow_comes_to (n : nat) (g : Rng) :
  (0 < n)%nat -> comes_to (fun j _ => (j < n)%nat) (randbelow n g).
Proof.
  intros Hn. apply comes_to_total.
  destruct (randbelow_run n g Hn) as (j & g' & E & Hj). now exists j, g'.
Qed.

(** ** The pool branch *)

Lemma sample_loop_continues {A} (d : A) (k : nat) :
  forall pool : list A,
    (k <= List.length pool)%nat ->
    continues (fun _ => True) (sample_loop d k pool).
Proof.
  induction k as [|k IH]; intros pool Hk; [now apply continues_ret|].
  cbn [sample_loop].
  apply (continues_bind (fun j => (j < List.length pool)%nat));
    [apply continues_randbelow; lia|].
  intros j Hj. pose proof (pool_round_length d pool j Hj) as L.
  apply (continues_bind (fun _ => True)); [apply IH; lia|].
  intros rest _. now apply continues_ret.
Qed.

Lemma pow4_from_positive (fuel : nat) :
  forall p m, (0 < p)%Z -> (0 < pow4_from fuel p m)%Z.
Proof.
  induction fuel as [|fuel IH]; intros p m Hp; cbn [pow4_from]; [exact Hp|].
  destruct (m <=? p)%Z; [exact Hp | apply IH; lia].
Qed.

Lemma setsize_at_least (k : Z) : (21 <= setsize k)%Z.
Proof.
  unfold setsize. destruct (5 <? k)%Z; [|lia].
  pose proof (pow4_from_positive (Z.to_nat (3 * k)) 1 (3 * k)). lia.
Qed.

Lemma sample_pool (opts : list string) (k : nat) (g : Rng) :
  (k <= List.length opts)%nat ->
  (Z.of_nat (List.length opts) <=? setsize (Z.of_nat k))%Z = true ->
  sample opts (Z.of_nat k) g = sample_loop "" k opts g.
Proof.
  intros Hk Hpool. unfold sample.
  destruct (Z.ltb_spec (Z.of_nat k) 0); [lia|].
  destruct (Z.ltb_spec (Z.of_nat (List.length opts)) (Z.of_nat k)); [lia|].
  cbn [orb]. now rewrite Hpool, Nat2Z.id.
Qed.

Lemma sample_by_set (opts : list string) (k : nat) (g : Rng) :
  (k <= List.length opts)%nat ->
  (Z.of_nat (List.length opts) <=? setsize (Z.of_nat k))%Z = false ->
  sample opts (Z.of_nat k) g = sample_set k (List.length opts) [] opts g.
Proof.
  intros Hk Hset. unfold sample.
  destruct (Z.ltb_spec (Z.of_nat k) 0); [lia|].
  destruct (Z.ltb_spec (Z.of_nat (List.length opts)) (Z.of_nat k)); [lia|].
  cbn [orb]. now rewrite Hset, Nat2Z.id.
Qed.

Lemma sample_small (opts : list string) (k : nat) (g : Rng) :
  (k <= List.length opts)%nat -> (List.length opts <= 21)%nat ->
  sample opts (Z.of_nat k) g = sample_loop "" k opts g.
Proof.
  intros Hk Hsmall. apply sample_pool; [exact Hk|].
  apply Z.leb_le. pose proof (setsize_at_least (Z.of_nat k)). lia.
Qed.

(** [random_choice] on a non-empty list answers with one of its entries. *)
Lemma random_choice_answers (opts : list string) (g : Rng) :
  opts <> [] ->
  exists v g', random_choice opts g = Ok (v, g') /\ In v opts.
Proof.
  intros Hne. pose proof (nonempty_length opts Hne) as Hlen.
  destruct opts as [|o opts]; [contradiction|].
  unfold random_choice, choice, bind.
  destruct (randbelow_run (List.length (o :: opts)) g) as (j & g' & -> & Hj);
    [exact Hlen|].
  exists (nth j (o :: opts) ""), g'. split; [reflexivity|].
  now apply nth_In.
Qed.

(** Selecting entries is selecting positions and reading the entries
    there. *)
Lemma sample_loop_positions (opts : list string) (k : nat) (g : Rng) :
  sample_loop "" k opts g =
  match sample_loop (List.length opts) k (seq 0 (List.length opts)) g with
  | Done (Ok (idxs, g')) => Ok (map (fun i => nth i opts "") idxs, g')
  | Done (Raise e) => Raise e
  | Hangs => Hangs
  end.
Proof.
  pose proof (sample_loop_map (fun i => nth i opts "") (List.length opts) k
                (seq 0 (List.length opts)) g) as H.
  cbv beta in H.
  rewrite nth_overflow in H by lia.
  rewrite nth_seq_self in H by reflexivity.
  exact H.
Qed.

(** The pool branch answers with the entries found at [k] pairwise distinct
    positions. *)
Lemma sample_loop_answers (opts : list string) (k : nat) (g : Rng) :
  (k <= List.length opts)%nat ->
  exists sel g' idxs,
    sample_loop "" k opts g = Ok (sel, g') /\
    List.length idxs = k /\ NoDup idxs /\
    Forall (fun i => (i < List.length opts)%nat) idxs /\
    sel = map (fun i => nth i opts "") idxs.
Proof.
  intros Hk. set (n := List.length opts) in *.
  rewrite sample_loop_positions. fold n.
  destruct (sample_loop_run n k (seq 0 n) g)
    as (idxs & g2 & rest & -> & Hlen & Hperm); [rewrite length_seq; lia|].
  exists (map (fun i => nth i opts "") idxs), g2, idxs.
  split; [reflexivity|]. split; [exact Hlen|].
  assert (Hnd : NoDup (idxs ++ rest))
    by (apply (Permutation_NoDup (Permutation_sym Hperm)), seq_NoDup).
  split; [exact (NoDup_app_remove_r _ _ Hnd)|].
  split; [|reflexivity].
  apply Forall_forall. intros i Hi.
  assert (Hin : In i (seq 0 n))
    by (apply (Permutation_in i Hperm), in_or_app; now left).
  apply in_seq in Hin. lia.
Qed.

(** ** The set branch *)

Lemma mem_In (j : nat) (l : list nat) :
  existsb (Nat.eqb j) l = true <-> In j l.
Proof.
  rewrite existsb_exists. split.
  - intros (x & Hx & E). apply Nat.eqb_eq in E. now subst.
  - intros H. exists j. split; [exact H | apply Nat.eqb_refl].
Qed.

Lemma not_mem_In (j : nat) (l : list nat) :
  existsb (Nat.eqb j) l = false <-> ~ In j l.
Proof.
  rewrite <- mem_In. destruct (existsb (Nat.eqb j) l); split; intros H.
  - discriminate.
  - now exfalso.
  - discriminate.
  - reflexivity.
Qed.

(** The redraw loop hands back an index as soon as it is unused. *)
Lemma redraw_fresh (n : nat) (selected : list nat) (j : nat) (g : Rng) :
  ~ In j selected -> redraw n selected j g = Ok (j, g).
Proof.
  intros Hj. apply not_mem_In in Hj.
  destruct g; cbn [redraw]; now rewrite Hj.
Qed.

(** On a used index the redraw loop draws again and starts over. *)
Lemma redraw_member (n : nat) (selected : list nat) (j : nat) (g : Rng) :
  In j selected ->
  redraw n selected j g = bind (randbelow n) (redraw n selected) g.
Proof.
  intros Hj. apply mem_In in Hj.
  destruct g as [|x g]; cbn [redraw]; rewrite Hj; unfold bind, randbelow.
  - cbn [redraw]. destruct (existsb (Nat.eqb 0) selected); reflexivity.
  - reflexivity.
Qed.

(** The redraw loop never raises, and what it returns is an unused index
    below [n]. *)
Lemma redraw_comes_to (n : nat) (selected : list nat) :
  (0 < n)%nat ->
  forall (g : Rng) (j : nat),
    (j < n)%nat ->
    comes_to (fun j' _ => (j' < n)%nat /\ ~ In j' selected)
             (redraw n selected j g).
Proof.
  intros Hn. induction g as [|x g IH]; intros j Hj; cbn [redraw];
    destruct (existsb (Nat.eqb j) selected) eqn:E.
  - destruct (existsb (Nat.eqb 0) selected) eqn:E0; [now left|].
    right. exists 0%nat, []. split; [reflexivity|].
    split; [exact Hn | now apply not_mem_In].
  - right. exists j, []. split; [reflexivity|].
    split; [exact Hj | now apply not_mem_In].
  - apply IH. apply Nat.mod_upper_bound. lia.
  - right. exists j, (x :: g). split; [reflexivity|].
    split; [exact Hj | now apply not_mem_In].
Qed.

Lemma fresh_index (n : nat) (selected : list nat) :
  (List.length selected < n)%nat ->
  exists v, (v < n)%nat /\ ~ In v selected.
Proof.
  intros Hlen.
  destruct (find (fun v => negb (existsb (Nat.eqb v) selected)) (seq 0 n))
    as [v|] eqn:F.
  - apply find_some in F. destruct F as [Hv Hfresh].
    exists v. split; [apply in_seq in Hv; lia|].
    apply not_mem_In. now apply negb_true_iff.
  - exfalso.
    assert (Hincl : incl (seq 0 n) selected).
    { intros v Hv. apply mem_In.
      pose proof (find_none _ _ F v Hv) as H. now apply negb_false_iff in H. }
    pose proof (NoDup_incl_length (seq_NoDup n 0) Hincl) as H.
    rewrite length_seq in H. lia.
Qed.

(** As long as some index is unused, the redraw loop can be continued so
    that it returns. *)
Lemma redraw_continues (n : nat) (selected : list nat) (j : nat) :
  (List.length selected < n)%nat -> (j < n)%nat ->
  continues (fun j' => (j' < n)%nat /\ ~ In j' selected)
            (redraw n selected j).
Proof.
  intros Hlen Hj g. revert j Hj.
  destruct (fresh_index n selected Hlen) as (v & Hv & Hfresh).
  induction g as [|x g IH]; intros j Hj.
  - destruct (existsb (Nat.eqb j) selected) eqn:E.
    + exists [v], [v], [], v. split; [reflexivity|].
      split; [|now split]. intros rest. cbn [redraw app]. rewrite E.
      rewrite Nat.mod_small by exact Hv. now apply redraw_fresh.
    + exists [], [], [], j. split; [reflexivity|].
      apply not_mem_In in E. split; [|now split].
      intros rest. now apply redraw_fresh.
  - destruct (existsb (Nat.eqb j) selected) eqn:E.
    + destruct (IH (x mod n)%nat) as (more & used & left & j' & Eg & R & Pj);
        [apply Nat.mod_upper_bound; lia|].
      exists more, (x :: used), left, j'.
      split; [cbn [app]; now rewrite Eg|]. split; [|exact Pj].
      intros rest. cbn [redraw app]. rewrite E. apply R.
    + exists [], [], (x :: g), j. split; [now rewrite app_nil_r|].
      apply not_mem_In in E. split; [|now split].
      intros rest. now apply redraw_fresh.
Qed.

(** The set branch never raises, and what it returns are the entries at
    [k] pairwise distinct positions that were not selected before. *)
Lemma sample_set_comes_to (n : nat) (population : list string) (k : nat) :
  forall (selected : list nat) (g : Rng),
    (k = 0 \/ 0 < n)%nat ->
    comes_to (fun sel _ =>
                exists idxs,
                  List.length idxs = k /\ NoDup idxs /\
                  Forall (fun i => (i < n)%nat) idxs /\
                  (forall i, In i idxs -> ~ In i selected) /\
                  sel = map (fun i => nth i population "") idxs)
             (sample_set k n selected population g).
Proof.
  induction k as [|k IH]; intros selected g Hn.
  - right. exists [], g. split; [reflexivity|]. exists [].
    repeat split; try constructor. intros i [].
  - assert (Hpos : (0 < n)%nat) by (destruct Hn; [discriminate | assumption]).
    cbn [sample_set].
    apply (comes_to_bind (fun j _ => (j < n)%nat));
      [now apply randbelow_comes_to|].
    intros j0 g0 Hj0.
    apply (comes_to_bind (fun j _ => (j < n)%nat /\ ~ In j selected));
      [now apply redraw_comes_to|].
    intros j g1 [Hj Hfresh].
    eapply comes_to_bind; [apply (IH (j :: selected) g1); now right|].
    intros rest g2 (idxs & Hlen & Hnd & Hlt & Hout & ->).
    right. exists (nth j population "" :: map (fun i => nth i population "") idxs), g2.
    split; [reflexivity|]. exists (j :: idxs).
    split; [simpl; now rewrite Hlen|].
    split; [constructor; [intros Hin; apply (Hout j Hin); now left | exact Hnd]|].
    split; [now constructor|].
    split; [|reflexivity].
    intros i [<-|Hi]; [exact Hfresh|].
    intros Hsel. apply (Hout i Hi). now right.
Qed.

(** On draws that are below [n], pairwise different and unused, the set
    branch reads exactly those draws and selects the entries there. *)
Lemma sample_set_returns_on (n : nat) (population : list string) :
  forall (idxs selected : list nat),
    NoDup idxs -> Forall (fun i => (i < n)%nat) idxs ->
    (forall i, In i idxs -> ~ In i selected) ->
    returns_on (sample_set (List.length idxs) n selected population) idxs
               (map (fun i => nth i population "") idxs).
Proof.
  induction idxs as [|i idxs IH]; intros selected Hnd Hlt Hout rest;
    [reflexivity|].
  inversion Hnd as [|? ? Hi Hnd']; subst.
  inversion Hlt as [|? ? Hilt Hlt']; subst.
  cbn [List.length sample_set app map]. unfold bind.
  rewrite randbelow_small by exact Hilt.
  rewrite redraw_fresh by (apply Hout; now left).
  rewrite (IH (i :: selected) Hnd' Hlt'); [reflexivity|].
  intros i' Hi' [<-|Hsel]; [contradiction|].
  apply (Hout i'); [now right | exact Hsel].
Qed.

(** While enough indices are unused, the set branch can be continued so
    that it returns. *)
Lemma sample_set_continues (n : nat) (population : list string) (k : nat) :
  forall selected : list nat,
    (List.length selected + k <= n)%nat ->
    continues (fun _ => True) (sample_set k n selected population).
Proof.
  induction k as [|k IH]; intros selected Hlen; [now apply continues_ret|].
  cbn [sample_set].
  apply (continues_bind (fun j => (j < n)%nat));
    [apply continues_randbelow; lia|].
  intros j0 Hj0.
  apply (continues_bind (fun j => (j < n)%nat /\ ~ In j selected));
    [apply redraw_continues; [lia | exact Hj0]|].
  intros j [Hj Hfresh].
  apply (continues_bind (fun _ => True)); [apply IH; simpl; lia|].
  intros rest _. now apply continues_ret.
Qed.

(** On draws below [n], the set branch selects the positions given by the
    first [k] different unused draws, when the tape holds that many. *)
Lemma sample_set_first_distinct (n : nat) (population : list string) :
  forall (tape : list nat) (k : nat) (selected : list nat),
    Forall (fun x => (x < n)%nat) tape ->
    List.length (first_distinct k selected tape) = k ->
    exists left,
      sample_set k n selected population tape
      = Ok (map (fun i => nth i population "") (first_distinct k selected tape),
            left).
Proof.
  induction tape as [|x tape IH]; intros k selected Hlt Hk.
  - cbn [first_distinct] in *. simpl in Hk. subst k. now exists [].
  - destruct k as [|k]; [now exists (x :: tape)|].
    inversion Hlt as [|? ? Hx Hlt']; subst.
    cbn [first_distinct] in *.
    destruct (existsb (Nat.eqb x) selected) eqn:E.
    + destruct (IH (S k) selected Hlt' Hk) as (left & Hrun).
      exists left. rewrite <- Hrun.
      cbn [sample_set]. unfold bind at 1.
      rewrite randbelow_small by exact Hx.
      unfold bind at 1.
      rewrite redraw_member by now apply mem_In.
      unfold bind.
      destruct (randbelow n tape) as [[[j g']|e]|]; reflexivity.
    + simpl in Hk. injection Hk as Hk.
      destruct (IH k (x :: selected) Hlt' Hk) as (left & Hrun).
      exists left. cbn [sample_set map]. unfold bind.
      rewrite randbelow_small by exact Hx.
      rewrite redraw_fresh by now apply not_mem_In.
      now rewrite Hrun.
Qed.

(** ** [random.sample] and [random_multiple] *)

(** [random.sample] never raises on an admissible count, and what it
    returns are the entries at [k] pairwise distinct positions. *)
Lemma sample_comes_to (opts : list string) (k : nat) (g : Rng) :
  (k <= List.length opts)%nat ->
  comes_to (fun sel _ =>
              exists idxs,
                List.length idxs = k /\ NoDup idxs /\
                Forall (fun i => (i < List.length opts)%nat) idxs /\
                sel = map (fun i => nth i opts "") idxs)
           (sample opts (Z.of_nat k) g).
Proof.
  intros Hk.
  destruct (Z.of_nat (List.length opts) <=? setsize (Z.of_nat k))%Z eqn:T.
  - rewrite sample_pool by assumption. apply comes_to_total.
    destruct (sample_loop_answers opts k g Hk)
      as (sel & g' & idxs & Hrun & Hrest).
    exists sel, g'. split; [exact Hrun | now exists idxs].
  - rewrite sample_by_set by assumption.
    eapply comes_to_weaken;
      [apply sample_set_comes_to; destruct k; [now left | right; lia]|].
    intros sel g' (idxs & Hlen & Hnd & Hlt & _ & Hsel).
    now exists idxs.
Qed.

Lemma sample_continues (opts : list string) (k : nat) :
  (k <= List.length opts)%nat ->
  continues (fun _ => True) (sample opts (Z.of_nat k)).
Proof.
  intros Hk.
  destruct (Z.of_nat (List.length opts) <=? setsize (Z.of_nat k))%Z eqn:T.
  - intros g. destruct (sample_loop_continues "" k opts Hk g)
      as (more & used & left & a & E & R & _).
    exists more, used, left, a. split; [exact E|]. split; [|exact I].
    intros rest. rewrite sample_pool by assumption. apply R.
  - intros g. destruct (sample_set_continues (List.length opts) opts k [] Hk g)
      as (more & used & left & a & E & R & _).
    exists more, used, left, a. split; [exact E|]. split; [|exact I].
    intros rest. rewrite sample_by_set by assumption. apply R.
Qed.

(** [random_multiple] on a non-empty list never raises, and what it
    returns are the entries found at pairwise distinct positions, between
    1 and [max(1, n // 2)] of them. *)
Lemma random_multiple_outcome (opts : list string) (g : Rng) :
  opts <> [] ->
  comes_to (fun sel _ =>
              exists idxs,
                (1 <= List.length sel <= Nat.max 1 (List.length opts / 2))%nat
                /\ NoDup idxs /\
                Forall (fun i => (i < List.length opts)%nat) idxs /\
                sel = map (fun i => nth i opts "") idxs)
           (random_multiple opts g).
Proof.
  intros Hne. pose proof (nonempty_length opts Hne) as Hlen.
  pose proof (half_cap_le _ Hlen) as Hcap.
  rewrite random_multiple_unfold by exact Hne.
  destruct (randbelow_run (Nat.max 1 (List.length opts / 2)) g)
    as (c & g1 & -> & Hc); [lia|].
  eapply comes_to_weaken; [apply sample_comes_to; lia|].
  intros sel g' (idxs & Hk & Hnd & Hlt & ->).
  exists idxs. rewrite length_map, Hk. repeat split; try assumption; lia.
Qed.

(** Over at most 21 options [random_multiple] always returns. *)
Lemma random_multiple_pool (opts : list string) (g : Rng) :
  (List.length opts <= 21)%nat ->
  exists sel g', random_multiple opts g = Ok (sel, g').
Proof.
  intros Hsmall. destruct opts as [|o opts]; [now exists [], g|].
  assert (Hne : o :: opts <> []) by discriminate.
  pose proof (half_cap_le _ (nonempty_length _ Hne)) as Hcap.
  rewrite random_multiple_unfold by exact Hne.
  destruct (randbelow_run (Nat.max 1 (List.length (o :: opts) / 2)) g)
    as (c & g1 & -> & Hc); [lia|].
  rewrite sample_small by lia.
  destruct (sample_loop_answers (o :: opts) (S c) g1) as (sel & g' & _ & -> & _);
    [lia|].
  now exists sel, g'.
Qed.

Lemma random_multiple_continues (opts : list string) :
  continues (fun _ => True) (random_multiple opts).
Proof.
  destruct opts as [|o opts]; [now apply continues_ret|].
  assert (Hne : o :: opts <> []) by discriminate.
  pose proof (half_cap_le _ (nonempty_length _ Hne)) as Hcap.
  set (options := o :: opts) in *.
  assert (Hcap' : (Z.max 1 (Z.of_nat (List.length options) / 2)
                   = Z.of_nat (Nat.max 1 (List.length options / 2)))%Z).
  { replace (Z.of_nat (List.length options) / 2)%Z
      with (Z.of_nat (List.length options / 2))
      by (rewrite Nat2Z.inj_div; reflexivity).
    lia. }
  change (random_multiple options)
    with (bind (randint 1 (Z.max 1 (Z.of_nat (List.length options) / 2)))
               (fun k => sample options k)).
  apply (continues_bind
           (fun k => (1 <= k <= Z.max 1 (Z.of_nat (List.length options) / 2))%Z));
    [apply continues_randint; lia|].
  intros k Hk. rewrite <- (Z2Nat.id k) by lia.
  apply sample_continues. lia.
Qed.

Lemma NoDup_map_nth (l : list string) (idxs : list nat) :
  NoDup l -> NoDup idxs ->
  Forall (fun i => (i < List.length l)%nat) idxs ->
  NoDup (map (fun i => nth i l "") idxs).
Proof.
  intros Hl Hidxs Hlt.
  induction idxs as [|i idxs IH]; simpl; [constructor|].
  inversion Hidxs as [|? ? Hi Hrest]; subst.
  inversion Hlt as [|? ? Hilt Hrestlt]; subst.
  constructor; [|now apply IH].
  intros Hin. apply in_map_iff in Hin. destruct Hin as (i' & Heq & Hi').
  rewrite Forall_forall in Hrestlt.
  apply (NoDup_nth l "") in Heq; [|exact Hl|now apply Hrestlt|exact Hilt].
  subst i'. contradiction.
Qed.

Lemma sample_loop_length {A} (d : A) (k : nat) (pool r : list A) (g g' : Rng) :
  (k <= List.length pool)%nat ->
  sample_loop d k pool g = Ok (r, g') -> List.length r = k.
Proof.
  intros Hk Hrun.
  destruct (sample_loop_run d k pool g Hk) as (r0 & g0 & rest & E & Hlen & _).
  rewrite E in Hrun. now injection Hrun as <- _.
Qed.

(** The positions at which a list of options is found. *)
Lemma positions_of (opts sel : list string) :
  incl sel opts ->
  exists idxs,
    Forall (fun i => (i < List.length opts)%nat) idxs /\
    sel = map (fun i => nth i opts "") idxs.
Proof.
  induction sel as [|x sel IH]; intros Hincl; [now exists []|].
  destruct (In_nth opts x "" (Hincl x (or_introl eq_refl))) as (i & Hi & Hx).
  destruct IH as (idxs & Hlt & ->); [intros y Hy; apply Hincl; now right|].
  exists (i :: idxs). split; [now constructor | simpl; now rewrite Hx].
Qed.

Lemma map_nth_inj (opts : list string) :
  NoDup opts ->
  forall l1 l2 : list nat,
    Forall (fun i => (i < List.length opts)%nat) l1 ->
    Forall (fun i => (i < List.length opts)%nat) l2 ->
    map (fun i => nth i opts "") l1 = map (fun i => nth i opts "") l2 ->
    l1 = l2.
Proof.
  intros Hopts. induction l1 as [|i l1 IH]; intros [|j l2] H1 H2 E;
    try discriminate; [reflexivity|].
  inversion H1; inversion H2; subst. injection E as Ehd Etl.
  f_equal; [apply (NoDup_nth opts ""); assumption | now apply IH].
Qed.

Lemma nodupb_NoDup (l : list nat) : nodupb l = true <-> NoDup l.
Proof.
  induction l as [|x l IH]; simpl; [split; [constructor | reflexivity]|].
  rewrite andb_true_iff, negb_true_iff, not_mem_In, IH, NoDup_cons_iff.
  reflexivity.
Qed.

Lemma forallb_below (n : nat) (l : list nat) :
  forallb (fun j => (j <? n)%nat) l = true <-> Forall (fun j => (j < n)%nat) l.
Proof.
  rewrite forallb_forall, Forall_forall.
  split; intros H x Hx; apply Nat.ltb_lt; now apply H.
Qed.

(** Over duplicate-free options, every duplicate-free arrangement of an
    admissible number of options is the answer to some draws on which
    nothing is reduced or drawn again. *)
Lemma random_multiple_reaches (opts sel : list string) :
  NoDup opts -> NoDup sel -> incl sel opts ->
  (1 <= List.length sel <= Nat.max 1 (List.length opts / 2))%nat ->
  exists tape,
    multiple_draws (List.length opts) tape = true /\
    forall rest, random_multiple opts (tape ++ rest) = Ok (sel, rest).
Proof.
  intros Hopts Hsel Hincl Hlen.
  assert (Hne : opts <> []).
  { intros ->. destruct sel as [|x sel]; [simpl in Hlen; lia|].
    exact (Hincl x (or_introl eq_refl)). }
  pose proof (half_cap_le _ (nonempty_length opts Hne)) as Hcap.
  assert (Hk : S (List.length sel - 1) = List.length sel) by lia.
  destruct (Z.of_nat (List.length opts)
            <=? setsize (Z.of_nat (List.length sel)))%Z eqn:T.
  - destruct (sample_loop_reaches "" (List.length sel) opts sel Hopts Hsel Hincl
                eq_refl) as (js & Hjs & Hrange & Hrun).
    exists ((List.length sel - 1)%nat :: js). split.
    + unfold multiple_draws. rewrite Hjs, Hk, T, Hrange.
      rewrite Nat.eqb_refl, !andb_true_r. apply Nat.ltb_lt. lia.
    + intros rest. rewrite random_multiple_unfold by exact Hne.
      rewrite <- app_comm_cons, randbelow_small by lia.
      rewrite Hk, sample_pool by (assumption || lia).
      apply Hrun.
  - destruct (positions_of opts sel Hincl) as (idxs & Hlt & Hmap).
    assert (Hnd : NoDup idxs)
      by (apply (NoDup_map_inv (fun i => nth i opts "")); now rewrite <- Hmap).
    assert (Hlen' : List.length idxs = List.length sel)
      by (rewrite Hmap; now rewrite length_map).
    exists ((List.length sel - 1)%nat :: idxs). split.
    + unfold multiple_draws. rewrite Hlen', Hk, T.
      rewrite Nat.eqb_refl, (proj2 (forallb_below _ _) Hlt),
        (proj2 (nodupb_NoDup _) Hnd).
      rewrite !andb_true_r. apply Nat.ltb_lt. lia.
    + intros rest. rewrite random_multiple_unfold by exact Hne.
      rewrite <- app_comm_cons, randbelow_small by lia.
      rewrite Hk, sample_by_set by (assumption || lia).
      rewrite <- Hlen', Hmap.
      apply sample_set_returns_on; [assumption | assumption | intros i _ []].
Qed.

(** Over duplicate-free options, such draws that lead to the same answer
    are the same draws. *)
Lemma random_multiple_draws_unique (opts sel : list string)
  (tape1 tape2 rest1 rest2 : list nat) (g1 g2 : Rng) :
  NoDup opts -> opts <> [] ->
  multiple_draws (List.length opts) tape1 = true ->
  multiple_draws (List.length opts) tape2 = true ->
  random_multiple opts (tape1 ++ rest1) = Ok (sel, g1) ->
  random_multiple opts (tape2 ++ rest2) = Ok (sel, g2) ->
  tape1 = tape2.
Proof.
  intros Hopts Hne D1 D2 R1 R2.
  pose proof (half_cap_le _ (nonempty_length opts Hne)) as Hcap.
  destruct tape1 as [|c1 js1]; [discriminate|].
  destruct tape2 as [|c2 js2]; [discriminate|].
  unfold multiple_draws in D1, D2.
  apply andb_prop in D1. destruct D1 as [D1 I1].
  apply andb_prop in D1. destruct D1 as [C1 L1].
  apply andb_prop in D2. destruct D2 as [D2 I2].
  apply andb_prop in D2. destruct D2 as [C2 L2].
  apply Nat.ltb_lt in C1, C2. apply Nat.eqb_eq in L1, L2.
  rewrite random_multiple_unfold in R1, R2 by exact Hne.
  rewrite <- app_comm_cons, randbelow_small in R1 by exact C1.
  rewrite <- app_comm_cons, randbelow_small in R2 by exact C2.
  assert (K : forall c js rest g,
             (S c <= List.length opts)%nat ->
             sample opts (Z.of_nat (S c)) (js ++ rest) = Ok (sel, g) ->
             List.length sel = S c).
  { intros c js rest g Hc Hrun.
    destruct (sample_comes_to opts (S c) (js ++ rest) Hc)
      as [Hhang | (sel' & g' & Hrun' & idxs & Hlen & _ & _ & ->)];
      [rewrite Hhang in Hrun; discriminate|].
    rewrite Hrun in Hrun'. injection Hrun' as -> _.
    now rewrite length_map. }
  assert (K1 : List.length sel = S c1) by (apply (K c1 js1 rest1 g1); [lia | exact R1]).
  assert (K2 : List.length sel = S c2) by (apply (K c2 js2 rest2 g2); [lia | exact R2]).
  assert (c2 = c1) as -> by lia.
  f_equal.
  destruct (Z.of_nat (List.length opts) <=? setsize (Z.of_nat (S c1)))%Z eqn:T.
  - rewrite sample_pool in R1, R2 by (assumption || lia).
    exact (sample_loop_draws_unique "" (S c1) opts sel js1 js2 rest1 rest2 g1 g2
             Hopts L1 L2 I1 I2 R1 R2).
  - rewrite sample_by_set in R1, R2 by (assumption || lia).
    apply andb_prop in I1. destruct I1 as [B1 N1].
    apply andb_prop in I2. destruct I2 as [B2 N2].
    apply forallb_below in B1, B2. apply nodupb_NoDup in N1, N2.
    rewrite <- L1 in R1. rewrite <- L2 in R2.
    rewrite (sample_set_returns_on (List.length opts) opts js1 [] N1 B1
               ltac:(intros i _ []) rest1) in R1.
    rewrite (sample_set_returns_on (List.length opts) opts js2 [] N2 B2
               ltac:(intros i _ []) rest2) in R2.
    injection R1 as R1 _. injection R2 as R2 _.
    apply (map_nth_inj opts Hopts); [assumption | assumption | congruence].
Qed.

(* ------------------------------------------------------------------ *)
(** * The payload builder *)
(* ------------------------------------------------------------------ *)

Lemma comes_to_returned {A} (P : A -> Rng -> Prop) (r : run (A * Rng))
  (a : A) (g' : Rng) :
  comes_to P r -> r = Ok (a, g') -> P a g'.
Proof.
  intros [H|(a' & g'' & H & HP)] E; rewrite E in H; [discriminate|].
  injection H as <- <-. exact HP.
Qed.

Lemma comes_to_any {A} (P : A -> Rng -> Prop) (r : run (A * Rng)) :
  comes_to P r -> comes_to (fun _ _ => True) r.
Proof. intros H. apply (comes_to_weaken P); [exact H | trivial]. Qed.

Lemma continues_any {A} (P : A -> Prop) (m : M A) :
  continues P m -> continues (fun _ => True) m.
Proof. intros H. apply (continues_weaken P); [exact H | trivial]. Qed.

Lemma continues_eventually {A} (P : A -> Prop) (m : M A) :
  continues P m -> returns_eventually m.
Proof.
  intros H g. destruct (continues_run P m H g) as (more & a & g' & E & _).
  now exists more, a, g'.
Qed.

(** [random_text] never raises, and what it returns are the words found at
    two to five pairwise distinct positions of the vocabulary, joined by
    spaces. *)
Lemma random_text_outcome (g : Rng) :
  comes_to (fun s _ =>
              exists idxs,
                (2 <= List.length idxs <= 5)%nat /\ NoDup idxs /\
                Forall (fun i => (i < List.length words)%nat) idxs /\
                s = join " " (map (fun i => nth i words "") idxs))
           (random_text g).
Proof.
  unfold random_text.
  apply (comes_to_bind (fun k _ => (2 <= k <= 5)%Z)).
  - apply comes_to_total.
    destruct (randint_run 2 5 g) as (k & g1 & E & Hk); [lia|].
    now exists k, g1.
  - intros k g1 Hk.
    apply (comes_to_bind
             (fun sel _ =>
                exists idxs,
                  List.length idxs = Z.to_nat k /\ NoDup idxs /\
                  Forall (fun i => (i < List.length words)%nat) idxs /\
                  sel = map (fun i => nth i words "") idxs)).
    + replace (sample words k g1)
        with (sample words (Z.of_nat (Z.to_nat k)) g1)
        by (now rewrite Z2Nat.id by lia).
      apply sample_comes_to. simpl. lia.
    + intros sel g2 (idxs & Hlen & Hnd & Hlt & ->).
      apply comes_to_total. eexists _, _. split; [reflexivity|].
      exists idxs. repeat split; try assumption; lia.
Qed.

Lemma random_text_continues : continues (fun _ => True) random_text.
Proof.
  unfold random_text.
  apply (continues_bind (fun k => (2 <= k <= 5)%Z));
    [apply continues_randint; lia|].
  intros k Hk. apply (continues_bind (fun _ => True)).
  - rewrite <- (Z2Nat.id k) by lia. apply sample_continues. simpl. lia.
  - intros ws _. now apply continues_ret.
Qed.

Lemma random_paragraph_outcome (g : Rng) :
  comes_to (fun _ _ => True) (random_paragraph g).
Proof.
  unfold random_paragraph.
  apply (comes_to_bind (fun _ _ => True));
    [exact (comes_to_any _ _ (random_text_outcome g))|].
  intros a g1 _.
  apply (comes_to_bind (fun _ _ => True));
    [exact (comes_to_any _ _ (random_text_outcome g1))|].
  intros b g2 _. apply comes_to_total. eexists _, _. now split.
Qed.

Lemma random_paragraph_continues : continues (fun _ => True) random_paragraph.
Proof.
  unfold random_paragraph.
  apply (continues_bind (fun _ => True)); [exact random_text_continues|].
  intros a _.
  apply (continues_bind (fun _ => True)); [exact random_text_continues|].
  intros b _. now apply continues_ret.
Qed.

Lemma random_date_answers (g : Rng) :
  exists s g', random_date g = Ok (s, g').
Proof.
  unfold random_date, bind.
  destruct (randint_run 2000 2030 g) as (y & g1 & -> & _); [lia|].
  destruct (randint_run 1 12 g1) as (m & g2 & -> & _); [lia|].
  destruct (randint_run 1 28 g2) as (d & g3 & -> & _); [lia|].
  eexists _, _. reflexivity.
Qed.

Lemma random_time_answers (g : Rng) :
  exists s g', random_time g = Ok (s, g').
Proof.
  unfold random_time, bind.
  destruct (randint_run 0 23 g) as (h & g1 & -> & _); [lia|].
  destruct (randint_run 0 59 g1) as (m & g2 & -> & _); [lia|].
  eexists _, _. reflexivity.
Qed.

(** One more [randint] of a generator that goes on drawing. *)
Ltac next_randint :=
  apply (continues_bind (fun _ => True));
  [eapply continues_any; apply continues_randint; lia | intros ? _].

Lemma random_date_continues : continues (fun _ => True) random_date.
Proof.
  unfold random_date. do 3 next_randint. now apply continues_ret.
Qed.

Lemma random_time_continues : continues (fun _ => True) random_time.
Proof.
  unfold random_time. do 2 next_randint. now apply continues_ret.
Qed.

Lemma random_choice_continues (opts : list string) :
  continues (fun _ => True) (random_choice opts).
Proof.
  destruct opts as [|o opts]; [now apply continues_ret|].
  unfold random_choice, choice.
  apply (continues_bind (fun _ => True)).
  - eapply continues_any. apply continues_randbelow. simpl. lia.
  - intros j _. now apply continues_ret.
Qed.

Lemma fold_left_pairs (entry : string) (selected : list string) (data : payload) :
  fold_left (fun acc val => acc ++ [(entry, Some val)]) selected data
  = data ++ map (fun val => (entry, Some val)) selected.
Proof.
  revert data. induction selected as [|v selected IH]; intros data; simpl.
  - now rewrite app_nil_r.
  - rewrite IH, <- app_assoc. reflexivity.
Qed.

(** Case analysis along the [if]/[elif] chain of the loop body. *)
Ltac by_type q :=
  unfold answer_question;
  destruct (type q =? "radio") eqn:?; cbn [orb];
  [| destruct (type q =? "dropdown") eqn:?; cbn [orb];
     [| destruct (type q =? "checkbox") eqn:?;
        [| destruct (type q =? "text") eqn:?;
           [| destruct (type q =? "paragraph") eqn:?;
              [| destruct (type q =? "date") eqn:?;
                 [| destruct (type q =? "time") eqn:?;
                    [| destruct (type q =? "scale") eqn:? ]]]]]]].

(** A round of the loop only appends to [data]: it adds what it would
    have put in an empty list. *)
Lemma answer_question_appends (q : question) (data : payload) (g : Rng) :
  answer_question q data g =
  match answer_question q [] g with
  | Done (Ok (group, g')) => Ok (data ++ group, g')
  | Done (Raise e) => Raise e
  | Hangs => Hangs
  end.
Proof.
  by_type q;
    try (destruct (options q) as [|o opts];
         [cbn; now rewrite app_nil_r
         | unfold bind; destruct (random_choice (o :: opts) g) as [[[v g']|e]|];
           reflexivity]);
    try (unfold bind;
         match goal with
         | |- context [match ?gen g with _ => _ end] =>
             destruct (gen g) as [[[v g']|e]|]
         end;
         cbn; rewrite ?fold_left_pairs; reflexivity).
  cbn. now rewrite app_nil_r.
Qed.

(** A round of the loop never raises, and every pair it adds is keyed by
    the entry id of its question. *)
Lemma answer_question_outcome (q : question) (g : Rng) :
  comes_to (fun group _ => Forall (fun kv => fst kv = entry_id q) group)
           (answer_question q [] g).
Proof.
  assert (Hone : forall v : string,
             Forall (fun kv : string * option string => fst kv = entry_id q)
                    ([] ++ [(entry_id q, Some v)]))
    by (intros v; repeat constructor).
  assert (Hchoice :
            comes_to (fun group _ => Forall (fun kv => fst kv = entry_id q) group)
              (match options q with
               | [] => ret []
               | _ :: _ =>
                   v <- random_choice (options q) ;;
                   ret ([] ++ [(entry_id q, Some v)])
               end g)).
  { apply comes_to_total. destruct (options q) as [|o opts] eqn:Eo.
    - exists [], g. split; [reflexivity | constructor].
    - unfold bind.
      destruct (random_choice_answers (o :: opts) g) as (v & g' & -> & _);
        [discriminate|].
      eexists _, _. split; [reflexivity | apply Hone]. }
  by_type q; try exact Hchoice.
  - apply (comes_to_bind (fun _ _ => True)).
    + destruct (options q) as [|o opts] eqn:Eo.
      * apply comes_to_total. exists [], g. now split.
      * apply (comes_to_any _ _ (random_multiple_outcome (o :: opts) g
                                   ltac:(discriminate))).
    + intros sel g' _. apply comes_to_total.
      eexists _, _. split; [reflexivity|].
      rewrite fold_left_pairs. simpl.
      apply Forall_forall. intros kv Hin. apply in_map_iff in Hin.
      destruct Hin as (v & <- & _). reflexivity.
  - apply (comes_to_bind (fun _ _ => True));
      [exact (comes_to_any _ _ (random_text_outcome g))|].
    intros v g' _. apply comes_to_total.
    eexists _, _. split; [reflexivity | apply Hone].
  - apply (comes_to_bind (fun _ _ => True));
      [exact (random_paragraph_outcome g)|].
    intros v g' _. apply comes_to_total.
    eexists _, _. split; [reflexivity | apply Hone].
  - apply comes_to_total. unfold bind.
    destruct (random_date_answers g) as (v & g' & ->).
    eexists _, _. split; [reflexivity | apply Hone].
  - apply comes_to_total. unfold bind.
    destruct (random_time_answers g) as (v & g' & ->).
    eexists _, _. split; [reflexivity | apply Hone].
  - apply comes_to_total. exists [], g. split; [reflexivity | constructor].
Qed.

(** Whatever was drawn before, a round of the loop can be brought to an
    end by the draws that follow. *)
Lemma answer_question_continues (q : question) (data : payload) :
  continues (fun _ => True) (answer_question q data).
Proof.
  assert (Hlast : forall (gen : M string),
             continues (fun _ => True) gen ->
             continues (fun _ => True)
               (v <- gen ;; ret (data ++ [(entry_id q, Some v)]))).
  { intros gen Hgen. apply (continues_bind (fun _ => True)); [exact Hgen|].
    intros v _. now apply continues_ret. }
  assert (Hchoice :
            continues (fun _ => True)
              (match options q with
               | [] => ret data
               | _ :: _ =>
                   v <- random_choice (options q) ;;
                   ret (data ++ [(entry_id q, Some v)])
               end)).
  { destruct (options q) as [|o opts] eqn:Eo; [now apply continues_ret|].
    apply Hlast, random_choice_continues. }
  by_type q; try exact Hchoice.
  - apply (continues_bind (fun _ => True)); [apply random_multiple_continues|].
    intros sel _. now apply continues_ret.
  - apply Hlast, random_text_continues.
  - apply Hlast, random_paragraph_continues.
  - apply Hlast, random_date_continues.
  - apply Hlast, random_time_continues.
  - now apply continues_ret.
Qed.

(** A round of the loop for a steady question always returns. *)
Lemma answer_question_steady (q : question) (data : payload) (g : Rng) :
  steady_question q = true ->
  exists out g', answer_question q data g = Ok (out, g').
Proof.
  unfold steady_question. intros H.
  apply andb_prop in H. destruct H as [H Hbox].
  apply andb_prop in H. destruct H as [Htext Hpar].
  assert (Hlast : forall (gen : M string),
             (exists v g', gen g = Ok (v, g')) ->
             exists out g',
               (v <- gen ;; ret (data ++ [(entry_id q, Some v)])) g
               = Ok (out, g')).
  { intros gen (v & g' & E). unfold bind. rewrite E. now eexists _, _. }
  assert (Hchoice :
            exists out g',
              match options q with
              | [] => ret data
              | _ :: _ =>
                  v <- random_choice (options q) ;;
                  ret (data ++ [(entry_id q, Some v)])
              end g = Ok (out, g')).
  { destruct (options q) as [|o opts] eqn:Eo; [now exists data, g|].
    apply Hlast.
    destruct (random_choice_answers (o :: opts) g) as (v & g' & E & _);
      [discriminate|].
    now exists v, g'. }
  by_type q; try exact Hchoice.
  - cbn [negb orb] in Hbox. apply Nat.leb_le in Hbox.
    destruct (random_multiple_pool (options q) g Hbox) as (sel & g' & E).
    unfold bind. rewrite E. now eexists _, _.
  - discriminate Htext.
  - discriminate Hpar.
  - apply Hlast, random_date_answers.
  - apply Hlast, random_time_answers.
  - now exists data, g.
Qed.

(** The loop over the questions never raises: when it returns, it has
    appended to [data] the groups of the questions, in order. *)
Lemma answer_questions_groups (qs : list question) :
  forall (data : payload) (g : Rng),
    comes_to (fun out g' =>
                exists groups,
                  answers_in_order qs g groups g' /\
                  out = data ++ List.concat groups)
             (answer_questions qs data g).
Proof.
  induction qs as [|q qs IH]; intros data g.
  - apply comes_to_total. exists data, g. split; [reflexivity|].
    exists []. split; [constructor|]. simpl. now rewrite app_nil_r.
  - cbn [answer_questions]. unfold bind. rewrite answer_question_appends.
    destruct (answer_question_outcome q g) as [Hq | (group & g1 & Hq & _)];
      rewrite Hq; [now left|].
    destruct (IH (data ++ group) g1)
      as [Hrun | (out & g2 & Hrun & groups & Hord & ->)];
      [left; exact Hrun|].
    right. exists ((data ++ group) ++ List.concat groups), g2.
    split; [exact Hrun|].
    exists (group :: groups). split; [econstructor; eassumption|].
    simpl. now rewrite app_assoc.
Qed.

Lemma answer_questions_continues (qs : list question) :
  forall data : payload, continues (fun _ => True) (answer_questions qs data).
Proof.
  induction qs as [|q qs IH]; intros data; cbn [answer_questions];
    [now apply continues_ret|].
  apply (continues_bind (fun _ => True)); [apply answer_question_continues|].
  intros data' _. apply IH.
Qed.

Lemma answer_questions_steady (qs : list question) :
  forall (data : payload) (g : Rng),
    forallb steady_question qs = true ->
    exists out g', answer_questions qs data g = Ok (out, g').
Proof.
  induction qs as [|q qs IH]; intros data g Hsteady; [now exists data, g|].
  cbn [forallb] in Hsteady. apply andb_prop in Hsteady.
  destruct Hsteady as [Hq Hqs].
  cbn [answer_questions]. unfold bind.
  destruct (answer_question_steady q data g Hq) as (data' & g1 & ->).
  now apply IH.
Qed.

Lemma answers_in_order_keys (qs : list question) (g g' : Rng)
  (groups : list payload) :
  answers_in_order qs g groups g' ->
  Forall2 (fun q group => Forall (fun kv => fst kv = entry_id q) group)
          qs groups.
Proof.
  induction 1 as [g|q qs g g1 g2 group groups Hq Hqs IH]; constructor.
  - exact (comes_to_returned _ _ _ _ (answer_question_outcome q g) Hq).
  - exact IH.
Qed.

Lemma build_post_data_tokens (fs : form_struct) (g : Rng) :
  build_post_data fs g = answer_questions (questions fs) (token_pairs fs) g.
Proof.
  unfold build_post_data, token_pairs, truthy.
  destruct (page_history fs) as [ph|]; [|reflexivity].
  destruct (ph =? ""); reflexivity.
Qed.

(** The builder never raises: when it returns, the payload is the token
    pairs followed by the groups of the questions, in order. *)
Lemma build_post_data_outcome (fs : form_struct) (g : Rng) :
  comes_to (fun data g' =>
              exists groups,
                answers_in_order (questions fs) g groups g' /\
                data = token_pairs fs ++ List.concat groups)
           (build_post_data fs g).
Proof. rewrite build_post_data_tokens. apply answer_questions_groups. Qed.

(** No run of draws forces the builder to hang. *)
Lemma build_post_data_eventually (fs : form_struct) :
  returns_eventually (build_post_data fs).
Proof.
  intros g.
  destruct (continues_eventually _ _
              (answer_questions_continues (questions fs) (token_pairs fs)) g)
    as (more & data & g' & E).
  exists more, data, g'. now rewrite build_post_data_tokens.
Qed.

(** Over steady questions the builder always returns. *)
Lemma build_post_data_steady (fs : form_struct) (g : Rng) :
  forallb steady_question (questions fs) = true ->
  exists data g', build_post_data fs g = Ok (data, g').
Proof.
  intros Hsteady.
  destruct (answer_questions_steady (questions fs) (token_pairs fs) g Hsteady)
    as (data & g' & E).
  exists data, g'. now rewrite build_post_data_tokens.
Qed.

(** C2 (amended). For every form structure and generator state the
    builder never raises, and the payload it returns is the anti-spam pair,
    then the page-sequence pair when that token is present and not the empty
    string, then one group of pairs per question, in the order of the
    questions, each group keyed by the entry id of its question.  It returns
    unless a redraw loop of [random.sample] finds the draws exhausted: always
    over steady questions, and on some continuation of any draws. *)
Theorem build_post_data_order (fs : form_struct) (g : Rng) :
  comes_to (fun data g' =>
              exists groups,
                answers_in_order (questions fs) g groups g' /\
                Forall2 (fun q group =>
                           Forall (fun kv => fst kv = entry_id q) group)
                        (questions fs) groups /\
                data =
                [("fbzx", fbzx fs)]
                  ++ match page_history fs with
                     | Some ph =>
                         if ph =? "" then [] else [("pageHistory", Some ph)]
                     | None => []
                     end
                  ++ List.concat groups)
           (build_post_data fs g)
  /\ (forallb steady_question (questions fs) = true ->
      exists data g', build_post_data fs g = Ok (data, g'))
  /\ returns_eventually (build_post_data fs).
Proof.
  split; [|split].
  - apply (comes_to_weaken _ _ _ (build_post_data_outcome fs g)).
    intros data g' (groups & Hord & ->).
    exists groups. split; [exact Hord|].
    split; [exact (answers_in_order_keys _ _ _ _ Hord) | reflexivity].
  - apply build_post_data_steady.
  - apply build_post_data_eventually.
Qed.

Lemma build_post_data_order_witness :
  forallb steady_question (questions form_with_choices) = true /\
  exists data g',
    build_post_data form_with_choices [1; 1; 2; 0; 7; 8] = Ok (data, g').
Proof.
  split; [reflexivity|].
  apply (proj1 (proj2 (build_post_data_order form_with_choices
                         [1; 1; 2; 0; 7; 8]))).
  reflexivity.
Defined.

(** C2 with mere presence of the token fails: a [pageHistory] input with
    an empty value gives a structure that has the token, and the payload
    has no pair for it. *)
Lemma build_post_data_order_counterexample :
  extract_form_structure page_with_empty_page_history =
    Ok form_with_empty_page_history /\
  page_history form_with_empty_page_history = Some "" /\
  build_post_data form_with_empty_page_history [3; 4] =
    Ok ([("fbzx", Some "t"); ("entry.1", Some "03:04")], []).
Proof.
  repeat split; reflexivity.
Qed.

Lemma answer_questions_app (qs1 qs2 : list question) :
  forall (data : payload) (g : Rng),
    answer_questions (qs1 ++ qs2) data g =
    match answer_questions qs1 data g with
    | Done (Ok (data', g')) => answer_questions qs2 data' g'
    | Done (Raise e) => Raise e
    | Hangs => Hangs
    end.
Proof.
  induction qs1 as [|q qs1 IH]; intros data g; [reflexivity|].
  cbn [app answer_questions]. unfold bind.
  destruct (answer_question q data g) as [[[data1 g1]|e]|];
    [apply IH | reflexivity | reflexivity].
Qed.

(** A choice question without options adds nothing and draws nothing. *)
Lemma answer_question_no_options (q : question) (data : payload) (g : Rng) :
  options q = [] -> In (type q) choice_types ->
  answer_question q data g = Ok (data, g).
Proof.
  intros Hopts Htype.
  by_type q; rewrite ?Hopts; try reflexivity.
  all: exfalso; unfold choice_types in Htype; simpl in Htype.
  all: destruct Htype as [E|[E|[E|[E|[]]]]]; rewrite <- E in *; discriminate.
Qed.

(** A checkbox question adds one pair per selected option. *)
Lemma answer_question_checkbox (q : question) (data : payload) (g : Rng) :
  type q = "checkbox" ->
  answer_question q data g =
  match random_multiple (options q) g with
  | Done (Ok (selected, g')) =>
      Ok (data ++ map (fun val => (entry_id q, Some val)) selected, g')
  | Done (Raise e) => Raise e
  | Hangs => Hangs
  end.
Proof.
  intros Htype.
  by_type q; try (rewrite Htype in *; discriminate).
  unfold bind.
  destruct (random_multiple (options q) g) as [[[selected g']|e]|]; [|reflexivity|reflexivity].
  cbn. now rewrite fold_left_pairs.
Qed.

(** A radio, dropdown or scale question with options adds one pair, whose
    value is drawn by [random_choice]. *)
Lemma answer_question_single (q : question) (data : payload) (g : Rng) :
  In (type q) single_choice_types ->
  answer_question q data g =
  match options q with
  | [] => Ok (data, g)
  | _ :: _ =>
      match random_choice (options q) g with
      | Done (Ok (v, g')) => Ok (data ++ [(entry_id q, Some v)], g')
      | Done (Raise e) => Raise e
      | Hangs => Hangs
      end
  end.
Proof.
  intros Htype.
  assert (Hgoal :
            match options q with
            | [] => ret data
            | _ :: _ =>
                v <- random_choice (options q) ;;
                ret (data ++ [(entry_id q, Some v)])
            end g =
            match options q with
            | [] => Ok (data, g)
            | _ :: _ =>
                match random_choice (options q) g with
                | Done (Ok (v, g')) => Ok (data ++ [(entry_id q, Some v)], g')
                | Done (Raise e) => Raise e
                | Hangs => Hangs
                end
            end).
  { destruct (options q) as [|o opts]; [reflexivity|].
    unfold bind. destruct (random_choice (o :: opts) g) as [[[v g']|e]|];
      reflexivity. }
  by_type q; try exact Hgoal.
  all: exfalso; unfold single_choice_types in Htype; simpl in Htype.
  all: destruct Htype as [E|[E|[E|[]]]]; rewrite <- E in *; discriminate.
Qed.

(** Renaming the positions renames the first distinct draws. *)
Lemma first_distinct_map (f : nat -> nat) :
  (forall x y, f x = f y -> x = y) ->
  forall (tape : list nat) (k : nat) (seen : list nat),
    first_distinct k (map f seen) (map f tape)
    = map f (first_distinct k seen tape).
Proof.
  intros Hinj. induction tape as [|x tape IH]; intros k seen; [reflexivity|].
  destruct k as [|k]; [reflexivity|]. cbn [first_distinct map].
  assert (E : existsb (Nat.eqb (f x)) (map f seen) = existsb (Nat.eqb x) seen).
  { induction seen as [|y seen IHs]; [reflexivity|].
    cbn [map existsb]. rewrite IHs. f_equal.
    destruct (Nat.eqb_spec x y) as [->|N]; [apply Nat.eqb_refl|].
    apply Nat.eqb_neq. intros C. apply N. now apply Hinj. }
  rewrite E. destruct (existsb (Nat.eqb x) seen).
  - apply (IH (S k) seen).
  - cbn [map]. f_equal. apply (IH k (x :: seen)).
Qed.

(** In the set branch, on in-range draws that hold enough different
    values, [random_multiple] selects the positions drawn first, each once. *)
Lemma random_multiple_set_draws (opts : list string) (c : nat)
  (tape : list nat) :
  opts <> [] ->
  (c < Nat.max 1 (List.length opts / 2))%nat ->
  (setsize (Z.of_nat (S c)) < Z.of_nat (List.length opts))%Z ->
  Forall (fun x => (x < List.length opts)%nat) tape ->
  List.length (first_distinct (S c) [] tape) = S c ->
  exists left,
    random_multiple opts (c :: tape)
    = Ok (map (fun i => nth i opts "") (first_distinct (S c) [] tape), left).
Proof.
  intros Hne Hc Hset Hlt Hlen.
  pose proof (half_cap_le _ (nonempty_length opts Hne)) as Hcap.
  rewrite random_multiple_unfold by exact Hne.
  rewrite randbelow_small by exact Hc.
  rewrite sample_by_set by (lia || (apply Z.leb_gt; exact Hset)).
  now apply sample_set_first_distinct.
Qed.

(** C1 (amended). For non-empty options, [random_choice] (single-choice,
    dropdown, linear scale) returns an element of the options.
    [random_multiple] (multi-choice) never raises and returns the options
    found at k pairwise distinct positions, 1 <= k <= max(1, len // 2), so k
    pairwise distinct values when the options hold no repeated value; it
    returns unless a redraw loop of [random.sample] finds the draws
    exhausted: always over at most 21 options, and on some continuation of
    any draws.  Over options without repeated value every duplicate-free
    arrangement of an admissible number of options is the answer to exactly
    one sequence of draws on which nothing is reduced or drawn again, and in
    the set branch the selection is the first k different draws, so that
    renaming the positions renames the selection: equally likely draws make
    the subsets of one size equally likely.  On empty options
    [random_multiple] returns the empty list.  The loop body of the builder
    answers radio, dropdown and scale questions with [random_choice] and
    checkbox questions with [random_multiple]. *)
Theorem closed_domain_synthesis (opts : list string) :
  opts <> [] ->
  (forall g, exists v g', random_choice opts g = Ok (v, g') /\ In v opts)
  /\ (forall g,
        comes_to (fun sel _ =>
                    exists idxs,
                      (1 <= List.length sel
                       <= Nat.max 1 (List.length opts / 2))%nat /\
                      NoDup idxs /\
                      Forall (fun i => (i < List.length opts)%nat) idxs /\
                      sel = map (fun i => nth i opts "") idxs /\
                      (NoDup opts -> NoDup sel))
                 (random_multiple opts g))
  /\ ((List.length opts <= 21)%nat ->
      forall g, exists sel g', random_multiple opts g = Ok (sel, g'))
  /\ returns_eventually (random_multiple opts)
  /\ (NoDup opts ->
      forall sel, NoDup sel -> incl sel opts ->
        (1 <= List.length sel <= Nat.max 1 (List.length opts / 2))%nat ->
        exists tape,
          multiple_draws (List.length opts) tape = true /\
          (forall rest, random_multiple opts (tape ++ rest) = Ok (sel, rest)) /\
          (forall tape' rest g',
              multiple_draws (List.length opts) tape' = true ->
              random_multiple opts (tape' ++ rest) = Ok (sel, g') ->
              tape' = tape))
  /\ (forall (f : nat -> nat) (c : nat) (tape : list nat),
        (forall x y, f x = f y -> x = y) ->
        (forall x, (x < List.length opts)%nat -> (f x < List.length opts)%nat) ->
        (c < Nat.max 1 (List.length opts / 2))%nat ->
        (setsize (Z.of_nat (S c)) < Z.of_nat (List.length opts))%Z ->
        Forall (fun x => (x < List.length opts)%nat) tape ->
        List.length (first_distinct (S c) [] tape) = S c ->
        exists left left',
          random_multiple opts (c :: tape)
          = Ok (map (fun i => nth i opts "") (first_distinct (S c) [] tape),
                left) /\
          random_multiple opts (c :: map f tape)
          = Ok (map (fun i => nth (f i) opts "")
                    (first_distinct (S c) [] tape), left'))
  /\ (forall g, random_multiple [] g = Ok ([], g))
  /\ (forall q g, options q = opts ->
        (In (type q) single_choice_types ->
         exists v g',
           random_choice opts g = Ok (v, g') /\
           answer_question q [] g = Ok ([(entry_id q, Some v)], g')) /\
        (type q = "checkbox" ->
         (forall sel g',
             random_multiple opts g = Ok (sel, g') ->
             answer_question q [] g =
               Ok (map (fun val => (entry_id q, Some val)) sel, g')) /\
         (random_multiple opts g = Hangs -> answer_question q [] g = Hangs))).
Proof.
  intros Hne. split; [|split; [|split; [|split; [|split; [|split; [|split]]]]]].
  - intros g. now apply random_choice_answers.
  - intros g.
    apply (comes_to_weaken _ _ _ (random_multiple_outcome opts g Hne)).
    intros sel g' (idxs & Hlen & Hnd & Hlt & Hsel).
    exists idxs. repeat split; try assumption; try lia.
    intros Hopts. subst sel. now apply NoDup_map_nth.
  - intros Hsmall g. now apply random_multiple_pool.
  - exact (continues_eventually _ _ (random_multiple_continues opts)).
  - intros Hopts sel Hsel Hincl Hlen.
    destruct (random_multiple_reaches opts sel Hopts Hsel Hincl Hlen)
      as (tape & Hdraws & Hrun).
    exists tape. split; [exact Hdraws|]. split; [exact Hrun|].
    intros tape' rest g' Hdraws' Hrun'.
    exact (random_multiple_draws_unique opts sel tape' tape rest [] g' []
             Hopts Hne Hdraws' Hdraws Hrun' (Hrun [])).
  - intros f c tape Hinj Hrange Hc Hset Hlt Hlen.
    destruct (random_multiple_set_draws opts c tape Hne Hc Hset Hlt Hlen)
      as (left & Hrun).
    pose proof (first_distinct_map f Hinj tape (S c) []) as Hmap.
    cbn [map] in Hmap.
    destruct (random_multiple_set_draws opts c (map f tape) Hne Hc Hset)
      as (left' & Hrun').
    + apply Forall_forall. intros y Hy. apply in_map_iff in Hy.
      destruct Hy as (x & <- & Hx). rewrite Forall_forall in Hlt.
      now apply Hrange, Hlt.
    + now rewrite Hmap, length_map.
    + exists left, left'. split; [exact Hrun|].
      rewrite Hrun', Hmap, map_map. reflexivity.
  - intros g. reflexivity.
  - intros q g Hopts. split.
    + intros Htype.
      destruct (random_choice_answers opts g Hne) as (v & g' & Hrun & _).
      exists v, g'. split; [exact Hrun|].
      rewrite (answer_question_single q [] g Htype), Hopts.
      destruct opts; [contradiction|]. now rewrite Hrun.
    + intros Htype.
      rewrite (answer_question_checkbox q [] g Htype), Hopts.
      split; [intros sel g' Hrun | intros Hrun]; now rewrite Hrun.
Qed.

Lemma closed_domain_synthesis_witness :
  ["a"; "b"; "c"; "d"] <> [] /\
  random_choice ["a"; "b"; "c"; "d"] [6] = Ok ("c", []) /\
  random_multiple ["a"; "b"; "c"; "d"] [1; 0; 0] = Ok (["a"; "d"], []) /\
  exists tape,
    multiple_draws 4 tape = true /\
    random_multiple ["a"; "b"; "c"; "d"] tape = Ok (["b"; "c"], []).
Proof.
  assert (Hne : ["a"; "b"; "c"; "d"] <> []) by discriminate.
  split; [exact Hne|]. split; [reflexivity|]. split; [reflexivity|].
  destruct (closed_domain_synthesis ["a"; "b"; "c"; "d"] Hne)
    as (_ & _ & _ & _ & Huniform & _).
  destruct (Huniform ltac:(repeat constructor; simpl; intuition discriminate)
              ["b"; "c"]
              ltac:(repeat constructor; simpl; intuition discriminate)
              ltac:(intros x Hx; simpl in *; intuition)
              ltac:(simpl; lia))
    as (tape & Hdraws & Hrun & _).
  exists tape. split; [exact Hdraws|].
  rewrite <- (app_nil_r tape). apply Hrun.
Defined.

(** C1 without the proviso on repeated values fails: checkboxes that
    repeat their data values give the options A, A, B, B, and with draws
    1, 0, 1 the multi-choice answer is A, A.  Nor are the subsets of one
    size equally likely then: over the options A, A, B the three selection
    draws 0, 1, 2 answer A, A and B. *)
Lemma closed_domain_synthesis_counterexample :
  extract_container repeated_checkbox_container [] =
    Ok [{| entry_id := "entry.9"; type := "checkbox";
           options := ["A"; "A"; "B"; "B"] |}] /\
  ["A"; "A"; "B"; "B"] <> [] /\
  random_multiple ["A"; "A"; "B"; "B"] [1; 0; 1] = Ok (["A"; "A"], []) /\
  ~ NoDup ["A"; "A"] /\
  map (fun j => random_multiple ["A"; "A"; "B"] [0; j]) [0; 1; 2]%nat
  = map Done [Ok (["A"], []); Ok (["A"], []); Ok (["B"], [])].
Proof.
  split; [reflexivity|]. split; [discriminate|]. split; [reflexivity|].
  split; [|reflexivity].
  intros H. inversion H as [|? ? Hnotin _]; subst.
  apply Hnotin. now left.
Qed.

(** C3. Wherever a question stands in the form structure, the builder
    never raises, and the payload it returns is what was built before the
    question, then the pairs of the question, then the rest.  A radio,
    dropdown, scale or checkbox question with no options has no pair at all
    (and raises nothing, and draws nothing); a checkbox question has exactly
    one pair per option that [random_multiple] selected, each under the
    entry id of the question.  The builder returns unless a redraw loop of
    [random.sample] finds the draws exhausted: always over steady questions,
    and on some continuation of any draws. *)
Theorem choice_question_pairs (fs : form_struct) (g : Rng)
  (before after : list question) (q : question) :
  questions fs = before ++ q :: after ->
  comes_to (fun data g' =>
              exists pre group post h h',
                build_post_data (with_questions fs before) g = Ok (pre, h) /\
                answer_question q pre h = Ok (pre ++ group, h') /\
                data = pre ++ group ++ post /\
                (options q = [] -> In (type q) choice_types ->
                 group = [] /\ h' = h) /\
                (type q = "checkbox" ->
                 exists selected,
                   random_multiple (options q) h = Ok (selected, h') /\
                   group = map (fun val => (entry_id q, Some val)) selected /\
                   List.length group = List.length selected /\
                   Forall (fun kv => fst kv = entry_id q) group))
           (build_post_data fs g)
  /\ (options q = [] -> In (type q) choice_types ->
      forall pre h, answer_question q pre h = Ok (pre, h))
  /\ (forallb steady_question (questions fs) = true ->
      exists data g', build_post_data fs g = Ok (data, g'))
  /\ returns_eventually (build_post_data fs).
Proof.
  intros Hqs. split; [|split; [|split]].
  - rewrite (build_post_data_tokens fs g), Hqs, answer_questions_app.
    destruct (answer_questions_groups before (token_pairs fs) g)
      as [Hbefore | (pre & h & Hbefore & groups1 & _ & Hpre)];
      rewrite Hbefore; [now left|].
    cbn [answer_questions]. unfold bind. rewrite answer_question_appends.
    destruct (answer_question_outcome q h) as [Hq | (group & h' & Hq & Hkeys)];
      rewrite Hq; [now left|].
    destruct (answer_questions_groups after (pre ++ group) h')
      as [Hafter | (out & g' & Hafter & groups2 & _ & ->)];
      [left; exact Hafter|].
    right. exists ((pre ++ group) ++ List.concat groups2), g'.
    split; [exact Hafter|].
    exists pre, group, (List.concat groups2), h, h'.
    split; [rewrite build_post_data_tokens; exact Hbefore|].
    split; [rewrite answer_question_appends, Hq; reflexivity|].
    split; [now rewrite <- app_assoc|].
    split.
    + intros Hopts Htype.
      rewrite (answer_question_no_options q [] h Hopts Htype) in Hq.
      injection Hq as <- <-. split; reflexivity.
    + intros Htype. rewrite (answer_question_checkbox q [] h Htype) in Hq.
      destruct (random_multiple (options q) h) as [[[selected h1]|e]|];
        [|discriminate|discriminate].
      injection Hq as <- <-. exists selected.
      split; [reflexivity|]. split; [reflexivity|].
      split; [apply length_map|].
      apply Forall_forall. intros kv Hin. apply in_map_iff in Hin.
      destruct Hin as (v & <- & _). reflexivity.
  - intros Hopts Htype pre h. now apply answer_question_no_options.
  - apply build_post_data_steady.
  - apply build_post_data_eventually.
Qed.

Lemma choice_question_pairs_witness :
  questions form_with_choices =
    [ {| entry_id := "entry.1"; type := "radio"; options := ["a"; "b"] |} ]
    ++ {| entry_id := "entry.2"; type := "checkbox";
          options := ["p"; "q"; "r"; "s"] |}
    :: [ {| entry_id := "entry.3"; type := "dropdown"; options := [] |};
         {| entry_id := "entry.4"; type := "time"; options := [] |} ] /\
  exists pre group post g' selected,
    build_post_data form_with_choices [1; 1; 2; 0; 7; 8]
      = Ok (pre ++ group ++ post, g') /\
    group = map (fun val => ("entry.2", Some val)) selected.
Proof.
  split; [reflexivity|].
  destruct (choice_question_pairs form_with_choices [1; 1; 2; 0; 7; 8]
              [ {| entry_id := "entry.1"; type := "radio";
                   options := ["a"; "b"] |} ]
              [ {| entry_id := "entry.3"; type := "dropdown"; options := [] |};
                {| entry_id := "entry.4"; type := "time"; options := [] |} ]
              {| entry_id := "entry.2"; type := "checkbox";
                 options := ["p"; "q"; "r"; "s"] |} eq_refl)
    as ([Hhangs | (data & g' & Hrun & pre & group & post & h & h' & _ & _ &
                   Hdata & _ & Hcheckbox)] & _).
  - discriminate Hhangs.
  - destruct (Hcheckbox eq_refl) as (selected & _ & Hgroup & _).
    exists pre, group, post, g', selected.
    split; [rewrite <- Hdata; exact Hrun | exact Hgroup].
Defined.

Lemma concat_keys (qs : list question) (groups : list payload) :
  Forall2 (fun q group => Forall (fun kv => fst kv = entry_id q) group)
          qs groups ->
  forall kv, In kv (List.concat groups) ->
             exists q, In q qs /\ fst kv = entry_id q.
Proof.
  induction 1 as [|q group qs groups Hgroup _ IH]; intros kv Hin;
    [contradiction|].
  simpl in Hin. apply in_app_or in Hin. destruct Hin as [Hin|Hin].
  - exists q. split; [now left|].
    rewrite Forall_forall in Hgroup. now apply Hgroup.
  - destruct (IH kv Hin) as (q' & Hq' & Hkey).
    exists q'. split; [now right | exact Hkey].
Qed.

Lemma token_pairs_falsy (fs : form_struct) :
  page_history fs = None \/ page_history fs = Some "" ->
  token_pairs (with_page_history fs None) = token_pairs fs.
Proof. unfold token_pairs. intros [-> | ->]; reflexivity. Qed.

(** C10. The builder never raises.  When the page-sequence token is
    present and not the empty string, the second pair of the payload is
    [pageHistory] with that token; when it is absent or the empty string,
    the builder does what it does for the same structure without the token.
    So, as long as no question is itself keyed [pageHistory], the payload
    has a [pageHistory] key exactly when the token is present and
    non-empty.  The builder returns unless a redraw loop of [random.sample]
    finds the draws exhausted: always over steady questions, and on some
    continuation of any draws. *)
Theorem page_history_pair (fs : form_struct) (g : Rng) :
  comes_to (fun data g' =>
              (forall ph, page_history fs = Some ph -> ph <> "" ->
                          nth_error data 1 = Some ("pageHistory", Some ph)) /\
              (page_history fs = None \/ page_history fs = Some "" ->
               build_post_data (with_page_history fs None) g = Ok (data, g')) /\
              ((forall q, In q (questions fs) -> entry_id q <> "pageHistory") ->
               ((exists v, In ("pageHistory", v) data) <->
                (exists ph, page_history fs = Some ph /\ ph <> ""))))
           (build_post_data fs g)
  /\ (page_history fs = None \/ page_history fs = Some "" ->
      build_post_data (with_page_history fs None) g = build_post_data fs g)
  /\ (forallb steady_question (questions fs) = true ->
      exists data g', build_post_data fs g = Ok (data, g'))
  /\ returns_eventually (build_post_data fs).
Proof.
  assert (Hfalsy : page_history fs = None \/ page_history fs = Some "" ->
                   build_post_data (with_page_history fs None) g
                   = build_post_data fs g).
  { intros H. rewrite !build_post_data_tokens.
    now rewrite (token_pairs_falsy fs H). }
  split; [|split; [exact Hfalsy | split]];
    [|apply build_post_data_steady | apply build_post_data_eventually].
  destruct (build_post_data_outcome fs g)
    as [Hrun | (data & g' & Hrun & groups & Hord & ->)]; [now left|].
  right. exists (token_pairs fs ++ List.concat groups), g'.
  split; [exact Hrun|]. split; [|split].
  - intros ph Hph Hne. unfold token_pairs. rewrite Hph.
    apply String.eqb_neq in Hne. rewrite Hne. reflexivity.
  - intros H. now rewrite (Hfalsy H).
  - intros Hkeys. split.
    + intros (v & Hin). apply in_app_or in Hin. destruct Hin as [Hin|Hin].
      * unfold token_pairs in Hin. destruct Hin as [Hin|Hin]; [discriminate|].
        destruct (page_history fs) as [ph|]; [|contradiction].
        destruct (ph =? "") eqn:E; [contradiction|].
        exists ph. split; [reflexivity | now apply String.eqb_neq].
      * destruct (concat_keys _ _ (answers_in_order_keys _ _ _ _ Hord) _ Hin)
          as (q & Hq & Hkey).
        exfalso. apply (Hkeys q Hq). now rewrite <- Hkey.
    + intros (ph & Hph & Hne). exists (Some ph).
      apply in_or_app. left. unfold token_pairs. rewrite Hph.
      apply String.eqb_neq in Hne. rewrite Hne. right. now left.
Qed.

Lemma page_history_pair_witness :
  (forall q, In q (questions form_with_empty_page_history) ->
             entry_id q <> "pageHistory") /\
  exists data g',
    build_post_data form_with_empty_page_history [3; 4] = Ok (data, g') /\
    ~ exists v, In ("pageHistory", v) data.
Proof.
  assert (Hkeys : forall q, In q (questions form_with_empty_page_history) ->
                            entry_id q <> "pageHistory").
  { intros q [<-|[]]. discriminate. }
  split; [exact Hkeys|].
  destruct (page_history_pair form_with_empty_page_history [3; 4])
    as ([Hhangs | (data & g' & Hrun & _ & _ & Hiff)] & _).
  - discriminate Hhangs.
  - exists data, g'. split; [exact Hrun|].
    intros Hin. apply (Hiff Hkeys) in Hin.
    destruct Hin as (ph & Hph & Hne). injection Hph as <-. now apply Hne.
Defined.

(* ------------------------------------------------------------------ *)
(** * The structure extractor *)
(* ------------------------------------------------------------------ *)

Lemma matches_css_tag_attr (t a v : string) (e : element) :
  matches (css_tag_attr t a v) e = true <->
  tag_name e = t /\ get_attribute e a = Some v.
Proof.
  unfold matches, css_tag_attr, attr_holds. cbn [loc_tag loc_attr].
  rewrite andb_true_iff, String.eqb_eq.
  destruct (get_attribute e a) as [x|].
  - rewrite String.eqb_eq. split; intros [Ht Hv]; split; congruence.
  - split; intros [_ H]; discriminate.
Qed.

Lemma matches_css_entry (e : element) :
  matches css_entry e = true <-> is_field e.
Proof.
  unfold matches, css_entry, attr_holds, is_field. cbn [loc_tag loc_attr andb].
  destruct (get_attribute e "name") as [x|].
  - split; [intros H; now exists x | intros (n & [= ->] & H); exact H].
  - split; [discriminate | intros (n & [=] & _)].
Qed.

Lemma matches_css_select_entry (e : element) :
  matches css_select_entry e = true -> is_field e.
Proof.
  intros H. apply matches_css_entry.
  unfold matches in *. cbn [loc_tag loc_attr css_select_entry css_entry andb] in *.
  apply andb_prop in H. exact (proj2 H).
Qed.

Lemma find_elements_found (scope : element) (l : locator) (e : element) :
  In e (descendants scope) -> matches l e = true -> find_elements scope l <> [].
Proof.
  intros Hin Hm Hnil.
  assert (H : In e (find_elements scope l)) by (apply filter_In; now split).
  rewrite Hnil in H. exact H.
Qed.

Lemma find_elements_none (scope : element) (l : locator) :
  (forall e, In e (descendants scope) -> matches l e = false) ->
  find_elements scope l = [].
Proof.
  intros Hnone. unfold find_elements.
  induction (descendants scope) as [|e es IH]; [reflexivity|].
  simpl. rewrite (Hnone e) by now left.
  apply IH. intros e' He'. apply Hnone. now right.
Qed.

Lemma find_elements_role_none (qc : element) (role : string) :
  no_descendant (is_role role) qc ->
  find_elements qc (css_tag_attr "div" "role" role) = [].
Proof.
  intros Hnone. apply find_elements_none. intros e He.
  destruct (matches _ e) eqn:E; [|reflexivity].
  apply matches_css_tag_attr in E. now destruct (Hnone e He).
Qed.

Lemma find_elements_role_some (qc : element) (role : string) :
  has_descendant (is_role role) qc ->
  find_elements qc (css_tag_attr "div" "role" role) <> [].
Proof.
  intros (e & He & Hrole).
  apply (find_elements_found qc _ e He). now apply matches_css_tag_attr.
Qed.

Lemma split_nonempty (sep : ascii) (s : string) : split sep s <> [].
Proof.
  destruct s as [|c s]; simpl; [discriminate|].
  destruct (Ascii.eqb c sep); [discriminate|].
  destruct (split sep s); discriminate.
Qed.

(** Cutting at the first separator keeps any prefix that is free of it. *)
Lemma split_keeps_prefix (sep : ascii) (p : string) :
  forall s,
    (forall c, In c (list_ascii_of_string p) -> c <> sep) ->
    String.prefix p s = true ->
    String.prefix p (hd "" (split sep s)) = true.
Proof.
  induction p as [|a p IH]; intros s Hfree Hpre; [now destruct (hd _ _)|].
  destruct s as [|b s]; [discriminate|].
  simpl in Hpre. destruct (Ascii.ascii_dec a b) as [<-|]; [|discriminate].
  simpl. assert (Ha : a <> sep) by (apply Hfree; now left).
  apply Ascii.eqb_neq in Ha. rewrite Ha.
  pose proof (split_nonempty sep s) as Hne.
  destruct (split sep s) as [|piece pieces] eqn:E; [contradiction|].
  simpl. destruct (Ascii.ascii_dec a a) as [_|Hn]; [|contradiction].
  change piece with (hd "" (piece :: pieces)). rewrite <- E.
  apply IH; [|exact Hpre].
  intros c Hc. apply Hfree. now right.
Qed.

Lemma entry_prefix_kept (full_name : string) :
  startswith full_name "entry." = true ->
  startswith (hd "" (split "_" full_name)) "entry." = true.
Proof.
  unfold startswith. apply split_keeps_prefix.
  intros c Hc. simpl in Hc.
  repeat (destruct Hc as [<-|Hc]; [discriminate|]). contradiction.
Qed.

(** With a field below it, a container has an entry id that begins with
    [entry.]. *)
Lemma find_entry_id_present (qc : element) :
  has_descendant is_field qc ->
  exists id,
    find_entry_id qc = Ok (Some id) /\ startswith id "entry." = true.
Proof.
  intros (e & He & Hfield).
  pose proof (find_elements_found qc css_entry e He
                (proj2 (matches_css_entry e) Hfield)) as Hne.
  unfold find_entry_id.
  destruct (find_elements qc css_entry) as [|e0 es] eqn:E; [contradiction|].
  assert (H0 : In e0 (find_elements qc css_entry)) by (rewrite E; now left).
  apply filter_In in H0. destruct H0 as [_ H0].
  apply matches_css_entry in H0. destruct H0 as (n & Hn & Hpre).
  cbn [app]. rewrite Hn. eexists. split; [reflexivity|].
  now apply entry_prefix_kept.
Qed.

(** Without a field below it, a container has no entry id. *)
Lemma find_entry_id_absent (qc : element) :
  no_descendant is_field qc -> find_entry_id qc = Ok None.
Proof.
  intros Hnone. unfold find_entry_id.
  rewrite (find_elements_none qc css_entry),
    (find_elements_none qc css_select_entry); [reflexivity| |].
  - intros e He. destruct (matches _ e) eqn:E; [|reflexivity].
    now destruct (Hnone e He (matches_css_select_entry e E)).
  - intros e He. destruct (matches _ e) eqn:E; [|reflexivity].
    now destruct (Hnone e He (proj1 (matches_css_entry e) E)).
Qed.

Lemma entry_id_truthy (id : string) :
  startswith id "entry." = true -> truthy (Some id) = true.
Proof.
  destruct id; [discriminate | reflexivity].
Qed.

Lemma collect_values_In (attr : string) (es : list element) (v : string) :
  In v (collect_values attr es) ->
  exists e, In e es /\ get_attribute e attr = Some v.
Proof.
  unfold collect_values. intros Hin. apply in_flat_map in Hin.
  destruct Hin as (e & He & Hv). exists e. split; [exact He|].
  destruct (get_attribute e attr) as [x|]; simpl in Hv.
  - destruct (negb (x =? "")); simpl in Hv; [|contradiction].
    destruct Hv as [->|[]]. reflexivity.
  - contradiction.
Qed.

Lemma detect_type_radio (qc : element) :
  has_descendant (is_role "radio") qc ->
  detect_type qc =
  (Some "radio", choice_options (find_elements qc (css_tag_attr "div" "role" "radio"))).
Proof.
  intros Hradio. pose proof (find_elements_role_some qc "radio" Hradio) as Hne.
  unfold detect_type.
  destruct (find_elements qc (css_tag_attr "div" "role" "radio"));
    [contradiction | reflexivity].
Qed.

Lemma extract_container_appends (qc : element) (questions : list question)
  (id t : string) (options_list : list string) :
  find_entry_id qc = Ok (Some id) -> startswith id "entry." = true ->
  detect_type qc = (Some t, options_list) -> t <> "" ->
  extract_container qc questions =
  Ok (questions ++ [{| entry_id := id; type := t; options := options_list |}]).
Proof.
  intros Hid Hpre Htype Ht. unfold extract_container.
  rewrite Hid, Htype. cbn [and_then].
  rewrite (entry_id_truthy id Hpre). cbn [truthy andb].
  apply String.eqb_neq in Ht. rewrite Ht. reflexivity.
Qed.

(** C6. A container that holds a radio [div], a checkbox [div] and a field
    named [entry.*] yields one question of type [radio]; its entry id
    begins with [entry.] and its options are read from the radio elements
    alone ([data-value], or [aria-label] when no radio has a data value). *)
Theorem radio_before_checkbox (qc : element) (questions : list question) :
  has_descendant (is_role "radio") qc ->
  has_descendant (is_role "checkbox") qc ->
  has_descendant is_field qc ->
  exists id options_list,
    startswith id "entry." = true /\
    extract_container qc questions =
      Ok (questions ++
            [{| entry_id := id; type := "radio"; options := options_list |}]) /\
    options_list =
      choice_options (find_elements qc (css_tag_attr "div" "role" "radio")) /\
    forall o, In o options_list ->
      exists r, In r (descendants qc) /\ is_role "radio" r /\
                (get_attribute r "data-value" = Some o \/
                 get_attribute r "aria-label" = Some o).
Proof.
  intros Hradio _ Hfield.
  destruct (find_entry_id_present qc Hfield) as (id & Hid & Hpre).
  exists id, (choice_options (find_elements qc (css_tag_attr "div" "role" "radio"))).
  split; [exact Hpre|]. split; [|split; [reflexivity|]].
  - apply (extract_container_appends qc questions id "radio" _ Hid Hpre
             (detect_type_radio qc Hradio)).
    discriminate.
  - intros o Ho. unfold choice_options in Ho.
    assert (Hsrc : exists r,
               In r (find_elements qc (css_tag_attr "div" "role" "radio")) /\
               (get_attribute r "data-value" = Some o \/
                get_attribute r "aria-label" = Some o)).
    { destruct (collect_values "data-value" _) as [|v vs] eqn:E.
      - destruct (collect_values_In _ _ _ Ho) as (r & Hr & Hattr).
        exists r. split; [exact Hr | now right].
      - rewrite <- E in Ho.
        destruct (collect_values_In _ _ _ Ho) as (r & Hr & Hattr).
        exists r. split; [exact Hr | now left]. }
    destruct Hsrc as (r & Hr & Hattr).
    apply filter_In in Hr. destruct Hr as [Hdesc Hm].
    exists r. split; [exact Hdesc|]. split; [|exact Hattr].
    now apply matches_css_tag_attr.
Qed.

Lemma radio_before_checkbox_witness :
  has_descendant (is_role "radio") radio_and_checkbox_container /\
  has_descendant (is_role "checkbox") radio_and_checkbox_container /\
  has_descendant is_field radio_and_checkbox_container /\
  exists id,
    extract_container radio_and_checkbox_container [] =
      Ok [{| entry_id := id; type := "radio"; options := ["yes"; "no"] |}].
Proof.
  assert (Hradio : has_descendant (is_role "radio") radio_and_checkbox_container).
  { exists (Element "div" [("role", "radio"); ("data-value", "yes")] []).
    split; [simpl; tauto | split; reflexivity]. }
  assert (Hcheckbox :
            has_descendant (is_role "checkbox") radio_and_checkbox_container).
  { exists (Element "div" [("role", "checkbox"); ("data-value", "x")] []).
    split; [simpl; tauto | split; reflexivity]. }
  assert (Hfield : has_descendant is_field radio_and_checkbox_container).
  { exists (Element "input" [("type", "hidden"); ("name", "entry.42_sentinel")] []).
    split; [simpl; tauto|]. exists "entry.42_sentinel". split; reflexivity. }
  repeat (split; [assumption|]).
  destruct (radio_before_checkbox radio_and_checkbox_container []
              Hradio Hcheckbox Hfield)
    as (id & options_list & _ & Hrun & Hopts & _).
  exists id. rewrite Hrun, Hopts. reflexivity.
Defined.

Lemma find_elements_by_tag (scope : element) (t : string) :
  find_elements scope (by_tag t)
  = filter (fun e => tag_name e =? t) (descendants scope).
Proof.
  unfold find_elements. apply filter_ext. intros e.
  unfold matches, by_tag. cbn [loc_tag loc_attr]. apply andb_true_r.
Qed.

(** The append loop keeps, in order, the attribute values that are present
    and not the empty string. *)
Lemma collect_values_filter (attr : string) (es : list element) :
  collect_values attr es
  = filter (fun v => negb (v =? ""))
      (flat_map (fun o => match get_attribute o attr with
                          | Some v => [v]
                          | None => []
                          end) es).
Proof.
  unfold collect_values.
  induction es as [|e es IH]; [reflexivity|].
  cbn [flat_map]. rewrite filter_app, <- IH. f_equal.
  destruct (get_attribute e attr) as [v|]; [|reflexivity].
  cbn [truthy filter]. destruct (negb (v =? "")); reflexivity.
Qed.

(** C7. In a container with no radio [div] and no checkbox [div] but with a
    [select], the detected type is [dropdown] and the options are the
    [value] attributes of the [option] elements of the first [select], in
    document order, without the empty ones; when the container also holds
    a field named [entry.*], exactly that question is appended. *)
Theorem select_is_dropdown (qc : element) :
  no_descendant (is_role "radio") qc ->
  no_descendant (is_role "checkbox") qc ->
  has_descendant (fun e => tag_name e = "select") qc ->
  exists select,
    hd_error (filter (fun e => tag_name e =? "select") (descendants qc))
      = Some select /\
    detect_type qc =
      (Some "dropdown",
       filter (fun v => negb (v =? "")) (option_values select)) /\
    (has_descendant is_field qc ->
     forall questions, exists id,
       startswith id "entry." = true /\
       extract_container qc questions =
         Ok (questions ++
               [{| entry_id := id; type := "dropdown";
                   options := filter (fun v => negb (v =? ""))
                                (option_values select) |}])).
Proof.
  intros Hradio Hcheckbox (s0 & Hs0 & Htag).
  assert (Hne : find_elements qc (by_tag "select") <> []).
  { apply (find_elements_found qc _ s0 Hs0).
    unfold matches, by_tag. cbn [loc_tag loc_attr].
    rewrite Htag. reflexivity. }
  destruct (find_elements qc (by_tag "select")) as [|select others] eqn:E;
    [contradiction|].
  assert (Hdetect : detect_type qc =
            (Some "dropdown",
             filter (fun v => negb (v =? "")) (option_values select))).
  { unfold detect_type.
    rewrite (find_elements_role_none qc "radio" Hradio).
    rewrite (find_elements_role_none qc "checkbox" Hcheckbox).
    rewrite E. f_equal.
    unfold select_options, option_values.
    rewrite collect_values_filter, find_elements_by_tag. reflexivity. }
  exists select. split; [|split].
  - rewrite <- find_elements_by_tag, E. reflexivity.
  - exact Hdetect.
  - intros Hfield questions.
    destruct (find_entry_id_present qc Hfield) as (id & Hid & Hpre).
    exists id. split; [exact Hpre|].
    apply (extract_container_appends qc questions id "dropdown" _ Hid Hpre
             Hdetect).
    discriminate.
Qed.

Ltac no_such_descendant :=
  let e := fresh "e" in
  let He := fresh "He" in
  intros e He [? ?]; simpl in He;
  repeat (destruct He as [<-|He]; [discriminate|]); contradiction.

Lemma select_is_dropdown_witness :
  no_descendant (is_role "radio") select_container /\
  no_descendant (is_role "checkbox") select_container /\
  has_descendant (fun e => tag_name e = "select") select_container /\
  detect_type select_container = (Some "dropdown", ["A"; "B"]).
Proof.
  assert (Hradio : no_descendant (is_role "radio") select_container)
    by no_such_descendant.
  assert (Hcheckbox : no_descendant (is_role "checkbox") select_container)
    by no_such_descendant.
  assert (Hselect :
            has_descendant (fun e => tag_name e = "select") select_container).
  { eexists. split; [simpl; left; reflexivity | reflexivity]. }
  repeat (split; [assumption|]).
  destruct (select_is_dropdown select_container Hradio Hcheckbox Hselect)
    as (select & Hfirst & Hdetect & _).
  injection Hfirst as <-. rewrite Hdetect. reflexivity.
Defined.

Lemma extract_containers_app (before after : list element) :
  forall questions,
    extract_containers (before ++ after) questions =
    match extract_containers before questions with
    | Ok questions' => extract_containers after questions'
    | Raise e => Raise e
    end.
Proof.
  induction before as [|qc before IH]; intros questions; [reflexivity|].
  cbn [app extract_containers]. unfold and_then.
  destruct (extract_container qc questions); [apply IH | reflexivity].
Qed.

(** C8. A container with no descendant named [entry.*] leaves the list of
    questions as it was, whatever else it holds, and the containers around
    it are processed as if it were not there. *)
Theorem no_field_no_question (qc : element) :
  no_descendant is_field qc ->
  (forall questions, extract_container qc questions = Ok questions) /\
  (forall before after questions,
      extract_containers (before ++ qc :: after) questions =
      extract_containers (before ++ after) questions).
Proof.
  intros Hnone.
  assert (Hskip : forall questions, extract_container qc questions = Ok questions).
  { intros questions. unfold extract_container.
    rewrite (find_entry_id_absent qc Hnone). cbn [and_then].
    destruct (detect_type qc) as [q_type options_list]. reflexivity. }
  split; [exact Hskip|].
  intros before after questions.
  rewrite !extract_containers_app.
  destruct (extract_containers before questions) as [questions'|e];
    [|reflexivity].
  cbn [extract_containers]. rewrite Hskip. reflexivity.
Qed.

Lemma no_field_no_question_witness :
  no_descendant is_field decorative_container /\
  has_descendant (is_role "radio") decorative_container /\
  extract_containers
    [radio_and_checkbox_container; decorative_container; select_container] []
  = extract_containers [radio_and_checkbox_container; select_container] [].
Proof.
  assert (Hnone : no_descendant is_field decorative_container).
  { intros e He (n & Hn & Hpre). simpl in He.
    repeat (destruct He as [<-|He];
            [try discriminate; injection Hn as <-; discriminate|]).
    contradiction. }
  split; [exact Hnone|]. split.
  - eexists. split; [simpl; left; reflexivity | split; reflexivity].
  - exact (proj2 (no_field_no_question decorative_container Hnone)
             [radio_and_checkbox_container] [select_container] []).
Defined.

(* ------------------------------------------------------------------ *)
(** * Failing extraction *)
(* ------------------------------------------------------------------ *)

Lemma extract_form_structure_raises (document : element) (e : exn) :
  extract_form_structure document = Raise e ->
  exists cause,
    extract_try document = Raise cause /\
    e = RuntimeError ("Failed to parse form: " ++ str_exn cause) cause.
Proof.
  unfold extract_form_structure.
  destruct (extract_try document) as [fs|cause]; [discriminate|].
  intros [= <-]. now exists cause.
Qed.

Lemma extract_try_without_form (document : element) :
  no_descendant (fun e => tag_name e = "form") document ->
  extract_try document = Raise TimeoutException.
Proof.
  intros Hnone. unfold extract_try, wait_presence.
  rewrite find_elements_by_tag.
  replace (filter (fun e => tag_name e =? "form") (descendants document))
    with (@nil element); [reflexivity|].
  symmetry. rewrite <- find_elements_by_tag. apply find_elements_none.
  intros e He. unfold matches, by_tag. cbn [loc_tag loc_attr].
  rewrite andb_true_r. apply String.eqb_neq. exact (Hnone e He).
Qed.

Lemma extract_try_without_token (document : element) :
  no_descendant (fun e => get_attribute e "name" = Some "fbzx") document ->
  exists cause,
    extract_try document = Raise cause /\
    In cause [TimeoutException; AttributeError; NoSuchElementException].
Proof.
  intros Hnone.
  assert (Hfind : find_element document (by_name "fbzx")
                  = Raise NoSuchElementException).
  { unfold find_element. rewrite find_elements_none; [reflexivity|].
    intros e He. unfold matches, by_name, attr_holds. cbn [loc_tag loc_attr andb].
    destruct (get_attribute e "name") as [x|] eqn:E; [|reflexivity].
    apply String.eqb_neq. intros ->. exact (Hnone e He E). }
  unfold extract_try, wait_presence, find_element in *.
  destruct (find_elements document (by_tag "form")) as [|form forms].
  - exists TimeoutException. split; [reflexivity | simpl; tauto].
  - cbn [and_then]. destruct (get_attribute form "action") as [action|].
    + cbn [and_then]. rewrite Hfind.
      exists NoSuchElementException. split; [reflexivity | simpl; tauto].
    + exists AttributeError. split; [reflexivity | simpl; tauto].
Qed.

(** C9. With no cache file for the form: a page without a form makes
    extraction raise [RuntimeError] over the wait's [TimeoutException], a
    page without an element named [fbzx] makes it raise [RuntimeError] over
    the exception met; and whenever extraction raises, what it raises is a
    [RuntimeError] whose message and context carry the cause, [main] ends
    with that exception, and the cache files, the POSTs sent and the
    generator are as they were before the run. *)
Theorem extraction_failure_aborts (md5_hexdigest : string -> string)
  (form_url : string) (M : Z) (w : world) :
  read_file (get_cache_filename md5_hexdigest form_url) (files w) = None ->
  (no_descendant (fun e => tag_name e = "form") (web w form_url) ->
   extract_form_structure (web w form_url) =
     Raise (RuntimeError ("Failed to parse form: " ++ str_exn TimeoutException)
                         TimeoutException)) /\
  (no_descendant (fun e => get_attribute e "name" = Some "fbzx")
                 (web w form_url) ->
   exists cause,
     In cause [TimeoutException; AttributeError; NoSuchElementException] /\
     extract_form_structure (web w form_url) =
       Raise (RuntimeError ("Failed to parse form: " ++ str_exn cause) cause)) /\
  (forall e,
      extract_form_structure (web w form_url) = Raise e ->
      (exists cause,
          extract_try (web w form_url) = Raise cause /\
          e = RuntimeError ("Failed to parse form: " ++ str_exn cause) cause) /\
      main md5_hexdigest form_url M w = (Done (Raise e), w)).
Proof.
  intros Hmiss. split; [|split].
  - intros Hnone. unfold extract_form_structure.
    now rewrite (extract_try_without_form _ Hnone).
  - intros Hnone.
    destruct (extract_try_without_token _ Hnone) as (cause & Hrun & Hin).
    exists cause. split; [exact Hin|].
    unfold extract_form_structure. now rewrite Hrun.
  - intros e Hfail. split; [now apply extract_form_structure_raises|].
    unfold main, load_or_extract. rewrite Hmiss, Hfail. reflexivity.
Qed.

Lemma extraction_failure_aborts_witness :
  read_file (get_cache_filename (fun s => s) "https://docs.google.com/forms/d/e/X/viewform")
            (files (fresh_world page_without_token)) = None /\
  no_descendant (fun e => get_attribute e "name" = Some "fbzx")
                page_without_token /\
  exists cause,
    main (fun s => s) "https://docs.google.com/forms/d/e/X/viewform" 5
         (fresh_world page_without_token)
    = (Done (Raise (RuntimeError ("Failed to parse form: " ++ str_exn cause)
                                 cause)),
       fresh_world page_without_token).
Proof.
  assert (Hmiss :
            read_file (get_cache_filename (fun s => s)
                         "https://docs.google.com/forms/d/e/X/viewform")
                      (files (fresh_world page_without_token)) = None)
    by reflexivity.
  assert (Hnone : no_descendant (fun e => get_attribute e "name" = Some "fbzx")
                                page_without_token).
  { intros e He Hname. simpl in He.
    repeat (destruct He as [<-|He]; [discriminate|]). contradiction. }
  split; [exact Hmiss|]. split; [exact Hnone|].
  destruct (extraction_failure_aborts (fun s => s)
              "https://docs.google.com/forms/d/e/X/viewform" 5
              (fresh_world page_without_token) Hmiss)
    as (_ & Htoken & Habort).
  destruct (Htoken Hnone) as (cause & _ & Hfail).
  exists cause. exact (proj2 (Habort _ Hfail)).
Defined.

(* ------------------------------------------------------------------ *)
(** * More on the structure extractor *)
(* ------------------------------------------------------------------ *)

Lemma element_induction (P : element -> Prop) :
  (forall t a cs, Forall P cs -> P (Element t a cs)) -> forall e, P e.
Proof.
  intros H. fix IH 1. intros [t a cs]. apply H.
  induction cs as [|c cs IHcs]; constructor; [apply IH | exact IHcs].
Qed.

(** What lies below a descendant lies below the element itself. *)
Lemma descendants_trans (e : element) :
  forall x y, In x (descendants e) -> In y (descendants x) ->
              In y (descendants e).
Proof.
  induction e as [t a cs IH] using element_induction.
  intros x y Hx Hy. cbn [descendants] in *.
  apply in_flat_map in Hx. destruct Hx as (c & Hc & Hx).
  apply in_flat_map. exists c. split; [exact Hc|].
  right. destruct Hx as [->|Hx]; [exact Hy|].
  rewrite Forall_forall in IH. exact (IH c Hc x y Hx Hy).
Qed.

Lemma find_elements_below (qc rg : element) (l : locator) :
  In rg (descendants qc) -> find_elements qc l = [] -> find_elements rg l = [].
Proof.
  intros Hrg Hnone. apply find_elements_none. intros e He.
  destruct (matches l e) eqn:E; [|reflexivity].
  assert (Hin : In e (find_elements qc l)).
  { apply filter_In. split; [exact (descendants_trans qc rg e Hrg He) | exact E]. }
  rewrite Hnone in Hin. contradiction.
Qed.

Lemma flat_map_all_nil {A B} (f : A -> list B) (l : list A) :
  (forall x, In x l -> f x = []) -> flat_map f l = [].
Proof.
  intros Hall. induction l as [|x l IH]; [reflexivity|].
  cbn [flat_map]. rewrite (Hall x) by now left.
  apply IH. intros y Hy. apply Hall. now right.
Qed.

Lemma detect_type_scale_options (qc : element) (opts : list string) :
  detect_type qc = (Some "scale", opts) -> opts = [].
Proof.
  unfold detect_type.
  destruct (find_elements qc (css_tag_attr "div" "role" "radio")) eqn:Eradio;
    [|discriminate].
  destruct (find_elements qc (css_tag_attr "div" "role" "checkbox"));
    [|discriminate].
  destruct (find_elements qc (by_tag "select")); [|discriminate].
  destruct (find_elements qc (css_tag_attr "input" "type" "text"));
    [|discriminate].
  destruct (find_elements qc (by_tag "textarea")); [|discriminate].
  destruct (find_elements qc (css_tag_attr "div" "role" "radiogroup"))
    as [|rg rgs] eqn:Egroups.
  - destruct (find_elements qc (css_tag_attr "input" "type" "date"));
      [|discriminate].
    destruct (find_elements qc (css_tag_attr "input" "type" "time"));
      discriminate.
  - intros Heq. apply (f_equal snd) in Heq. cbn [snd] in Heq.
    rewrite <- Heq. apply flat_map_all_nil.
    intros g Hg. rewrite <- Egroups in Hg. apply filter_In in Hg.
    now rewrite (find_elements_below qc g _ (proj1 Hg) Eradio).
Qed.

(** What a round of the container loop can have done when it completes. *)
Lemma extract_container_inv (qc : element) (questions questions' : list question) :
  extract_container qc questions = Ok questions' ->
  questions' = questions \/
  exists id t opts,
    questions' = questions ++ [{| entry_id := id; type := t; options := opts |}]
    /\ find_entry_id qc = Ok (Some id) /\ detect_type qc = (Some t, opts).
Proof.
  unfold extract_container.
  destruct (find_entry_id qc) as [[id|]|e]; cbn [and_then]; [| |discriminate].
  - destruct (detect_type qc) as [[t|] opts].
    + destruct (truthy (Some id) && truthy (Some t)); intros [= <-];
        [right; now exists id, t, opts | now left].
    + rewrite andb_false_r. intros [= <-]. now left.
  - destruct (detect_type qc) as [q_type opts]. cbn [truthy andb].
    intros [= <-]. now left.
Qed.

(** X1. A question that the extractor writes with type [scale] has no
    options, because radio elements inside a radiogroup would have made the
    container a [radio] question first; the builder therefore never adds a
    pair for it and draws nothing. *)
Theorem scale_question_never_answered (qc : element)
  (questions : list question) (q : question) :
  extract_container qc questions = Ok (questions ++ [q]) ->
  type q = "scale" ->
  options q = [] /\
  forall data g, answer_question q data g = Ok (data, g).
Proof.
  intros Hrun Htype.
  assert (Hopts : options q = []).
  { destruct (extract_container_inv qc questions _ Hrun)
      as [Hsame | (id & t & opts & Heq & _ & Hdetect)].
    - apply (f_equal (@List.length question)) in Hsame.
      rewrite length_app in Hsame. simpl in Hsame. lia.
    - apply app_inv_head in Heq. injection Heq as ->.
      cbn [type options] in *. subst t.
      exact (detect_type_scale_options qc opts Hdetect). }
  split; [exact Hopts|].
  intros data g. apply answer_question_no_options; [exact Hopts|].
  rewrite Htype. unfold choice_types. simpl. tauto.
Qed.

Lemma scale_question_never_answered_witness :
  extract_container scale_container [] =
    Ok ([] ++ [{| entry_id := "entry.5"; type := "scale"; options := [] |}]) /\
  build_post_data
    {| action_url := "https://docs.google.com/forms/d/e/X/formResponse";
       fbzx := Some "t"; page_history := None;
       questions := [{| entry_id := "entry.5"; type := "scale";
                        options := [] |}] |} [4]
  = Ok ([("fbzx", Some "t")], [4]).
Proof.
  assert (Hrun : extract_container scale_container [] =
            Ok ([] ++ [{| entry_id := "entry.5"; type := "scale";
                          options := [] |}])) by reflexivity.
  split; [exact Hrun|].
  destruct (scale_question_never_answered scale_container [] _ Hrun eq_refl)
    as [_ Hskip].
  unfold build_post_data. cbn [truthy page_history questions answer_questions].
  unfold bind. rewrite Hskip. reflexivity.
Defined.

Lemma matches_by_tag (t : string) (e : element) :
  matches (by_tag t) e = true <-> tag_name e = t.
Proof.
  unfold matches, by_tag. cbn [loc_tag loc_attr].
  rewrite andb_true_r. apply String.eqb_eq.
Qed.

(** The piece before the first separator holds no separator. *)
Lemma split_hd_free (sep : ascii) (s : string) :
  free_of sep (hd "" (split sep s)) = true.
Proof.
  unfold free_of. induction s as [|c s IH]; [reflexivity|].
  simpl. destruct (Ascii.eqb c sep) eqn:E; [reflexivity|].
  pose proof (split_nonempty sep s) as Hne.
  destruct (split sep s) as [|piece pieces]; [contradiction|].
  simpl in *. now rewrite E, IH.
Qed.

(** Looking for the entry id never raises: the first named element has a
    name by the very selector that found it. *)
Lemma find_entry_id_total (qc : element) :
  (find_entry_id qc = Ok None /\ no_descendant is_field qc) \/
  (exists id, find_entry_id qc = Ok (Some id) /\
              startswith id "entry." = true /\ free_of "_" id = true /\
              has_descendant is_field qc).
Proof.
  destruct (find_elements qc css_entry) as [|e0 es] eqn:E.
  - left.
    assert (Hnone : no_descendant is_field qc).
    { intros e He Hfield.
      apply (find_elements_found qc css_entry e He); [|exact E].
      now apply matches_css_entry. }
    split; [now apply find_entry_id_absent | exact Hnone].
  - right.
    assert (H0 : In e0 (find_elements qc css_entry)) by (rewrite E; now left).
    apply filter_In in H0. destruct H0 as [Hdesc H0].
    apply matches_css_entry in H0.
    pose proof H0 as (n & Hn & Hpre).
    exists (hd "" (split "_" n)).
    unfold find_entry_id. rewrite E. cbn [app]. rewrite Hn.
    split; [reflexivity|]. split; [now apply entry_prefix_kept|].
    split; [apply split_hd_free | now exists e0].
Qed.

Lemma collect_values_nonempty (attr : string) (es : list element) :
  Forall (fun o => o <> "") (collect_values attr es).
Proof.
  apply Forall_forall. intros o Ho. unfold collect_values in Ho.
  apply in_flat_map in Ho. destruct Ho as (e & _ & Ho).
  destruct (get_attribute e attr) as [v|]; cbn [truthy] in Ho; [|contradiction].
  destruct (v =? "") eqn:E; cbn [negb] in Ho; [contradiction|].
  destruct Ho as [<-|[]]. now apply String.eqb_neq.
Qed.

Lemma choice_options_nonempty (es : list element) :
  Forall (fun o => o <> "") (choice_options es).
Proof.
  unfold choice_options.
  destruct (collect_values "data-value" es) eqn:E.
  - apply collect_values_nonempty.
  - rewrite <- E. apply collect_values_nonempty.
Qed.

Ltac detect_steps qc :=
  unfold detect_type;
  destruct (find_elements qc (css_tag_attr "div" "role" "radio")) eqn:?;
  [destruct (find_elements qc (css_tag_attr "div" "role" "checkbox")) eqn:?;
   [destruct (find_elements qc (by_tag "select")) eqn:?;
    [destruct (find_elements qc (css_tag_attr "input" "type" "text")) eqn:?;
     [destruct (find_elements qc (by_tag "textarea")) eqn:?;
      [destruct (find_elements qc (css_tag_attr "div" "role" "radiogroup")) eqn:?;
       [destruct (find_elements qc (css_tag_attr "input" "type" "date")) eqn:?;
        [destruct (find_elements qc (css_tag_attr "input" "type" "time")) eqn:?
        |]|]|]|]|]|]|].

(** The detected type is one of the eight, and no option is the empty
    string. *)
Lemma detect_type_shape (qc : element) (t : string) (opts : list string) :
  detect_type qc = (Some t, opts) ->
  In t known_types /\ Forall (fun o => o <> "") opts.
Proof.
  detect_steps qc; intros [= <- <-]; (split; [simpl; tauto|]);
    try constructor;
    try apply choice_options_nonempty;
    try apply collect_values_nonempty.
  apply Forall_forall. intros o Ho.
  change (In o (flat_map
                  (fun rg => collect_values "data-value"
                     (find_elements rg (css_tag_attr "div" "role" "radio")))
                  (e :: l))) in Ho.
  apply in_flat_map in Ho. destruct Ho as (rg & _ & Ho).
  pose proof (collect_values_nonempty "data-value"
                (find_elements rg (css_tag_attr "div" "role" "radio"))) as H.
  rewrite Forall_forall in H. now apply H.
Qed.

Lemma find_elements_lacks (qc e : element) (l : locator) :
  find_elements qc l = [] -> In e (descendants qc) -> matches l e = true -> False.
Proof.
  intros Hnone He Hm. exact (find_elements_found qc l e He Hm Hnone).
Qed.

(** No type is detected exactly when the container holds none of the
    elements that the eight steps look for. *)
Lemma detect_type_none (qc : element) :
  (exists opts, detect_type qc = (None, opts)) <-> no_descendant is_feature qc.
Proof.
  split.
  - intros (opts & Hnone). revert Hnone.
    detect_steps qc; try discriminate. intros _ x Hx Hfeature.
    destruct Hfeature as [H|[H|[H|[H|[H|[H|[H|H]]]]]]].
    + apply (find_elements_lacks qc x (css_tag_attr "div" "role" "radio"));
        [assumption | exact Hx | now apply matches_css_tag_attr].
    + apply (find_elements_lacks qc x (css_tag_attr "div" "role" "checkbox"));
        [assumption | exact Hx | now apply matches_css_tag_attr].
    + apply (find_elements_lacks qc x (by_tag "select"));
        [assumption | exact Hx | now apply matches_by_tag].
    + apply (find_elements_lacks qc x (css_tag_attr "input" "type" "text"));
        [assumption | exact Hx | now apply matches_css_tag_attr].
    + apply (find_elements_lacks qc x (by_tag "textarea"));
        [assumption | exact Hx | now apply matches_by_tag].
    + apply (find_elements_lacks qc x (css_tag_attr "div" "role" "radiogroup"));
        [assumption | exact Hx | now apply matches_css_tag_attr].
    + apply (find_elements_lacks qc x (css_tag_attr "input" "type" "date"));
        [assumption | exact Hx | now apply matches_css_tag_attr].
    + apply (find_elements_lacks qc x (css_tag_attr "input" "type" "time"));
        [assumption | exact Hx | now apply matches_css_tag_attr].
  - intros Hnone. exists []. unfold detect_type.
    rewrite !find_elements_none; [reflexivity| | | | | | | |];
      intros x Hx; destruct (matches _ x) eqn:E; try reflexivity;
      exfalso; apply (Hnone x Hx); unfold is_feature, is_role, is_input;
      first [apply matches_css_tag_attr in E | apply matches_by_tag in E];
      tauto.
Qed.

Lemma known_type_truthy (t : string) : In t known_types -> t <> "".
Proof.
  intros Hin ->. simpl in Hin.
  repeat (destruct Hin as [Hin|Hin]; [discriminate|]). contradiction.
Qed.

(** A round of the container loop never raises.  Either it leaves the list
    alone, and then the container lacks a field or lacks anything the
    detection steps look for, or it appends one question, the same whatever
    the list was. *)
Lemma extract_container_cases (qc : element) :
  ((forall questions, extract_container qc questions = Ok questions) /\
   (no_descendant is_field qc \/ no_descendant is_feature qc))
  \/
  (exists q,
      (forall questions, extract_container qc questions = Ok (questions ++ [q]))
      /\ extracted_question q
      /\ has_descendant is_field qc /\ ~ no_descendant is_feature qc).
Proof.
  destruct (find_entry_id_total qc)
    as [[Hid Hnofield] | (id & Hid & Hpre & Hfree & Hfield)].
  - left. split; [|now left].
    intros questions. unfold extract_container. rewrite Hid. cbn [and_then].
    destruct (detect_type qc) as [q_type opts]. reflexivity.
  - destruct (detect_type qc) as [[t|] opts] eqn:D.
    + right. destruct (detect_type_shape qc t opts D) as [Hknown Hopts].
      exists {| entry_id := id; type := t; options := opts |}.
      split; [|split; [|split]].
      * intros questions.
        exact (extract_container_appends qc questions id t opts Hid Hpre D
                 (known_type_truthy t Hknown)).
      * repeat split; assumption.
      * exact Hfield.
      * intros Hnone. apply detect_type_none in Hnone.
        destruct Hnone as (opts' & Hnone). rewrite D in Hnone. discriminate.
    + left. split.
      * intros questions. unfold extract_container.
        rewrite Hid, D. cbn [and_then]. now rewrite andb_false_r.
      * right. apply detect_type_none. now exists opts.
Qed.

(** The loop over the containers completes and only appends well-formed
    questions. *)
Lemma extract_containers_runs (containers : list element)
  (questions : list question) :
  exists added,
    extract_containers containers questions = Ok (questions ++ added) /\
    (List.length added <= List.length containers)%nat /\
    Forall extracted_question added.
Proof.
  revert questions. induction containers as [|qc containers IH]; intros questions.
  - exists []. split; [simpl; now rewrite app_nil_r|]. split; [simpl; lia|constructor].
  - cbn [extract_containers]. unfold and_then.
    destruct (extract_container_cases qc) as [[Hskip _] | (q & Hadd & Hq & _)].
    + rewrite Hskip. destruct (IH questions) as (added & Hrun & Hlen & Hall).
      exists added. split; [exact Hrun|]. split; [simpl; lia | exact Hall].
    + rewrite Hadd. destruct (IH (questions ++ [q])) as (added & Hrun & Hlen & Hall).
      exists (q :: added). split; [rewrite Hrun, <- app_assoc; reflexivity|].
      split; [simpl; lia | now constructor].
Qed.

(** X2. The loop over the containers never raises; it appends at most one
    question per container, and every question it appends has an entry id
    that begins with [entry.] and holds no underscore, one of the eight
    known types, and no empty string among its options. *)
Theorem extract_containers_invariant (containers : list element)
  (questions : list question) :
  exists added,
    extract_containers containers questions = Ok (questions ++ added) /\
    (List.length added <= List.length containers)%nat /\
    Forall (fun q => startswith (entry_id q) "entry." = true /\
                     free_of "_" (entry_id q) = true /\
                     In (type q) known_types /\
                     Forall (fun o => o <> "") (options q)) added.
Proof.
  destruct (extract_containers_runs containers questions)
    as (added & Hrun & Hlen & Hall).
  exists added. split; [exact Hrun|]. split; [exact Hlen|].
  apply Forall_forall. intros q Hq.
  rewrite Forall_forall in Hall. exact (Hall q Hq).
Qed.

Lemma extract_containers_from (containers : list element) :
  forall questions,
    extract_containers containers questions =
    match extract_containers containers [] with
    | Ok added => Ok (questions ++ added)
    | Raise e => Raise e
    end.
Proof.
  induction containers as [|qc containers IH]; intros questions.
  - simpl. now rewrite app_nil_r.
  - cbn [extract_containers]. unfold and_then.
    destruct (extract_container_cases qc) as [[Hskip _] | (q & Hadd & _)].
    + rewrite !Hskip. apply IH.
    + rewrite !Hadd. rewrite (IH (questions ++ [q])), (IH ([] ++ [q])).
      destruct (extract_containers containers []) as [added|e]; [|reflexivity].
      now rewrite <- app_assoc.
Qed.

(** X3. The questions of a list of containers are the questions of its
    first part followed by the questions of its second part: containers are
    judged one by one and the order of the page is kept. *)
Theorem extract_containers_concat (first second : list element) :
  exists q1 q2,
    extract_containers first [] = Ok q1 /\
    extract_containers second [] = Ok q2 /\
    extract_containers (first ++ second) [] = Ok (q1 ++ q2).
Proof.
  destruct (extract_containers_runs first []) as (q1 & H1 & _).
  destruct (extract_containers_runs second []) as (q2 & H2 & _).
  exists q1, q2. split; [exact H1|]. split; [exact H2|].
  rewrite extract_containers_app, H1, extract_containers_from, H2.
  reflexivity.
Qed.

(** X4. A container yields a question exactly when it holds a field named
    [entry.*] and at least one element that the detection steps look for:
    with both, one well-formed question is appended; with no field, or with
    a field but only markup that no step looks for, the list is left as it
    was and nothing is raised. *)
Theorem container_yields_question (qc : element) (questions : list question) :
  (has_descendant is_field qc -> has_descendant is_feature qc ->
   exists q, extract_container qc questions = Ok (questions ++ [q]) /\
             extracted_question q) /\
  (no_descendant is_field qc \/ no_descendant is_feature qc ->
   extract_container qc questions = Ok questions).
Proof.
  destruct (extract_container_cases qc)
    as [[Hskip Hwhy] | (q & Hadd & Hq & Hfield & Hfeature)]; split.
  - intros (e & He & Hfield) (x & Hx & Hfeature). exfalso.
    destruct Hwhy as [Hnone|Hnone];
      [exact (Hnone e He Hfield) | exact (Hnone x Hx Hfeature)].
  - intros _. apply Hskip.
  - intros _ _. exists q. split; [apply Hadd | exact Hq].
  - intros [Hnone|Hnone]; exfalso.
    + destruct Hfield as (e & He & Hf). exact (Hnone e He Hf).
    + exact (Hfeature Hnone).
Qed.

Lemma container_yields_question_witness :
  has_descendant is_field unrecognised_container /\
  no_descendant is_feature unrecognised_container /\
  extract_container unrecognised_container [] = Ok [] /\
  has_descendant is_feature select_container /\
  exists q, extract_container select_container [] = Ok ([] ++ [q]) /\
            extracted_question q.
Proof.
  assert (Hfield : has_descendant is_field unrecognised_container).
  { eexists. split; [simpl; left; reflexivity|].
    exists "entry.6". split; reflexivity. }
  assert (Hnone : no_descendant is_feature unrecognised_container).
  { intros e He Hf. simpl in He. destruct He as [<-|[]].
    unfold is_feature, is_role, is_input in Hf. simpl in Hf.
    repeat (destruct Hf as [Hf|Hf]); try discriminate;
      destruct Hf; discriminate. }
  assert (Hfield' : has_descendant is_field select_container).
  { eexists. split; [simpl; left; reflexivity|].
    exists "entry.7". split; reflexivity. }
  assert (Hfeature : has_descendant is_feature select_container).
  { eexists. split; [simpl; left; reflexivity|].
    right. right. left. reflexivity. }
  split; [exact Hfield|]. split; [exact Hnone|].
  split; [exact (proj2 (container_yields_question unrecognised_container [])
                   (or_intror Hnone))|].
  split; [exact Hfeature|].
  exact (proj1 (container_yields_question select_container [])
           Hfield' Hfeature).
Defined.

(** What a successful extraction has read. *)
Lemma extract_try_inv (document : element) (fs : form_struct) :
  extract_try document = Ok fs ->
  exists form a token,
    hd_error (find_elements document (by_tag "form")) = Some form /\
    get_attribute form "action" = Some a /\
    action_url fs = (if startswith a "http" then a
                     else "https://docs.google.com" ++ a)%string /\
    find_element document (by_name "fbzx") = Ok token /\
    fbzx fs = get_attribute token "value" /\
    page_history fs =
      match find_elements document (by_name "pageHistory") with
      | [] => None
      | e :: _ => get_attribute e "value"
      end /\
    extract_containers
      (find_elements document (css_tag_attr "div" "role" "listitem")) []
    = Ok (questions fs).
Proof.
  unfold extract_try, wait_presence, find_element.
  destruct (find_elements document (by_tag "form")) as [|form forms];
    [discriminate|].
  cbn [and_then].
  destruct (get_attribute form "action") as [a|] eqn:Ea; [|discriminate].
  cbn [and_then].
  destruct (find_elements document (by_name "fbzx")) as [|token tokens];
    [discriminate|].
  cbn [and_then].
  destruct (find_elements document (by_name "pageHistory")) as [|e es];
    cbn [and_then];
    destruct (extract_containers _ []) as [qs|err]; cbn [and_then];
    try discriminate; intros [= <-];
    exists form, a, token; repeat split; first [reflexivity | exact Ea].
Qed.

Lemma extract_form_structure_inv (document : element) (fs : form_struct) :
  extract_form_structure document = Ok fs -> extract_try document = Ok fs.
Proof.
  unfold extract_form_structure.
  destruct (extract_try document); [intros [= <-]; reflexivity | discriminate].
Qed.

(** X5. When the page shows a form whose first [form] element has an
    [action] and some element is named [fbzx], extraction succeeds: the
    stored action URL begins with [http] (the action itself, or the action
    behind [https://docs.google.com]), the token is the [value] of the
    first [fbzx] element, the page history is absent when no element is
    named [pageHistory], and the questions are those of the [listitem]
    containers, all well formed. *)
Theorem extraction_succeeds (document form : element) (forms : list element)
  (a : string) :
  find_elements document (by_tag "form") = form :: forms ->
  get_attribute form "action" = Some a ->
  has_descendant (fun e => get_attribute e "name" = Some "fbzx") document ->
  exists fs token,
    extract_form_structure document = Ok fs /\
    startswith (action_url fs) "http" = true /\
    (action_url fs = a \/
     action_url fs = ("https://docs.google.com" ++ a)%string) /\
    find_element document (by_name "fbzx") = Ok token /\
    fbzx fs = get_attribute token "value" /\
    (no_descendant (fun e => get_attribute e "name" = Some "pageHistory")
                   document -> page_history fs = None) /\
    extract_containers
      (find_elements document (css_tag_attr "div" "role" "listitem")) []
    = Ok (questions fs) /\
    Forall extracted_question (questions fs).
Proof.
  intros Hform Haction (x & Hx & Hname).
  assert (Htoken : find_elements document (by_name "fbzx") <> []).
  { apply (find_elements_found document _ x Hx).
    unfold matches, by_name, attr_holds. cbn [loc_tag loc_attr andb].
    rewrite Hname. reflexivity. }
  destruct (find_elements document (by_name "fbzx")) as [|token tokens] eqn:Et;
    [contradiction|].
  destruct (extract_containers_runs
              (find_elements document (css_tag_attr "div" "role" "listitem")) [])
    as (qs & Hqs & _ & Hall).
  cbn [app] in Hqs.
  set (action := (if startswith a "http" then a
                  else "https://docs.google.com" ++ a)%string).
  set (ph := match find_elements document (by_name "pageHistory") with
             | [] => None
             | e :: _ => get_attribute e "value"
             end).
  exists {| action_url := action; fbzx := get_attribute token "value";
            page_history := ph; questions := qs |}, token.
  split.
  { unfold extract_form_structure, extract_try, wait_presence, find_element.
    rewrite Hform. cbn [and_then]. rewrite Haction. cbn [and_then].
    rewrite Et. cbn [and_then]. fold action. subst ph.
    destruct (find_elements document (by_name "pageHistory"));
      cbn [and_then]; rewrite Hqs; reflexivity. }
  cbn [action_url fbzx page_history questions].
  split; [subst action; destruct (startswith a "http") eqn:E;
          [exact E | reflexivity]|].
  split; [subst action; destruct (startswith a "http"); [now left | now right]|].
  split; [unfold find_element; now rewrite Et|].
  split; [reflexivity|].
  split; [|split; [exact Hqs | exact Hall]].
  intros Hnone. subst ph. rewrite find_elements_none; [reflexivity|].
  intros e He. unfold matches, by_name, attr_holds. cbn [loc_tag loc_attr andb].
  destruct (get_attribute e "name") as [n|] eqn:En; [|reflexivity].
  apply String.eqb_neq. intros ->. exact (Hnone e He En).
Qed.

Lemma extraction_succeeds_witness :
  has_descendant (fun e => get_attribute e "name" = Some "fbzx") page_with_form
  /\ exists fs,
       extract_form_structure page_with_form = Ok fs /\
       action_url fs = "https://docs.google.com/forms/d/e/X/formResponse" /\
       List.length (questions fs) = 2%nat.
Proof.
  assert (Htoken : has_descendant
            (fun e => get_attribute e "name" = Some "fbzx") page_with_form).
  { exists (Element "input" [("type", "hidden"); ("name", "fbzx");
                             ("value", "-77")] []).
    split; [simpl; tauto | reflexivity]. }
  split; [exact Htoken|].
  destruct (extraction_succeeds page_with_form _ _ "/forms/d/e/X/formResponse"
              eq_refl eq_refl Htoken)
    as (fs & token & Hrun & _ & Haction & _ & _ & _ & Hqs & _).
  exists fs. split; [exact Hrun|]. split.
  - destruct Haction as [Ha|Ha]; [|exact Ha].
    exfalso. apply extract_form_structure_inv, extract_try_inv in Hrun.
    destruct Hrun as (f & a & t & Hf & Hact & Hurl & _).
    injection Hf as <-. injection Hact as <-. rewrite Ha in Hurl.
    discriminate.
  - apply (f_equal (fun r => match r with
                             | Ok qs => List.length qs
                             | Raise _ => 0%nat
                             end)) in Hqs.
    symmetry. exact Hqs.
Defined.

(* ------------------------------------------------------------------ *)
(** * More on the answer generators *)
(* ------------------------------------------------------------------ *)

Lemma words_NoDup : NoDup words.
Proof.
  replace words with (nodup string_dec words) by reflexivity.
  apply NoDup_nodup.
Qed.

Lemma words_free_of_space : Forall (fun w => free_of " " w = true) words.
Proof. repeat constructor. Qed.

Lemma split_free (sep : ascii) (w : string) :
  free_of sep w = true -> split sep w = [w].
Proof.
  unfold free_of. induction w as [|c w IH]; intros Hfree; [reflexivity|].
  simpl in *. apply andb_prop in Hfree. destruct Hfree as [Hc Hw].
  apply negb_true_iff in Hc. rewrite Hc, (IH Hw). reflexivity.
Qed.

Lemma split_app_sep (sep : ascii) (w rest : string) :
  free_of sep w = true ->
  split sep (w ++ String sep rest) = w :: split sep rest.
Proof.
  unfold free_of. induction w as [|c w IH]; intros Hfree.
  - simpl. now rewrite Ascii.eqb_refl.
  - simpl in *. apply andb_prop in Hfree. destruct Hfree as [Hc Hw].
    apply negb_true_iff in Hc. rewrite Hc, (IH Hw). reflexivity.
Qed.

(** Words that hold no separator are read back from their join. *)
Lemma split_join (sep : ascii) (ws : list string) :
  ws <> [] -> Forall (fun w => free_of sep w = true) ws ->
  split sep (join (String sep "") ws) = ws.
Proof.
  intros Hne Hfree. induction ws as [|w ws IH]; [contradiction|].
  inversion Hfree as [|? ? Hw Hws]; subst.
  destruct ws as [|w' ws].
  - simpl. now apply split_free.
  - change (join (String sep "") (w :: w' :: ws))
      with (w ++ String sep (join (String sep "") (w' :: ws)))%string.
    rewrite split_app_sep by exact Hw.
    f_equal. apply IH; [discriminate | exact Hws].
Qed.

(** What [random_text] returns are between two and five different words
    of the vocabulary, joined by single spaces. *)
Lemma random_text_sample (g : Rng) :
  comes_to (fun s _ => exists ws, s = join " " ws /\ vocabulary_sample ws)
           (random_text g).
Proof.
  apply (comes_to_weaken _ _ _ (random_text_outcome g)).
  intros s g' (idxs & Hlen & Hnd & Hlt & ->).
  exists (map (fun i => nth i words "") idxs). split; [reflexivity|].
  split; [now rewrite length_map|].
  split; [exact (NoDup_map_nth words idxs words_NoDup Hnd Hlt)|].
  intros w Hw. apply in_map_iff in Hw. destruct Hw as (i & <- & Hi).
  rewrite Forall_forall in Hlt. apply nth_In. now apply Hlt.
Qed.

Lemma vocabulary_sample_reads_back (ws : list string) :
  vocabulary_sample ws -> split " " (join " " ws) = ws.
Proof.
  intros (Hlen & _ & Hincl). apply split_join.
  - intros ->. simpl in Hlen. lia.
  - apply Forall_forall. intros w Hw.
    pose proof words_free_of_space as Hfree. rewrite Forall_forall in Hfree.
    exact (Hfree w (Hincl w Hw)).
Qed.

(** Two to five words of the 25 are always sampled in the set branch. *)
Lemma words_by_set (k : nat) :
  (k <= 5)%nat ->
  (Z.of_nat (List.length words) <=? setsize (Z.of_nat k))%Z = false.
Proof.
  intros Hk. unfold setsize.
  destruct (Z.ltb_spec 5 (Z.of_nat k)) as [H|_]; [lia | reflexivity].
Qed.

(** On in-range draws that hold enough different values, [random_text]
    takes the words at the positions drawn first, each once. *)
Lemma random_text_draws (c : nat) (tape : list nat) :
  (c < 4)%nat ->
  Forall (fun x => (x < List.length words)%nat) tape ->
  List.length (first_distinct (2 + c) [] tape) = (2 + c)%nat ->
  exists left,
    random_text (c :: tape)
    = Ok (join " " (map (fun i => nth i words "")
                        (first_distinct (2 + c) [] tape)), left).
Proof.
  intros Hc Hlt Hlen.
  destruct (sample_set_first_distinct (List.length words) words tape
              (2 + c) [] Hlt Hlen) as (left & Hrun).
  exists left. unfold random_text, bind, randint.
  change (5 - 2 + 1 <=? 0)%Z with false. cbn [raise].
  change (Z.to_nat (5 - 2 + 1)) with 4%nat.
  unfold bind. rewrite randbelow_small by exact Hc. cbn [ret].
  replace (2 + Z.of_nat c)%Z with (Z.of_nat (2 + c)) by lia.
  assert (Hk : (2 + c <= List.length words)%nat)
    by (change (List.length words) with 25%nat; lia).
  rewrite (sample_by_set words (2 + c) tape Hk (words_by_set (2 + c) ltac:(lia))).
  now rewrite Hrun.
Qed.

(** X6. [random_text] never raises, and what it returns are between two
    and five different words of the vocabulary joined by single spaces, so
    that splitting the answer at the spaces gives the words back;
    [random_paragraph] never raises, and what it returns are two such texts,
    drawn one after the other, the first followed by a period and a space
    and the second by a period.  The words are those at the positions drawn
    first, a position that comes again being drawn anew; both return unless
    such a redraw finds the draws exhausted, so on some continuation of any
    draws. *)
Theorem random_text_and_paragraph (g : Rng) :
  comes_to (fun s _ =>
              exists ws,
                s = join " " ws /\ vocabulary_sample ws /\ split " " s = ws)
           (random_text g)
  /\ comes_to (fun s g2 =>
                 exists ws1 ws2 g1,
                   random_text g = Ok (join " " ws1, g1) /\
                   random_text g1 = Ok (join " " ws2, g2) /\
                   vocabulary_sample ws1 /\ vocabulary_sample ws2 /\
                   s = (join " " ws1 ++ ". " ++ join " " ws2 ++ ".")%string)
              (random_paragraph g)
  /\ (forall (c : nat) (tape : list nat),
        (c < 4)%nat ->
        Forall (fun x => (x < List.length words)%nat) tape ->
        List.length (first_distinct (2 + c) [] tape) = (2 + c)%nat ->
        exists left,
          random_text (c :: tape)
          = Ok (join " " (map (fun i => nth i words "")
                              (first_distinct (2 + c) [] tape)), left))
  /\ returns_eventually random_text
  /\ returns_eventually random_paragraph.
Proof.
  split; [|split; [|split; [|split]]].
  - apply (comes_to_weaken _ _ _ (random_text_sample g)).
    intros s g' (ws & -> & V). exists ws. split; [reflexivity|].
    split; [exact V | now apply vocabulary_sample_reads_back].
  - unfold random_paragraph, bind.
    destruct (random_text_sample g) as [H1 | (s1 & g1 & H1 & ws1 & -> & V1)];
      rewrite H1; [now left|].
    destruct (random_text_sample g1) as [H2 | (s2 & g2 & H2 & ws2 & -> & V2)];
      rewrite H2; [now left|].
    right. eexists _, g2. split; [reflexivity|].
    exists ws1, ws2, g1. repeat split; try assumption;
      try apply V1; try apply V2.
  - exact random_text_draws.
  - exact (continues_eventually _ _ random_text_continues).
  - exact (continues_eventually _ _ random_paragraph_continues).
Qed.

Lemma random_text_and_paragraph_witness :
  exists left,
    random_text [0; 3; 3; 3; 7; 9] = Ok ("dog happy", left).
Proof.
  destruct (random_text_and_paragraph []) as (_ & _ & Hdraws & _).
  apply (Hdraws 0%nat [3; 3; 3; 7; 9]%nat).
  - lia.
  - repeat constructor; simpl; lia.
  - reflexivity.
Defined.

(** X7. Over at most three options [random_multiple] selects exactly one,
    and over two or more it never selects them all. *)
Theorem random_multiple_small (opts sel : list string) (g g' : Rng) :
  random_multiple opts g = Ok (sel, g') ->
  ((1 <= List.length opts <= 3)%nat -> List.length sel = 1%nat) /\
  ((2 <= List.length opts)%nat -> (List.length sel < List.length opts)%nat).
Proof.
  intros Hrun.
  destruct opts as [|o opts].
  - injection Hrun as <- _. simpl. split; lia.
  - destruct (comes_to_returned _ _ _ _
                (random_multiple_outcome (o :: opts) g ltac:(discriminate))
                Hrun) as (idxs & Hlen & _).
    set (n := List.length (o :: opts)) in *.
    assert (Hhalf : (n / 2 * 2 <= n)%nat).
    { pose proof (Nat.div_mod_eq n 2) as E. lia. }
    split; intros Hn.
    + assert (n / 2 <= 1)%nat by lia. lia.
    + assert (1 <= n / 2)%nat.
      { apply Nat.div_le_lower_bound; lia. }
      lia.
Qed.

Lemma random_multiple_small_witness :
  random_multiple ["x"; "y"; "z"] [5; 1] = Ok (["y"], []) /\
  List.length ["y"] = 1%nat.
Proof.
  assert (Hrun : random_multiple ["x"; "y"; "z"] [5; 1] = Ok (["y"], []))
    by reflexivity.
  split; [exact Hrun|].
  apply (proj1 (random_multiple_small _ _ _ _ Hrun)). simpl. lia.
Defined.

(* ------------------------------------------------------------------ *)
(** * More on the payload builder *)
(* ------------------------------------------------------------------ *)

(** A text, paragraph, date or time question adds exactly one pair. *)
Lemma answer_question_free (q : question) (g g' : Rng) (group : payload) :
  In (type q) free_types ->
  answer_question q [] g = Ok (group, g') ->
  exists v, group = [(entry_id q, Some v)].
Proof.
  intros Htype.
  by_type q;
    try (exfalso; unfold free_types in Htype; simpl in Htype;
         destruct Htype as [E|[E|[E|[E|[]]]]]; rewrite <- E in *; discriminate);
    unfold bind;
    match goal with
    | |- context [match ?gen g with _ => _ end] =>
        destruct (gen g) as [[[v g1]|e]|]
    end; try discriminate;
    intros Hrun; injection Hrun as <- _; now exists v.
Qed.

(** A question of a type that the builder does not know adds nothing. *)
Lemma answer_question_unknown (q : question) (data : payload) (g : Rng) :
  ~ In (type q) known_types -> answer_question q data g = Ok (data, g).
Proof.
  intros Htype.
  by_type q; try reflexivity; exfalso; apply Htype;
    match goal with
    | H : (type q =? _) = true |- _ => apply String.eqb_eq in H; rewrite H
    end; simpl; tauto.
Qed.

(** X8. How many pairs a question adds, by its type: exactly one for text,
    paragraph, date and time; one for radio, dropdown and scale when there
    are options and none otherwise; for checkbox between one and
    [max(1, n // 2)] when there are [n > 0] options and none otherwise; and
    none, with nothing drawn and nothing raised, for any other type (as a
    hand-edited cache file may hold).  No question makes the round raise,
    and the round returns unless a redraw loop of [random.sample] finds the
    draws exhausted: always for a steady question, and on some continuation
    of any draws. *)
Theorem answer_group_size (q : question) (g : Rng) :
  comes_to (fun group g' =>
              (In (type q) free_types -> List.length group = 1%nat) /\
              (In (type q) single_choice_types ->
               List.length group
               = match options q with [] => 0 | _ => 1 end%nat) /\
              (type q = "checkbox" ->
               (options q = [] -> group = []) /\
               (options q <> [] ->
                (1 <= List.length group
                 <= Nat.max 1 (List.length (options q) / 2))%nat)) /\
              (~ In (type q) known_types -> group = [] /\ g' = g))
           (answer_question q [] g)
  /\ (~ In (type q) known_types -> answer_question q [] g = Ok ([], g))
  /\ (steady_question q = true ->
      exists group g', answer_question q [] g = Ok (group, g'))
  /\ returns_eventually (answer_question q []).
Proof.
  split; [|split; [|split]];
    [| now apply answer_question_unknown
     | now apply answer_question_steady
     | exact (continues_eventually _ _ (answer_question_continues q []))].
  destruct (answer_question_outcome q g) as [Hrun | (group & g' & Hrun & _)];
    [now left|].
  right. exists group, g'. split; [exact Hrun|].
  split; [|split; [|split]].
  - intros Htype.
    destruct (answer_question_free q g g' group Htype Hrun) as (v & ->).
    reflexivity.
  - intros Htype. rewrite (answer_question_single q [] g Htype) in Hrun.
    destruct (options q) as [|o opts]; [now injection Hrun as <- _|].
    destruct (random_choice (o :: opts) g) as [[[v g1]|e]|];
      [|discriminate|discriminate].
    now injection Hrun as <- _.
  - intros Htype. rewrite (answer_question_checkbox q [] g Htype) in Hrun.
    split.
    + intros Hopts. rewrite Hopts in Hrun. now injection Hrun as <- _.
    + intros Hopts.
      destruct (random_multiple (options q) g) as [[[sel g1]|e]|] eqn:Hsel;
        [|discriminate|discriminate].
      destruct (comes_to_returned _ _ _ _
                  (random_multiple_outcome (options q) g Hopts) Hsel)
        as (idxs & Hlen & _).
      injection Hrun as <- _. cbn [app]. now rewrite length_map.
  - intros Htype. rewrite (answer_question_unknown q [] g Htype) in Hrun.
    injection Hrun as <- <-. split; reflexivity.
Qed.

Lemma answer_group_size_witness :
  exists group g',
    answer_question {| entry_id := "entry.3"; type := "grid";
                       options := ["a"] |} [] [7] = Ok (group, g') /\
    group = [] /\ g' = [7].
Proof.
  destruct (answer_group_size
              {| entry_id := "entry.3"; type := "grid"; options := ["a"] |} [7])
    as (_ & Hunknown & _).
  exists [], [7]. split; [|split; reflexivity].
  apply Hunknown. simpl. intuition discriminate.
Defined.

(** Every pair that a question adds carries its entry id and a string, and
    for a choice question that string is one of its options. *)
Lemma answer_question_legal (q : question) (g g' : Rng) (group : payload) :
  answer_question q [] g = Ok (group, g') ->
  Forall (fun kv => fst kv = entry_id q /\
                    exists v, snd kv = Some v /\
                              (In (type q) choice_types -> In v (options q)))
         group.
Proof.
  intros Hrun.
  assert (Hcases : In (type q) free_types \/ In (type q) single_choice_types \/
                   type q = "checkbox" \/ ~ In (type q) known_types).
  { destruct (in_dec string_dec (type q) known_types) as [Hin|Hout];
      [|now right; right; right].
    simpl in Hin. unfold free_types, single_choice_types. simpl.
    intuition. }
  destruct Hcases as [Htype|[Htype|[Htype|Htype]]].
  - destruct (answer_question_free q g g' group Htype Hrun) as (v & ->).
    constructor; [|constructor]. split; [reflexivity|].
    exists v. split; [reflexivity|]. intros Hchoice. exfalso.
    unfold free_types, choice_types in *. simpl in *.
    destruct Htype as [E|[E|[E|[E|[]]]]]; rewrite <- E in Hchoice;
      intuition discriminate.
  - rewrite (answer_question_single q [] g Htype) in Hrun.
    destruct (options q) as [|o opts] eqn:Eo;
      [injection Hrun as <- _; constructor|].
    destruct (random_choice_answers (o :: opts) g) as (v & g1 & Hv & Hin);
      [discriminate|].
    rewrite Hv in Hrun. injection Hrun as <- _.
    constructor; [|constructor]. split; [reflexivity|]. now exists v.
  - rewrite (answer_question_checkbox q [] g Htype) in Hrun.
    destruct (options q) as [|o opts] eqn:Eo;
      [injection Hrun as <- _; constructor|].
    destruct (random_multiple (o :: opts) g) as [[[sel g1]|e]|] eqn:Hsel;
      [|discriminate|discriminate].
    destruct (comes_to_returned _ _ _ _
                (random_multiple_outcome (o :: opts) g ltac:(discriminate))
                Hsel) as (idxs & _ & _ & Hlt & Hmap).
    injection Hrun as <- _. cbn [app].
    apply Forall_forall. intros kv Hkv. apply in_map_iff in Hkv.
    destruct Hkv as (v & <- & Hv). split; [reflexivity|].
    exists v. split; [reflexivity|]. intros _.
    rewrite Hmap in Hv. apply in_map_iff in Hv. destruct Hv as (i & <- & Hi).
    rewrite Forall_forall in Hlt. apply nth_In. now apply Hlt.
  - rewrite (answer_question_unknown q [] g Htype) in Hrun.
    injection Hrun as <- _. constructor.
Qed.

(** X9. Whatever the form structure and the draws, the builder never
    raises, and after the token pairs every pair of the payload it returns
    belongs to one of the questions: its key is the entry id, its value a
    string, and for a radio, dropdown, scale or checkbox question that
    string is one of the options of the question.  The builder returns
    unless a redraw loop of [random.sample] finds the draws exhausted:
    always over steady questions, and on some continuation of any draws. *)
Theorem payload_answers_legal (fs : form_struct) (g : Rng) :
  comes_to (fun out _ =>
              exists data,
                out = token_pairs fs ++ data /\
                Forall (fun kv =>
                          exists q v,
                            In q (questions fs) /\ fst kv = entry_id q /\
                            snd kv = Some v /\
                            (In (type q) choice_types -> In v (options q)))
                       data)
           (build_post_data fs g)
  /\ (forallb steady_question (questions fs) = true ->
      exists data g', build_post_data fs g = Ok (data, g'))
  /\ returns_eventually (build_post_data fs).
Proof.
  split; [|split];
    [|apply build_post_data_steady | apply build_post_data_eventually].
  apply (comes_to_weaken _ _ _ (build_post_data_outcome fs g)).
  intros out g' (groups & Hord & ->).
  exists (List.concat groups). split; [reflexivity|].
  induction Hord as [g|q qs g g1 g2 group groups Hq Hqs IH].
  - constructor.
  - cbn [List.concat]. apply Forall_app. split.
    + pose proof (answer_question_legal q g g1 group Hq) as Hlegal.
      rewrite Forall_forall in *. intros kv Hkv.
      destruct (Hlegal kv Hkv) as (Hkey & v & Hv & Hopt).
      exists q, v. repeat split; try assumption. now left.
    + rewrite Forall_forall in *. intros kv Hkv.
      destruct (IH kv Hkv) as (q' & v & Hq' & Hrest).
      exists q', v. split; [now right | exact Hrest].
Qed.

Lemma payload_answers_legal_witness :
  forallb steady_question (questions form_with_empty_page_history) = true /\
  exists data g',
    build_post_data form_with_empty_page_history [3; 4] = Ok (data, g').
Proof.
  split; [reflexivity|].
  apply (proj1 (proj2 (payload_answers_legal form_with_empty_page_history
                         [3; 4]))).
  reflexivity.
Defined.

(* ------------------------------------------------------------------ *)
(** * From the page to the payload *)
(* ------------------------------------------------------------------ *)

Lemma extracted_questions_well_formed (document : element) (fs : form_struct) :
  extract_form_structure document = Ok fs ->
  Forall extracted_question (questions fs).
Proof.
  intros Hrun. apply extract_form_structure_inv, extract_try_inv in Hrun.
  destruct Hrun as (form & a & token & _ & _ & _ & _ & _ & _ & Hqs).
  destruct (extract_containers_runs
              (find_elements document (css_tag_attr "div" "role" "listitem")) [])
    as (added & Hadded & _ & Hall).
  rewrite Hqs in Hadded. now injection Hadded as ->.
Qed.

Lemma filter_all_false {A} (f : A -> bool) (l : list A) :
  (forall x, In x l -> f x = false) -> filter f l = [].
Proof.
  intros Hall. induction l as [|x l IH]; [reflexivity|].
  simpl. rewrite (Hall x) by now left.
  apply IH. intros y Hy. apply Hall. now right.
Qed.

(** X10. For a form structure that extraction returned, the builder
    never raises, and every key of every payload it returns is [fbzx],
    [pageHistory] or an entry id beginning with [entry.]; the only [fbzx]
    pair is the first one, and there is a [pageHistory] pair exactly when
    the extracted page history is a non-empty string.  The builder returns
    unless a redraw loop of [random.sample] finds the draws exhausted:
    always over steady questions, and on some continuation of any draws. *)
Theorem extracted_payload_keys (document : element) (fs : form_struct)
  (g : Rng) :
  extract_form_structure document = Ok fs ->
  comes_to (fun data _ =>
              Forall (fun kv => fst kv = "fbzx" \/ fst kv = "pageHistory" \/
                                startswith (fst kv) "entry." = true) data /\
              filter (fun kv => fst kv =? "fbzx") data = [("fbzx", fbzx fs)] /\
              ((exists v, In ("pageHistory", v) data) <->
               truthy (page_history fs) = true))
           (build_post_data fs g)
  /\ (forallb steady_question (questions fs) = true ->
      exists data g', build_post_data fs g = Ok (data, g'))
  /\ returns_eventually (build_post_data fs).
Proof.
  intros Hextract.
  split; [|split];
    [|apply build_post_data_steady | apply build_post_data_eventually].
  pose proof (extracted_questions_well_formed document fs Hextract) as Hwf.
  apply (comes_to_weaken _ _ _ (build_post_data_outcome fs g)).
  intros data g' (groups & Hord & ->).
  pose proof (concat_keys _ _ (answers_in_order_keys _ _ _ _ Hord)) as Hkeys.
  assert (Hentry : forall kv, In kv (List.concat groups) ->
                              startswith (fst kv) "entry." = true).
  { intros kv Hkv. destruct (Hkeys kv Hkv) as (q & Hq & ->).
    rewrite Forall_forall in Hwf. exact (proj1 (Hwf q Hq)). }
  split; [|split].
  - apply Forall_app. split.
    + unfold token_pairs. constructor; [now left|].
      destruct (page_history fs) as [ph|]; [|constructor].
      destruct (ph =? ""); constructor; [right; now left | constructor].
    + apply Forall_forall. intros kv Hkv. right. right. now apply Hentry.
  - rewrite filter_app.
    replace (filter (fun kv => fst kv =? "fbzx") (List.concat groups))
      with (@nil (string * option string)).
    + rewrite app_nil_r. unfold token_pairs. cbn [filter fst].
      rewrite String.eqb_refl.
      destruct (page_history fs) as [ph|]; [|reflexivity].
      destruct (ph =? ""); reflexivity.
    + symmetry. apply filter_all_false. intros kv Hkv.
      pose proof (Hentry kv Hkv) as Hpre.
      destruct (fst kv =? "fbzx") eqn:E; [|reflexivity].
      apply String.eqb_eq in E. rewrite E in Hpre. discriminate.
  - unfold token_pairs, truthy. split.
    + intros (v & Hin). apply in_app_or in Hin. destruct Hin as [Hin|Hin].
      * destruct Hin as [Hin|Hin]; [discriminate|].
        destruct (page_history fs) as [ph|]; [|contradiction].
        destruct (ph =? ""); [contradiction | reflexivity].
      * pose proof (Hentry _ Hin) as Hpre. discriminate.
    + intros Htruthy. destruct (page_history fs) as [ph|]; [|discriminate].
      exists (Some ph). apply in_or_app. left.
      destruct (ph =? ""); [discriminate|]. right. now left.
Qed.

Lemma extracted_payload_keys_witness :
  extract_form_structure page_with_empty_page_history
    = Ok form_with_empty_page_history /\
  exists data g',
    build_post_data form_with_empty_page_history [3; 4] = Ok (data, g') /\
    ~ exists v, In ("pageHistory", v) data.
Proof.
  assert (Hrun : extract_form_structure page_with_empty_page_history
                 = Ok form_with_empty_page_history) by reflexivity.
  split; [exact Hrun|].
  destruct (extracted_payload_keys _ _ [3; 4] Hrun)
    as ([Hhangs | (data & g' & Hbuild & _ & _ & Hiff)] & _).
  - discriminate Hhangs.
  - exists data, g'. split; [exact Hbuild|].
    intros Hin. apply Hiff in Hin. discriminate.
Defined.

(* ------------------------------------------------------------------ *)
(** * The cache file name *)
(* ------------------------------------------------------------------ *)

Lemma search_form_id_step (c : ascii) (s' : string) :
  search_form_id (String c s') =
  if String.prefix "/d/e/" (String c s')
  then match run_without_slash
               (substring 5 (String.length (String c s') - 5) (String c s')) with
       | EmptyString => search_form_id s'
       | form_id => Some form_id
       end
  else search_form_id s'.
Proof. reflexivity. Qed.

Lemma prefix_cons (a b : ascii) (p s : string) :
  String.prefix (String a p) (String b s) = true ->
  a = b /\ String.prefix p s = true.
Proof.
  simpl. destruct (Ascii.ascii_dec a b) as [->|]; [now split | discriminate].
Qed.

(** A match that begins before [/d/e/...] needs [/d/e] before it too. *)
Lemma early_match_needs_d_e (t u : string) :
  t <> "" ->
  String.prefix "/d/e/" (t ++ "/d/e/" ++ u) = true ->
  String.prefix "/d/e" t = true.
Proof.
  intros Hne H.
  destruct t as [|c1 t]; [contradiction|].
  cbn [append] in H. apply prefix_cons in H. destruct H as [<- H].
  destruct t as [|c2 t];
    [cbn [append] in H; apply prefix_cons in H; destruct H; discriminate|].
  cbn [append] in H. apply prefix_cons in H. destruct H as [<- H].
  destruct t as [|c3 t].
  { cbn [append] in H. apply prefix_cons in H. destruct H as [_ H].
    apply prefix_cons in H. destruct H; discriminate. }
  cbn [append] in H. apply prefix_cons in H. destruct H as [<- H].
  destruct t as [|c4 t];
    [cbn [append] in H; apply prefix_cons in H; destruct H; discriminate|].
  cbn [append] in H. apply prefix_cons in H. destruct H as [<- _].
  destruct t; reflexivity.
Qed.

Lemma search_form_id_skips (pre u : string) :
  has_d_e pre = false ->
  search_form_id (pre ++ "/d/e/" ++ u) = search_form_id ("/d/e/" ++ u).
Proof.
  induction pre as [|c pre IH]; intros Hfree; [reflexivity|].
  cbn [has_d_e] in Hfree. apply orb_false_elim in Hfree.
  destruct Hfree as [Hhere Hlater].
  change ((String c pre ++ "/d/e/" ++ u)%string)
    with (String c (pre ++ "/d/e/" ++ u)).
  rewrite search_form_id_step.
  destruct (String.prefix "/d/e/" (String c (pre ++ "/d/e/" ++ u))) eqn:E.
  - change (String c (pre ++ "/d/e/" ++ u))
      with ((String c pre ++ "/d/e/" ++ u)%string) in E.
    apply early_match_needs_d_e in E; [|discriminate].
    rewrite E in Hhere. discriminate.
  - now apply IH.
Qed.

Lemma substring_whole (s : string) : substring 0 (String.length s) s = s.
Proof. induction s as [|c s IH]; simpl; [reflexivity | now rewrite IH]. Qed.

Lemma run_without_slash_stops (id rest : string) :
  free_of "/" id = true ->
  rest = "" \/ startswith rest "/" = true ->
  run_without_slash (id ++ rest) = id.
Proof.
  unfold free_of. induction id as [|c id IH]; intros Hfree Hrest.
  - destruct Hrest as [->|Hrest]; [reflexivity|].
    destruct rest as [|r rest]; [reflexivity|].
    unfold startswith in Hrest. apply prefix_cons in Hrest.
    destruct Hrest as [<- _]. reflexivity.
  - simpl in *. apply andb_prop in Hfree. destruct Hfree as [Hc Hid].
    apply negb_true_iff in Hc. rewrite Hc, (IH Hid Hrest). reflexivity.
Qed.

Lemma prefix_of_append (p s : string) : String.prefix p (p ++ s) = true.
Proof.
  induction p as [|c p IH]; [destruct s; reflexivity|].
  simpl. destruct (Ascii.ascii_dec c c); [exact IH | contradiction].
Qed.

Lemma search_form_id_here (id rest : string) :
  id <> "" -> free_of "/" id = true ->
  rest = "" \/ startswith rest "/" = true ->
  search_form_id ("/d/e/" ++ id ++ rest) = Some id.
Proof.
  intros Hne Hfree Hrest.
  change ("/d/e/" ++ id ++ rest)%string
    with (String "/" (String "d" (String "/" (String "e"
            (String "/" (id ++ rest)))))).
  rewrite search_form_id_step.
  change (String "/" (String "d" (String "/" (String "e"
            (String "/" (id ++ rest))))))
    with ("/d/e/" ++ (id ++ rest))%string at 1.
  rewrite prefix_of_append.
  replace (substring 5 _ _) with (id ++ rest)%string.
  - rewrite (run_without_slash_stops id rest Hfree Hrest).
    destruct id; [contradiction | reflexivity].
  - cbn [String.length Nat.sub substring].
    now rewrite Nat.sub_0_r, substring_whole.
Qed.

(** X11. The cache file of a form URL is named after the form id alone:
    when [/d/e/] first occurs in front of a non-empty id that runs to the
    end of the URL or to the next slash, the name is [google_form_<id>.json]
    whatever precedes and follows, and the MD5 fallback is not used; so the
    view and response URLs of one form share a cache file. *)
Theorem cache_file_by_form_id (md5_hexdigest : string -> string)
  (pre id rest : string) :
  has_d_e pre = false ->
  id <> "" -> free_of "/" id = true ->
  rest = "" \/ startswith rest "/" = true ->
  get_cache_filename md5_hexdigest (pre ++ "/d/e/" ++ id ++ rest)
  = ("google_form_" ++ id ++ ".json")%string.
Proof.
  intros Hpre Hne Hfree Hrest. unfold get_cache_filename.
  rewrite search_form_id_skips by exact Hpre.
  now rewrite search_form_id_here.
Qed.

Lemma cache_file_by_form_id_witness :
  get_cache_filename (fun s => s)
    "https://docs.google.com/forms/d/e/1FAIpQL/viewform?usp=sf_link"
  = get_cache_filename (fun _ => "")
      "http://localhost/d/e/1FAIpQL/formResponse".
Proof.
  exact (eq_trans
           (cache_file_by_form_id (fun s => s) "https://docs.google.com/forms"
              "1FAIpQL" "/viewform?usp=sf_link" eq_refl ltac:(discriminate)
              eq_refl (or_intror eq_refl))
           (eq_sym
              (cache_file_by_form_id (fun _ => "") "http://localhost"
                 "1FAIpQL" "/formResponse" eq_refl ltac:(discriminate)
                 eq_refl (or_intror eq_refl)))).
Defined.

Lemma free_of_app (c : ascii) (s t : string) :
  free_of c (s ++ t) = free_of c s && free_of c t.
Proof.
  unfold free_of. induction s as [|x s IH]; [reflexivity|].
  simpl. now rewrite IH, andb_assoc.
Qed.

Lemma free_of_substring (c : ascii) (s : string) :
  free_of c s = true -> forall n m, free_of c (substring n m s) = true.
Proof.
  unfold free_of. induction s as [|x s IH]; intros Hfree n m.
  - destruct n, m; reflexivity.
  - simpl in Hfree. apply andb_prop in Hfree. destruct Hfree as [Hx Hs].
    destruct n as [|n].
    + destruct m as [|m]; [reflexivity|]. simpl. rewrite Hx. now apply IH.
    + simpl. now apply IH.
Qed.

Lemma run_without_slash_free (s : string) :
  free_of "/" (run_without_slash s) = true.
Proof.
  unfold free_of. induction s as [|c s IH]; [reflexivity|].
  simpl. destruct (Ascii.eqb c "/") eqn:E; [reflexivity|].
  simpl. now rewrite E, IH.
Qed.

(** A form id found in a URL is non-empty and holds no slash. *)
Lemma search_form_id_safe (s id : string) :
  search_form_id s = Some id -> id <> "" /\ free_of "/" id = true.
Proof.
  induction s as [|c s IH]; [discriminate|].
  rewrite search_form_id_step.
  destruct (String.prefix "/d/e/" (String c s)); [|exact IH].
  pose proof (run_without_slash_free
                (substring 5 (String.length (String c s) - 5) (String c s)))
    as Hfree.
  destruct (run_without_slash _) as [|x r]; [exact IH|].
  intros [= <-]. split; [discriminate | exact Hfree].
Qed.

(** X12. Provided the hexadecimal digest holds no slash, the cache file
    name is [google_form_], then a form id that holds no slash, then
    [.json], so the whole name holds no slash.  Nothing more is removed from
    the form id: a backslash or a pair of dots in it is kept. *)
Theorem cache_file_name_has_no_slash (md5_hexdigest : string -> string)
  (form_url : string) :
  (forall s, free_of "/" (md5_hexdigest s) = true) ->
  free_of "/" (get_cache_filename md5_hexdigest form_url) = true /\
  startswith (get_cache_filename md5_hexdigest form_url) "google_form_" = true /\
  (exists form_id,
      get_cache_filename md5_hexdigest form_url
      = ("google_form_" ++ form_id ++ ".json")%string /\
      free_of "/" form_id = true) /\
  get_cache_filename md5_hexdigest
    "https://docs.google.com/forms/d/e/a\..\b/viewform"
  = "google_form_a\..\b.json".
Proof.
  intros Hmd5.
  assert (Hid : exists form_id,
             get_cache_filename md5_hexdigest form_url
             = ("google_form_" ++ form_id ++ ".json")%string /\
             free_of "/" form_id = true).
  { unfold get_cache_filename.
    destruct (search_form_id form_url) as [id|] eqn:E.
    - exists id. split; [reflexivity|].
      exact (proj2 (search_form_id_safe form_url id E)).
    - eexists. split; [reflexivity|]. apply free_of_substring, Hmd5. }
  split; [|split; [|split; [exact Hid | reflexivity]]].
  - destruct Hid as (form_id & -> & Hfree).
    rewrite !free_of_app, Hfree. reflexivity.
  - unfold get_cache_filename, startswith. apply prefix_of_append.
Qed.

Lemma cache_file_name_has_no_slash_witness :
  (forall s : string, free_of "/" ((fun _ => "d41d8cd98f00b204e9800998ecf8427e") s)
                      = true) /\
  free_of "/" (get_cache_filename (fun _ => "d41d8cd98f00b204e9800998ecf8427e")
                 "../../etc/passwd") = true.
Proof.
  assert (Hmd5 : forall s : string,
             free_of "/" ((fun _ => "d41d8cd98f00b204e9800998ecf8427e") s) = true)
    by (intros s; reflexivity).
  split; [exact Hmd5|].
  exact (proj1 (cache_file_name_has_no_slash _ "../../etc/passwd" Hmd5)).
Defined.

(* ------------------------------------------------------------------ *)
(** * The bulk submission *)
(* ------------------------------------------------------------------ *)

Lemma build_post_data_continues (fs : form_struct) :
  continues (fun _ => True) (build_post_data fs).
Proof.
  intros g.
  destruct (answer_questions_continues (questions fs) (token_pairs fs) g)
    as (more & used & left & data & E & R & _).
  exists more, used, left, data. split; [exact E|]. split; [|trivial].
  intros rest. rewrite build_post_data_tokens. apply R.
Qed.

Lemma count_accepted_next (server : nat -> result Z) (start n : nat) :
  count_accepted server start (S n)
  = ((if accepted (server start) then 1 else 0)
     + count_accepted server (S start) n)%nat.
Proof.
  unfold count_accepted. cbn [seq filter].
  destruct (accepted (server start)); reflexivity.
Qed.

(** One round of the loop whose payload is built. *)
Lemma submit_loop_round (n : nat) (fs : form_struct) (success : nat)
  (w : world) (data : payload) (g : Rng) :
  build_post_data fs (entropy w) = Ok (data, g) ->
  submit_loop (S n) fs success w
  = submit_loop n fs
      (success + if accepted (server w (List.length (posts w))) then 1 else 0)
      {| web := web w; files := files w; entropy := tl g; server := server w;
         posts := posts w ++ [(action_url fs, data)] |}.
Proof.
  intros H. cbn [submit_loop]. rewrite H.
  unfold with_entropy, with_posts. cbn [web files entropy server posts].
  f_equal. unfold accepted.
  destruct (server w (List.length (posts w))) as [status|e]; [|lia].
  destruct (status =? 200)%Z; lia.
Qed.

Lemma count_after_round (server : nat -> result Z) (ps : list (string * payload))
  (p : string * payload) (success n : nat) :
  (success + (if accepted (server (List.length ps)) then 1 else 0)
   + count_accepted server (List.length (ps ++ [p])) n
   = success + count_accepted server (List.length ps) (S n))%nat.
Proof.
  rewrite count_accepted_next, length_app. cbn [List.length].
  replace (List.length ps + 1)%nat with (S (List.length ps)) by lia. lia.
Qed.

(** The loop never raises: a failed POST is counted out.  Every POST it
    sends goes to the action URL and begins with the [fbzx] pair; it sends
    them all and reports how many were accepted, unless building a payload
    hangs. *)
Lemma submit_loop_outcome (n : nat) (fs : form_struct) :
  forall (success : nat) (w : world),
  exists r w' new,
    submit_loop n fs success w = (r, w') /\
    files w' = files w /\
    posts w' = posts w ++ new /\
    Forall (fun p => fst p = action_url fs /\
                     hd_error (snd p) = Some ("fbzx", fbzx fs)) new /\
    (r = Hangs /\ (List.length new < n)%nat \/
     r = Ok (success + count_accepted (server w) (List.length (posts w)) n)%nat
     /\ List.length new = n).
Proof.
  induction n as [|n IH]; intros success w.
  - exists (Done (Ok success)), w, []. split; [reflexivity|].
    rewrite app_nil_r. repeat split; [constructor|]. right.
    unfold count_accepted. simpl. rewrite Nat.add_0_r. now split.
  - destruct (build_post_data_outcome fs (entropy w))
      as [H | (data & g & H & groups & _ & Hdata)].
    + exists Hangs, w, []. cbn [submit_loop]. rewrite H.
      split; [reflexivity|]. rewrite app_nil_r. repeat split; [constructor|].
      left. split; [reflexivity | simpl; lia].
    + rewrite (submit_loop_round n fs success w data g H).
      match goal with
      | |- context [submit_loop n fs ?s ?w1] =>
          destruct (IH s w1) as (r & w' & new & Hrun & Hfiles & Hposts & Hall & Hr)
      end.
      cbn [files posts server] in Hfiles, Hposts, Hr.
      exists r, w', ((action_url fs, data) :: new).
      split; [exact Hrun|]. split; [exact Hfiles|].
      split; [rewrite Hposts, <- app_assoc; reflexivity|].
      split; [constructor; [split; [reflexivity | now rewrite Hdata] | exact Hall]|].
      destruct Hr as [[-> Hlen] | [-> Hlen]].
      * left. split; [reflexivity | simpl; lia].
      * right. split; [|simpl; lia].
        now rewrite count_after_round.
Qed.

(** Over steady questions the loop runs all its rounds. *)
Lemma submit_loop_steady (n : nat) (fs : form_struct) :
  forallb steady_question (questions fs) = true ->
  forall (success : nat) (w : world),
  exists w',
    submit_loop n fs success w
    = (Done (Ok (success
                 + count_accepted (server w) (List.length (posts w)) n)%nat),
       w').
Proof.
  intros Hsteady. induction n as [|n IH]; intros success w.
  - exists w. unfold count_accepted. simpl. now rewrite Nat.add_0_r.
  - destruct (build_post_data_steady fs (entropy w) Hsteady) as (data & g & H).
    rewrite (submit_loop_round n fs success w data g H).
    match goal with
    | |- context [submit_loop n fs ?s ?w1] => destruct (IH s w1) as (w' & Hrun)
    end.
    cbn [posts server] in Hrun.
    exists w'. rewrite Hrun. now rewrite count_after_round.
Qed.

(** Whatever draws come first, they can be continued so that the loop runs
    all its rounds. *)
Lemma submit_loop_eventually (n : nat) (fs : form_struct) :
  forall (success : nat) (w : world),
  exists more w',
    submit_loop n fs success (with_entropy w (entropy w ++ more))
    = (Done (Ok (success
                 + count_accepted (server w) (List.length (posts w)) n)%nat),
       w').
Proof.
  induction n as [|n IH]; intros success w.
  - exists [], (with_entropy w (entropy w ++ [])).
    unfold count_accepted. simpl. now rewrite Nat.add_0_r.
  - destruct (build_post_data_continues fs (entropy w))
      as (more & used & left & data & E & R & _).
    destruct (IH (success
                  + if accepted (server w (List.length (posts w)))
                    then 1 else 0)%nat
                 {| web := web w; files := files w; entropy := tl left;
                    server := server w;
                    posts := posts w ++ [(action_url fs, data)] |})
      as (more' & w' & Hrun).
    cbn [posts server entropy] in Hrun.
    exists (more ++ match left with [] => 0%nat :: more' | _ => more' end), w'.
    rewrite (submit_loop_round n fs success _ data
               (left ++ match left with [] => 0%nat :: more' | _ => more' end)).
    + cbn [web files entropy server posts with_entropy].
      rewrite <- count_after_round with (p := (action_url fs, data)).
      rewrite <- Hrun. f_equal. unfold with_entropy.
      cbn [web files entropy server posts].
      destruct left; reflexivity.
    + cbn [entropy with_entropy]. rewrite app_assoc, E, <- app_assoc. apply R.
Qed.

Lemma load_or_extract_keeps (md5_hexdigest : string -> string)
  (form_url : string) (w w0 : world) (r : result form_struct) :
  load_or_extract md5_hexdigest form_url w = (r, w0) ->
  posts w0 = posts w /\ server w0 = server w /\ entropy w0 = entropy w /\
  web w0 = web w.
Proof.
  unfold load_or_extract.
  destruct (read_file _ (files w)); [intros [= _ <-]; now repeat split|].
  destruct (extract_form_structure _); intros [= _ <-]; now repeat split.
Qed.

(** Loading or extracting the structure draws nothing. *)
Lemma load_or_extract_entropy (md5_hexdigest : string -> string)
  (form_url : string) (w w0 : world) (r : result form_struct) (g : Rng) :
  load_or_extract md5_hexdigest form_url w = (r, w0) ->
  load_or_extract md5_hexdigest form_url (with_entropy w g)
  = (r, with_entropy w0 g).
Proof.
  unfold load_or_extract. cbn [files web with_entropy].
  destruct (read_file _ (files w)); [now intros [= <- <-]|].
  destruct (extract_form_structure _); now intros [= <- <-].
Qed.

(** X13. Once the form structure is loaded or extracted, [main] never
    raises, whatever the endpoint answers: every POST it makes goes to the
    action URL of the structure and begins with the [fbzx] pair, and it
    makes exactly [M] of them (none when [M <= 0]) and reports the number of
    POSTs answered with status 200, unless building a payload hangs in a
    redraw loop of [random.sample] that finds the draws exhausted, which
    leaves fewer than [M] POSTs made.  That never happens over steady
    questions, and whatever draws come first they can be continued so that
    it does not happen. *)
Theorem main_submits (md5_hexdigest : string -> string) (form_url : string)
  (M : Z) (w w0 : world) (fs : form_struct) :
  load_or_extract md5_hexdigest form_url w = (Ok fs, w0) ->
  (exists r w' new,
      main md5_hexdigest form_url M w = (r, w')
      /\ files w' = files w0
      /\ posts w' = posts w ++ new
      /\ Forall (fun p => fst p = action_url fs /\
                          hd_error (snd p) = Some ("fbzx", fbzx fs)) new
      /\ (r = Hangs /\ (List.length new < Z.to_nat M)%nat \/
          r = Ok (count_accepted (server w) (List.length (posts w))
                    (Z.to_nat M))
          /\ List.length new = Z.to_nat M))
  /\ (forallb steady_question (questions fs) = true ->
      exists w',
        main md5_hexdigest form_url M w
        = (Done (Ok (count_accepted (server w) (List.length (posts w))
                       (Z.to_nat M))), w'))
  /\ (exists more w',
        main md5_hexdigest form_url M (with_entropy w (entropy w ++ more))
        = (Done (Ok (count_accepted (server w) (List.length (posts w))
                       (Z.to_nat M))), w')).
Proof.
  intros Hload.
  destruct (load_or_extract_keeps _ _ _ _ _ Hload)
    as (Hposts & Hserver & Hentropy & _).
  split; [|split].
  - destruct (submit_loop_outcome (Z.to_nat M) fs 0 w0)
      as (r & w' & new & Hrun & Hfiles & Hnew & Hall & Hr).
    exists r, w', new. unfold main. rewrite Hload, Hrun.
    rewrite Hposts, Hserver in *.
    repeat split; assumption.
  - intros Hsteady.
    destruct (submit_loop_steady (Z.to_nat M) fs Hsteady 0 w0) as (w' & Hrun).
    exists w'. unfold main. now rewrite Hload, Hrun, Hposts, Hserver.
  - destruct (submit_loop_eventually (Z.to_nat M) fs 0 w0)
      as (more & w' & Hrun).
    exists more, w'. unfold main.
    rewrite (load_or_extract_entropy _ _ _ _ _ (entropy w ++ more) Hload).
    now rewrite <- Hentropy, Hrun, Hposts, Hserver.
Qed.

Lemma main_submits_witness :
  exists w',
    main (fun s => s) "https://docs.google.com/forms/d/e/X/viewform" 3
         (fresh_world page_with_form)
    = (Done (Ok 3%nat), w').
Proof.
  destruct (main_submits (fun s => s)
              "https://docs.google.com/forms/d/e/X/viewform" 3
              (fresh_world page_with_form) _ _ eq_refl)
    as (_ & Hsteady & _).
  destruct (Hsteady eq_refl) as (w' & Hrun).
  exists w'. exact Hrun.
Defined.

(** The cache file written by a first run. *)
Lemma read_file_other (name other : string) (content : form_struct)
  (fs : list (string * form_struct)) :
  other <> name ->
  read_file other ((name, content) :: fs) = read_file other fs.
Proof.
  intros Hne. cbn [read_file].
  destruct (name =? other) eqn:E; [|reflexivity].
  apply String.eqb_eq in E. now subst.
Qed.

(** X14. When no cache file exists and extraction succeeds, the structure
    is written under the cache file name and nowhere else; from then on
    loading the same URL returns that structure and leaves the world as it
    is, whatever the page has become in the meantime. *)
Theorem cache_reused (md5_hexdigest : string -> string) (form_url : string)
  (w : world) (fs : form_struct) :
  read_file (get_cache_filename md5_hexdigest form_url) (files w) = None ->
  extract_form_structure (web w form_url) = Ok fs ->
  exists w0,
    load_or_extract md5_hexdigest form_url w = (Ok fs, w0) /\
    read_file (get_cache_filename md5_hexdigest form_url) (files w0) = Some fs /\
    (forall other, other <> get_cache_filename md5_hexdigest form_url ->
                   read_file other (files w0) = read_file other (files w)) /\
    (forall pages,
        load_or_extract md5_hexdigest form_url (with_web w0 pages)
        = (Ok fs, with_web w0 pages)).
Proof.
  intros Hmiss Hextract.
  set (name := get_cache_filename md5_hexdigest form_url) in *.
  exists (with_files w ((name, fs) :: files w)).
  assert (Hread : read_file name ((name, fs) :: files w) = Some fs)
    by (cbn [read_file]; now rewrite String.eqb_refl).
  split; [unfold load_or_extract; fold name; now rewrite Hmiss, Hextract|].
  split; [exact Hread|]. split.
  - intros other Hother. now apply read_file_other.
  - intros pages. unfold load_or_extract. fold name.
    cbn [files with_web with_files]. now rewrite Hread.
Qed.

Lemma cache_reused_witness :
  exists w0,
    load_or_extract (fun s => s) "https://docs.google.com/forms/d/e/X/viewform"
                    (fresh_world page_with_form)
      = (extract_form_structure page_with_form, w0) /\
    load_or_extract (fun s => s) "https://docs.google.com/forms/d/e/X/viewform"
                    (with_web w0 (fun _ => page_without_form))
      = (extract_form_structure page_with_form,
         with_web w0 (fun _ => page_without_form)).
Proof.
  destruct (cache_reused (fun s => s)
              "https://docs.google.com/forms/d/e/X/viewform"
              (fresh_world page_with_form) _ eq_refl eq_refl)
    as (w0 & Hfirst & _ & _ & Hlater).
  exists w0. split; [exact Hfirst | exact (Hlater (fun _ => page_without_form))].
Defined.

(* ------------------------------------------------------------------ *)
(** * The order of the detection steps *)
(* ------------------------------------------------------------------ *)

Ltac step_absent H :=
  rewrite find_elements_none
    by (let x := fresh "x" in
        let Hx := fresh "Hx" in
        let E := fresh "E" in
        intros x Hx; destruct (matches _ x) eqn:E;
        [exfalso; apply (H x Hx);
         first [apply matches_css_tag_attr in E | apply matches_by_tag in E];
         exact E
        | reflexivity]);
  cbv iota.

Ltac step_present Hhas :=
  match goal with
  | |- context [find_elements ?qc ?l] =>
      let E := fresh "E" in
      destruct (find_elements qc l) eqn:E;
      [exfalso;
       let x := fresh "x" in
       let Hx := fresh "Hx" in
       let HP := fresh "HP" in
       destruct Hhas as (x & Hx & HP);
       apply (find_elements_found qc l x Hx);
       [first [apply matches_css_tag_attr | apply matches_by_tag]; exact HP
       | exact E]
      | eexists; reflexivity]
  end.

(** X15. The first step that finds its element decides the type: if a
    container holds the element of the step at some position in the order
    radio, checkbox, dropdown, text, paragraph, scale, date, time, and holds
    the element of no earlier step, then the type of that step is detected,
    whatever elements of later steps it also holds. *)
Theorem detect_type_priority (qc : element) (i : nat) (t : string)
  (P : element -> Prop) :
  nth_error detection_steps i = Some (t, P) ->
  has_descendant P qc ->
  (forall j t' P', (j < i)%nat -> nth_error detection_steps j = Some (t', P') ->
                   no_descendant P' qc) ->
  exists opts, detect_type qc = (Some t, opts).
Proof.
  intros Hstep Hhas Hearlier.
  unfold detect_type. cbv zeta.
  destruct i as [|[|[|[|[|[|[|[|i]]]]]]]]; [..|destruct i; discriminate];
    cbn in Hstep; injection Hstep as <- <-.
  all: try pose proof (Hearlier 0%nat _ _ ltac:(lia) eq_refl) as H0.
  all: try pose proof (Hearlier 1%nat _ _ ltac:(lia) eq_refl) as H1.
  all: try pose proof (Hearlier 2%nat _ _ ltac:(lia) eq_refl) as H2.
  all: try pose proof (Hearlier 3%nat _ _ ltac:(lia) eq_refl) as H3.
  all: try pose proof (Hearlier 4%nat _ _ ltac:(lia) eq_refl) as H4.
  all: try pose proof (Hearlier 5%nat _ _ ltac:(lia) eq_refl) as H5.
  all: try pose proof (Hearlier 6%nat _ _ ltac:(lia) eq_refl) as H6.
  all: clear Hearlier.
  - step_present Hhas.
  - step_absent H0. step_present Hhas.
  - step_absent H0. step_absent H1. step_present Hhas.
  - step_absent H0. step_absent H1. step_absent H2. step_present Hhas.
  - step_absent H0. step_absent H1. step_absent H2. step_absent H3.
    step_present Hhas.
  - step_absent H0. step_absent H1. step_absent H2. step_absent H3.
    step_absent H4. step_present Hhas.
  - step_absent H0. step_absent H1. step_absent H2. step_absent H3.
    step_absent H4. step_absent H5. step_present Hhas.
  - step_absent H0. step_absent H1. step_absent H2. step_absent H3.
    step_absent H4. step_absent H5. step_absent H6. step_present Hhas.
Qed.

Lemma detect_type_priority_witness :
  has_descendant (fun e => tag_name e = "select") select_container /\
  exists opts, detect_type select_container = (Some "dropdown", opts).
Proof.
  assert (Hselect :
            has_descendant (fun e => tag_name e = "select") select_container).
  { eexists. split; [simpl; left; reflexivity | reflexivity]. }
  split; [exact Hselect|].
  apply (detect_type_priority select_container 2 "dropdown" _ eq_refl Hselect).
  intros j t' P' Hj Hnth.
  destruct j as [|[|j]]; [| |lia]; cbn in Hnth; injection Hnth as <- <-;
    no_such_descendant.
Defined.
